(** * db/version_set.cc: versions, the version builder and compaction planning

    A shallow embedding of the version-set code of the LevelDB 1.9.0 tree
    ([src/db/version_set.cc]) and the properties its specification states
    about it.

    Conventions of the embedding:
    - fixed-width unsigned integers are [Z] with the wrap-around written
      out ([uint32], [uint64]); conversions to signed types are [int32],
      [int64];
    - [double] is IEEE binary64 as specified by [SpecFloat]
      (precision 53, [emax] 1024, round to nearest even);
    - a [FileMetaData*] is modelled by the record it points to; reference
      counts ([refs], [Ref], [Unref]) only drive deallocation and are not
      part of the embedding;
    - [assert] is modelled as executed: a failing assertion aborts, and
      the aborting functions return [option];
    - loops whose trip count is not structurally evident run on fuel,
      and exhausting the fuel yields [None]. *)

From Stdlib Require Import String Ascii.
From Stdlib Require Import ZArith List Bool Lia Sorted.
From Stdlib Require Import MSets.MSetAVL Structures.OrdersEx.
From Stdlib Require Import Floats.SpecFloat.
Import ListNotations.

Local Open Scope Z_scope.

(** ** Machine integers *)

Definition uint32 (z : Z) : Z := z mod 2 ^ 32.
Definition uint64 (z : Z) : Z := z mod 2 ^ 64.

(** Conversion of a value to a signed type of the given width
    (two's complement). *)
Definition int32 (z : Z) : Z := (z + 2 ^ 31) mod 2 ^ 32 - 2 ^ 31.
Definition int64 (z : Z) : Z := (z + 2 ^ 63) mod 2 ^ 64 - 2 ^ 63.

(** ** Status *)

Inductive Status : Type :=
| OK
| NotFound (msg : string)
| Corruption (msg : string)
| NotSupported (msg : string)
| InvalidArgument (msg : string)
| IOError (msg : string).

Definition ok (s : Status) : bool :=
  match s with OK => true | _ => false end.

Definition IsCorruption (s : Status) : bool :=
  match s with Corruption _ => true | _ => false end.

(** ** Keys and comparators *)

Definition Slice : Type := string.

(** [leveldb::Comparator]: "a total order across slices".  The
    three-way [int] result of [Compare] is kept as a [comparison]
    ([Lt] for negative, [Eq] for zero, [Gt] for positive). *)
Class Comparator : Type := {
  Compare : Slice -> Slice -> comparison;
  Name : string;
  Compare_antisym : forall a b, Compare b a = CompOpp (Compare a b);
  Compare_trans :
    forall a b c, Compare a b = Lt -> Compare b c = Lt -> Compare a c = Lt;
  Compare_eq_l :
    forall a b c, Compare a b = Eq -> Compare a c = Compare b c
}.

Inductive ValueType : Type := kTypeDeletion | kTypeValue.

Definition ValueType_code (t : ValueType) : Z :=
  match t with kTypeDeletion => 0 | kTypeValue => 1 end.

(** An internal key: the user key followed by the 8-byte suffix
    [(sequence << 8) | type]. *)
Record InternalKey : Type := {
  user_key : Slice;
  sequence : Z;
  type : ValueType
}.

Definition PackSequenceAndType (k : InternalKey) : Z :=
  uint64 (Z.lor (Z.shiftl (sequence k) 8) (ValueType_code (type k))).

(** Modelled from the spec: [InternalKeyComparator::Compare] lives in
    db/dbformat.cc, which is not among the sources.  Internal keys compare
    by user key ascending, then by the 8-byte suffix descending. *)
Definition icmp_Compare {ucmp : Comparator} (a b : InternalKey) : comparison :=
  match Compare (user_key a) (user_key b) with
  | Eq => Z.compare (PackSequenceAndType b) (PackSequenceAndType a)
  | r => r
  end.

(** ** File metadata *)

Record FileMetaData : Type := {
  allowed_seeks : Z;       (* int: seeks allowed until compaction *)
  number : Z;              (* uint64_t *)
  file_size : Z;           (* uint64_t: file size in bytes *)
  smallest : InternalKey;  (* smallest internal key served by the table *)
  largest : InternalKey    (* largest internal key served by the table *)
}.

(** ** Design constants *)

Definition kNumLevels : nat := 7.
Definition kL0_CompactionTrigger : Z := 4.
Definition kTargetFileSize : Z := 2 * 1048576.
Definition kMaxGrandParentOverlapBytes : Z := 10 * kTargetFileSize.
Definition kExpandedCompactionByteSizeLimit : Z := 25 * kTargetFileSize.

Definition MaxFileSizeForLevel (level : nat) : Z := kTargetFileSize.

(** [TotalFileSize]: an [int64_t] accumulator over [uint64_t] sizes. *)
Fixpoint TotalFileSize_from (sum : Z) (files : list FileMetaData) : Z :=
  match files with
  | [] => sum
  | f :: rest => TotalFileSize_from (int64 (sum + file_size f)) rest
  end.

Definition TotalFileSize (files : list FileMetaData) : Z :=
  TotalFileSize_from 0 files.

Definition is_lt (c : comparison) : bool :=
  match c with Lt => true | _ => false end.
Definition is_gt (c : comparison) : bool :=
  match c with Gt => true | _ => false end.

Definition isSome {A : Type} (o : option A) : bool :=
  match o with Some _ => true | None => false end.

(** [double]: IEEE binary64. *)
Definition double : Type := spec_float.
Definition double_of_Z (z : Z) : double := binary_normalize 53 1024 z 0 false.
Definition double_div (x y : double) : double := SFdiv 53 1024 x y.
Definition double_mul (x y : double) : double := SFmul 53 1024 x y.
Definition double_gt (x y : double) : bool := SFltb y x.
Definition double_ge (x y : double) : bool := SFleb y x.

(** [std::set<uint64_t>] *)
Module ZSet := MSetAVL.Make Z_as_OT.

Section WithComparator.

Context {ucmp : Comparator}.

(** ** FindFile *)

(** The binary search of [FindFile].  [left], [right] and [mid] are
    [uint32_t]; reading [files[mid]] outside the vector has no defined
    behaviour and yields [None], as does running out of fuel. *)
Fixpoint FindFile_loop (fuel : nat) (files : list FileMetaData)
    (key : InternalKey) (left right : Z) : option Z :=
  match fuel with
  | O => None
  | S fuel' =>
      if left <? right then
        let mid := uint32 (left + right) / 2 in
        match nth_error files (Z.to_nat mid) with
        | None => None
        | Some f =>
            match icmp_Compare (largest f) key with
            | Lt => FindFile_loop fuel' files key (uint32 (mid + 1)) right
            | _ => FindFile_loop fuel' files key left mid
            end
        end
      else Some right
  end.

Definition FindFile (files : list FileMetaData) (key : InternalKey)
    : option Z :=
  option_map int32
    (FindFile_loop (S (length files)) files key 0
       (uint32 (Z.of_nat (length files)))).

(** ** Version *)

(** [files_] is the array [files_[config::kNumLevels]] of file vectors;
    only the indices below [kNumLevels] are ever read or written. *)
Record Version : Type := {
  files_ : nat -> list FileMetaData;
  file_to_compact_ : option FileMetaData;
  file_to_compact_level_ : Z;
  compaction_score_ : double;
  compaction_level_ : Z
}.

(** [new Version(vset)]: the constructor of db/version_set.h. *)
Definition new_Version : Version :=
  {| files_ := fun _ => [];
     file_to_compact_ := None;
     file_to_compact_level_ := -1;
     compaction_score_ := double_of_Z (-1);
     compaction_level_ := -1 |}.

Definition set_files (v : Version) (level : nat) (fs : list FileMetaData)
    : Version :=
  {| files_ := fun l => if Nat.eqb l level then fs else files_ v l;
     file_to_compact_ := file_to_compact_ v;
     file_to_compact_level_ := file_to_compact_level_ v;
     compaction_score_ := compaction_score_ v;
     compaction_level_ := compaction_level_ v |}.

(** ** Version::GetOverlappingInputs *)

(** One iteration of the [for] loop per unit of fuel.  The loop variable
    [i], the window [user_begin, user_end] and the output vector are the
    loop state; at level 0 a file that sticks out of the window widens it
    and restarts the scan with an empty output. *)
Fixpoint GetOverlappingInputs_loop (fuel : nat) (files : list FileMetaData)
    (level : nat) (begin end_ : option InternalKey) (i : nat)
    (user_begin user_end : Slice) (inputs : list FileMetaData)
    : option (list FileMetaData) :=
  match fuel with
  | O => None
  | S fuel' =>
      match nth_error files i with
      | None => Some inputs
      | Some f =>
          let i := S i in
          let file_start := user_key (smallest f) in
          let file_limit := user_key (largest f) in
          if isSome begin && is_lt (Compare file_limit user_begin) then
            GetOverlappingInputs_loop fuel' files level begin end_ i
              user_begin user_end inputs
          else if isSome end_ && is_gt (Compare file_start user_end) then
            GetOverlappingInputs_loop fuel' files level begin end_ i
              user_begin user_end inputs
          else
            let inputs := inputs ++ [f] in
            if Nat.eqb level 0 then
              if isSome begin && is_lt (Compare file_start user_begin) then
                GetOverlappingInputs_loop fuel' files level begin end_ O
                  file_start user_end []
              else if isSome end_ && is_gt (Compare file_limit user_end) then
                GetOverlappingInputs_loop fuel' files level begin end_ O
                  user_begin file_limit []
              else
                GetOverlappingInputs_loop fuel' files level begin end_ i
                  user_begin user_end inputs
            else
              GetOverlappingInputs_loop fuel' files level begin end_ i
                user_begin user_end inputs
      end
  end.

(** Iterations granted to the scan of [n] files: every restart moves one
    end of the window to a file boundary not used before. *)
Definition GetOverlappingInputs_fuel (n : nat) : nat :=
  ((2 * n + 1) * (n + 1))%nat.

Definition user_key_or_empty (k : option InternalKey) : Slice :=
  match k with Some k => user_key k | None => EmptyString end.

Definition GetOverlappingInputs (v : Version) (level : nat)
    (begin end_ : option InternalKey) : option (list FileMetaData) :=
  GetOverlappingInputs_loop
    (GetOverlappingInputs_fuel (length (files_ v level)))
    (files_ v level) level begin end_ O
    (user_key_or_empty begin) (user_key_or_empty end_) [].

(** ** Version::Get *)

Record GetStats : Type := {
  seek_file : option FileMetaData;
  seek_file_level : Z
}.

Inductive SaverState : Type := kNotFound | kFound | kDeleted | kCorrupt.

Record Saver : Type := {
  state : SaverState;
  saver_user_key : Slice;
  value : string
}.

(** The table cache is an external collaborator.  [TableCache_Get number
    file_size ikey] answers with the status of the read and with the entry
    [(ikey, value)], if any, that it hands to the saver callback.
    [ParseInternalKey] (db/dbformat.h) splits an encoded internal key. *)
Record TableCache : Type := {
  TableCache_Get : Z -> Z -> InternalKey -> Status * option (Slice * string);
  ParseInternalKey : Slice -> option InternalKey
}.

(** [Status] messages built from two slices are joined by [": "]. *)
Definition msg2 (a b : string) : string :=
  String.append a (String.append ": " b).

Definition SaveValue (tc : TableCache) (s : Saver) (ikey : Slice)
    (v : string) : Saver :=
  match ParseInternalKey tc ikey with
  | None =>
      {| state := kCorrupt; saver_user_key := saver_user_key s;
         value := value s |}
  | Some parsed_key =>
      match Compare (user_key parsed_key) (saver_user_key s) with
      | Eq =>
          match type parsed_key with
          | kTypeValue =>
              {| state := kFound; saver_user_key := saver_user_key s;
                 value := v |}
          | kTypeDeletion =>
              {| state := kDeleted; saver_user_key := saver_user_key s;
                 value := value s |}
          end
      | _ => s
      end
  end.

Definition NewestFirst (a b : FileMetaData) : bool := number b <? number a.

(** [std::sort(tmp.begin(), tmp.end(), NewestFirst)]: the order of files
    with equal numbers is not determined by [std::sort]; file numbers
    within a version are distinct. *)
Fixpoint sort_insert (lt : FileMetaData -> FileMetaData -> bool)
    (f : FileMetaData) (l : list FileMetaData) : list FileMetaData :=
  match l with
  | [] => [f]
  | g :: rest => if lt g f then g :: sort_insert lt f rest else f :: g :: rest
  end.

Definition std_sort (lt : FileMetaData -> FileMetaData -> bool)
    (l : list FileMetaData) : list FileMetaData :=
  fold_right (sort_insert lt) [] l.

(** The locals of [Version::Get] that survive from one probe to the next,
    together with the log of its effects: [probed] lists the files handed
    to the table cache, in order, with their level; [charged] lists the
    values stored into [stats->seek_file] after its initialisation. *)
Record GetState : Type := {
  last_file_read : option FileMetaData;
  last_file_read_level : Z;
  stats : GetStats;
  out_value : string;
  probed : list (FileMetaData * Z);
  charged : list (FileMetaData * Z)
}.

Definition Get_init (value0 : string) : GetState :=
  {| last_file_read := None;
     last_file_read_level := -1;
     stats := {| seek_file := None; seek_file_level := -1 |};
     out_value := value0;
     probed := [];
     charged := [] |}.

(** The body of the inner [for] loop over the candidate files of one
    level: [inl] carries on with the next file, [inr] returns. *)
Definition Get_probe (tc : TableCache) (k : InternalKey) (level : nat)
    (f : FileMetaData) (st : GetState) : GetState + (Status * GetState) :=
  let st1 :=
    match last_file_read st, seek_file (stats st) with
    | Some last, None =>
        {| last_file_read := last_file_read st;
           last_file_read_level := last_file_read_level st;
           stats := {| seek_file := Some last;
                       seek_file_level := last_file_read_level st |};
           out_value := out_value st;
           probed := probed st;
           charged := charged st ++ [(last, last_file_read_level st)] |}
    | _, _ => st
    end in
  let saver :=
    {| state := kNotFound; saver_user_key := user_key k;
       value := out_value st1 |} in
  let '(s, entry) := TableCache_Get tc (number f) (file_size f) k in
  let saver :=
    match entry with
    | Some (ikey, v) => SaveValue tc saver ikey v
    | None => saver
    end in
  let st2 :=
    {| last_file_read := Some f;
       last_file_read_level := Z.of_nat level;
       stats := stats st1;
       out_value := value saver;
       probed := probed st1 ++ [(f, Z.of_nat level)];
       charged := charged st1 |} in
  if negb (ok s) then inr (s, st2)
  else
    match state saver with
    | kNotFound => inl st2
    | kFound => inr (s, st2)
    | kDeleted => inr (NotFound "", st2)
    | kCorrupt =>
        inr (Corruption (msg2 "corrupted key for " (user_key k)), st2)
    end.

Fixpoint Get_files (tc : TableCache) (k : InternalKey) (level : nat)
    (files : list FileMetaData) (st : GetState)
    : GetState + (Status * GetState) :=
  match files with
  | [] => inl st
  | f :: rest =>
      match Get_probe tc k level f st with
      | inl st' => Get_files tc k level rest st'
      | inr r => inr r
      end
  end.

(** The files of one level that [Get] will probe, in probing order. *)
Definition Get_candidates (v : Version) (k : InternalKey) (level : nat)
    : option (list FileMetaData) :=
  let num_files := Z.of_nat (length (files_ v level)) in
  if num_files =? 0 then Some []
  else if Nat.eqb level 0 then
    let tmp :=
      filter (fun f =>
                negb (is_lt (Compare (user_key k) (user_key (smallest f))))
                && negb (is_gt (Compare (user_key k) (user_key (largest f)))))
             (files_ v level) in
    Some (std_sort NewestFirst tmp)
  else
    match FindFile (files_ v level) k with
    | None => None
    | Some r =>
        let index := uint32 r in
        if index >=? num_files then Some []
        else
          match nth_error (files_ v level) (Z.to_nat index) with
          | None => None
          | Some tmp2 =>
              if is_lt (Compare (user_key k) (user_key (smallest tmp2)))
              then Some []
              else Some [tmp2]
          end
    end.

Fixpoint Get_levels (tc : TableCache) (v : Version) (k : InternalKey)
    (levels : list nat) (st : GetState) : option (Status * GetState) :=
  match levels with
  | [] => Some (NotFound "", st)
  | level :: rest =>
      match Get_candidates v k level with
      | None => None
      | Some files =>
          match Get_files tc k level files st with
          | inl st' => Get_levels tc v k rest st'
          | inr r => Some r
          end
      end
  end.

Definition Get (tc : TableCache) (v : Version) (k : InternalKey)
    (value0 : string) : option (Status * GetState) :=
  Get_levels tc v k (seq 0 kNumLevels) (Get_init value0).

(** ** VersionEdit (the fields of db/version_edit.h that the code reads) *)

Record VersionEdit : Type := {
  comparator_ : string;
  log_number_ : Z;
  prev_log_number_ : Z;
  next_file_number_ : Z;
  last_sequence_ : Z;
  has_comparator_ : bool;
  has_log_number_ : bool;
  has_prev_log_number_ : bool;
  has_next_file_number_ : bool;
  has_last_sequence_ : bool;
  compact_pointers_ : list (nat * InternalKey);
  deleted_files_ : list (nat * Z);
  new_files_ : list (nat * FileMetaData)
}.

Definition new_VersionEdit : VersionEdit :=
  {| comparator_ := ""; log_number_ := 0; prev_log_number_ := 0;
     next_file_number_ := 0; last_sequence_ := 0;
     has_comparator_ := false; has_log_number_ := false;
     has_prev_log_number_ := false; has_next_file_number_ := false;
     has_last_sequence_ := false;
     compact_pointers_ := []; deleted_files_ := []; new_files_ := [] |}.

Definition SetCompactPointer (e : VersionEdit) (level : nat)
    (key : InternalKey) : VersionEdit :=
  {| comparator_ := comparator_ e; log_number_ := log_number_ e;
     prev_log_number_ := prev_log_number_ e;
     next_file_number_ := next_file_number_ e;
     last_sequence_ := last_sequence_ e;
     has_comparator_ := has_comparator_ e;
     has_log_number_ := has_log_number_ e;
     has_prev_log_number_ := has_prev_log_number_ e;
     has_next_file_number_ := has_next_file_number_ e;
     has_last_sequence_ := has_last_sequence_ e;
     compact_pointers_ := compact_pointers_ e ++ [(level, key)];
     deleted_files_ := deleted_files_ e;
     new_files_ := new_files_ e |}.

(** ** VersionSet *)

(** [compact_pointer_[level]] is a string in the code: empty, or the
    encoding of an internal key.  The list of live versions only keeps
    superseded versions alive for their readers; the embedding keeps
    [current_]. *)
(* The counters of [VersionSet] carry the prefix [vs_]: [VersionEdit]
   has members of the same names. *)
Record VersionSet : Type := {
  dbname_ : string;
  vs_next_file_number_ : Z;
  manifest_file_number_ : Z;
  vs_last_sequence_ : Z;
  vs_log_number_ : Z;
  vs_prev_log_number_ : Z;
  current_ : Version;
  compact_pointer_ : nat -> option InternalKey
}.

Definition set_compact_pointer (vset : VersionSet) (level : nat)
    (key : InternalKey) : VersionSet :=
  {| dbname_ := dbname_ vset;
     vs_next_file_number_ := vs_next_file_number_ vset;
     manifest_file_number_ := manifest_file_number_ vset;
     vs_last_sequence_ := vs_last_sequence_ vset;
     vs_log_number_ := vs_log_number_ vset;
     vs_prev_log_number_ := vs_prev_log_number_ vset;
     current_ := current_ vset;
     compact_pointer_ :=
       fun l => if Nat.eqb l level then Some key else compact_pointer_ vset l
  |}.

Definition set_next_file_number (vset : VersionSet) (n : Z) : VersionSet :=
  {| dbname_ := dbname_ vset;
     vs_next_file_number_ := n;
     manifest_file_number_ := manifest_file_number_ vset;
     vs_last_sequence_ := vs_last_sequence_ vset;
     vs_log_number_ := vs_log_number_ vset;
     vs_prev_log_number_ := vs_prev_log_number_ vset;
     current_ := current_ vset;
     compact_pointer_ := compact_pointer_ vset |}.

Definition MarkFileNumberUsed (vset : VersionSet) (number : Z) : VersionSet :=
  if vs_next_file_number_ vset <=? number
  then set_next_file_number vset (uint64 (number + 1))
  else vset.

(** [AppendVersion]: make [v] current. *)
Definition AppendVersion (vset : VersionSet) (v : Version) : VersionSet :=
  {| dbname_ := dbname_ vset;
     vs_next_file_number_ := vs_next_file_number_ vset;
     manifest_file_number_ := manifest_file_number_ vset;
     vs_last_sequence_ := vs_last_sequence_ vset;
     vs_log_number_ := vs_log_number_ vset;
     vs_prev_log_number_ := vs_prev_log_number_ vset;
     current_ := v;
     compact_pointer_ := compact_pointer_ vset |}.

(** ** VersionSet::Builder *)

(** [BySmallestKey]: by smallest key, ties broken by file number. *)
Definition BySmallestKey (f1 f2 : FileMetaData) : bool :=
  match icmp_Compare (smallest f1) (smallest f2) with
  | Lt => true
  | Gt => false
  | Eq => number f1 <? number f2
  end.

(** [FileSet = std::set<FileMetaData*, BySmallestKey>], kept as the list
    of its elements in iteration order.  Inserting an element equivalent
    to one already present leaves the set as it is. *)
Fixpoint FileSet_insert (f : FileMetaData) (s : list FileMetaData)
    : list FileMetaData :=
  match s with
  | [] => [f]
  | g :: rest =>
      if BySmallestKey f g then f :: g :: rest
      else if BySmallestKey g f then g :: FileSet_insert f rest
      else g :: rest
  end.

Record LevelState : Type := {
  deleted_files : ZSet.t;
  added_files : list FileMetaData
}.

Record Builder : Type := {
  base_ : Version;
  levels_ : nat -> LevelState
}.

Definition new_Builder (base : Version) : Builder :=
  {| base_ := base;
     levels_ := fun _ => {| deleted_files := ZSet.empty; added_files := [] |}
  |}.

Definition set_level_state (b : Builder) (level : nat) (ls : LevelState)
    : Builder :=
  {| base_ := base_ b;
     levels_ := fun l => if Nat.eqb l level then ls else levels_ b l |}.

Definition Apply_delete (b : Builder) (d : nat * Z) : Builder :=
  let '(level, number) := d in
  set_level_state b level
    {| deleted_files := ZSet.add number (deleted_files (levels_ b level));
       added_files := added_files (levels_ b level) |}.

(** The metadata record built for an added file: [allowed_seeks] is an
    [int] set to one seek per 16 KiB of data, and to 100 at least. *)
Definition Apply_new_FileMetaData (f0 : FileMetaData) : FileMetaData :=
  let seeks := int32 (file_size f0 / 16384) in
  {| allowed_seeks := if seeks <? 100 then 100 else seeks;
     number := number f0;
     file_size := file_size f0;
     smallest := smallest f0;
     largest := largest f0 |}.

Definition Apply_add (b : Builder) (a : nat * FileMetaData) : Builder :=
  let '(level, f0) := a in
  let f := Apply_new_FileMetaData f0 in
  set_level_state b level
    {| deleted_files := ZSet.remove (number f) (deleted_files (levels_ b level));
       added_files := FileSet_insert f (added_files (levels_ b level)) |}.

(** [Builder::Apply]: compaction pointers go straight to the version set,
    then the deletions are recorded, then the additions. *)
Definition Apply (vb : VersionSet * Builder) (edit : VersionEdit)
    : VersionSet * Builder :=
  let '(vset, b) := vb in
  let vset :=
    fold_left (fun vs p => set_compact_pointer vs (fst p) (snd p))
              (compact_pointers_ edit) vset in
  let b := fold_left Apply_delete (deleted_files_ edit) b in
  let b := fold_left Apply_add (new_files_ edit) b in
  (vset, b).

(** [Builder::MaybeAddFile].  The assertion that a file pushed at a
    level above 0 starts after the end of the last file aborts when it
    fails. *)
Definition MaybeAddFile (b : Builder) (v : Version) (level : nat)
    (f : FileMetaData) : option Version :=
  if ZSet.mem (number f) (deleted_files (levels_ b level)) then Some v
  else
    let files := files_ v level in
    if negb (Nat.eqb level 0) && negb (Nat.eqb (length files) 0)
       && negb (is_lt (icmp_Compare (largest (last files f)) (smallest f)))
    then None
    else Some (set_files v level (files ++ [f])).

Fixpoint MaybeAddFiles (b : Builder) (v : Version) (level : nat)
    (fs : list FileMetaData) : option Version :=
  match fs with
  | [] => Some v
  | f :: rest =>
      match MaybeAddFile b v level f with
      | None => None
      | Some v' => MaybeAddFiles b v' level rest
      end
  end.

(** [std::upper_bound(first, last, value, cmp)] on a range partitioned
    by [cmp value]: the range before the first element that [value]
    precedes, and the range from that element on. *)
Fixpoint upper_bound (cmp : FileMetaData -> FileMetaData -> bool)
    (value : FileMetaData) (range : list FileMetaData)
    : list FileMetaData * list FileMetaData :=
  match range with
  | [] => ([], [])
  | g :: rest =>
      if cmp value g then ([], range)
      else let '(before, after) := upper_bound cmp value rest in
           (g :: before, after)
  end.

(** The loop of [SaveTo] over the added files of one level; [base_rest]
    is the range from [base_iter] to [base_end].  Returns the base files
    not yet merged. *)
Fixpoint SaveTo_added (b : Builder) (level : nat)
    (added : list FileMetaData) (base_rest : list FileMetaData)
    (v : Version) : option (list FileMetaData * Version) :=
  match added with
  | [] => Some (base_rest, v)
  | a :: added' =>
      let '(smaller, base_rest') := upper_bound BySmallestKey a base_rest in
      match MaybeAddFiles b v level smaller with
      | None => None
      | Some v1 =>
          match MaybeAddFile b v1 level a with
          | None => None
          | Some v2 => SaveTo_added b level added' base_rest' v2
          end
      end
  end.

(** The closing check of [SaveTo] that no two successive
    files of a level above 0 overlap. *)
Fixpoint no_overlap_check (files : list FileMetaData) : bool :=
  match files with
  | prev :: ((this :: _) as rest) =>
      is_lt (icmp_Compare (largest prev) (smallest this))
      && no_overlap_check rest
  | _ => true
  end.

Definition SaveTo_level (b : Builder) (v : Version) (level : nat)
    : option Version :=
  match SaveTo_added b level (added_files (levels_ b level))
          (files_ (base_ b) level) v with
  | None => None
  | Some (base_rest, v1) =>
      match MaybeAddFiles b v1 level base_rest with
      | None => None
      | Some v2 =>
          if negb (Nat.eqb level 0) && negb (no_overlap_check (files_ v2 level))
          then None
          else Some v2
      end
  end.

Fixpoint SaveTo_levels (b : Builder) (levels : list nat) (v : Version)
    : option Version :=
  match levels with
  | [] => Some v
  | level :: rest =>
      match SaveTo_level b v level with
      | None => None
      | Some v' => SaveTo_levels b rest v'
      end
  end.

(** [Builder::SaveTo]: [None] when an assertion aborts. *)
Definition SaveTo (b : Builder) (v : Version) : option Version :=
  SaveTo_levels b (seq 0 kNumLevels) v.

(** ** VersionSet::Finalize *)

(** [MaxBytesForLevel]: [10 * 1048576.0], times 10 for every level
    above 1. *)
Fixpoint MaxBytesForLevel_while (level : nat) (result : double) : double :=
  match level with
  | S (S _ as level') =>
      MaxBytesForLevel_while level' (double_mul result (double_of_Z 10))
  | _ => result
  end.

Definition MaxBytesForLevel (level : nat) : double :=
  MaxBytesForLevel_while level
    (double_mul (double_of_Z 10) (double_of_Z 1048576)).

(** The score that [Finalize] computes for a level. *)
Definition Finalize_score (v : Version) (level : nat) : double :=
  if Nat.eqb level 0 then
    double_div (double_of_Z (Z.of_nat (length (files_ v level))))
               (double_of_Z kL0_CompactionTrigger)
  else
    let level_bytes := uint64 (TotalFileSize (files_ v level)) in
    double_div (double_of_Z level_bytes) (MaxBytesForLevel level).

Fixpoint Finalize_loop (v : Version) (levels : list nat)
    (best_level : Z) (best_score : double) : Z * double :=
  match levels with
  | [] => (best_level, best_score)
  | level :: rest =>
      let score := Finalize_score v level in
      if double_gt score best_score
      then Finalize_loop v rest (Z.of_nat level) score
      else Finalize_loop v rest best_level best_score
  end.

Definition Finalize (v : Version) : Version :=
  let '(best_level, best_score) :=
    Finalize_loop v (seq 0 (kNumLevels - 1)) (-1) (double_of_Z (-1)) in
  {| files_ := files_ v;
     file_to_compact_ := file_to_compact_ v;
     file_to_compact_level_ := file_to_compact_level_ v;
     compaction_score_ := best_score;
     compaction_level_ := best_level |}.

(** ** VersionSet::Recover *)

(** What [Recover] reads from the environment: the contents of the
    CURRENT file, and per file name the outcome of opening it and the
    records a checksumming [log::Reader] delivers from it.  Each call of
    [ReadRecord] may first report corruptions to the reporter; the reports
    made by the call that hits the end of the file are [reported_at_end]. *)
Record LogRecord : Type := {
  reported : list Status;
  record : Slice
}.

Record SequentialFile : Type := {
  records : list LogRecord;
  reported_at_end : list Status
}.

Record Env : Type := {
  ReadFileToString_CURRENT : Status * string;
  NewSequentialFile : string -> Status * SequentialFile
}.

(** [LogReporter::Corruption]: the first report is kept. *)
Definition LogReporter_Corruption (status s : Status) : Status :=
  if ok status then s else status.

Fixpoint string_last (s : string) : option ascii :=
  match s with
  | EmptyString => None
  | String c EmptyString => Some c
  | String _ rest => string_last rest
  end.

Fixpoint string_drop_last (s : string) : string :=
  match s with
  | EmptyString => EmptyString
  | String c EmptyString => EmptyString
  | String c rest => String c (string_drop_last rest)
  end.

Definition newline : ascii := "010"%char.

Record RecoverState : Type := {
  rs_status : Status;
  have_log_number : bool;
  have_prev_log_number : bool;
  have_next_file : bool;
  have_last_sequence : bool;
  next_file : Z;
  rs_last_sequence : Z;
  rs_log_number : Z;
  rs_prev_log_number : Z;
  rs_builder : VersionSet * Builder
}.

Section Recover.

(** [VersionEdit::DecodeFrom] (db/version_edit.cc): the status of the
    decoding and the edit as the decoding left it. *)
Variable DecodeFrom : Slice -> Status * VersionEdit.

(** The body of the [while] loop of [Recover], for a record that
    [ReadRecord] has delivered while the status was still ok. *)
Definition Recover_record (st : RecoverState) (r : Slice) : RecoverState :=
  let '(s, edit) := DecodeFrom r in
  let s :=
    if ok s && has_comparator_ edit
       && negb (String.eqb (comparator_ edit) Name)
    then InvalidArgument
           (msg2 (String.append (comparator_ edit)
                    " does not match existing comparator ") Name)
    else s in
  {| rs_status := s;
     have_log_number := has_log_number_ edit || have_log_number st;
     have_prev_log_number :=
       has_prev_log_number_ edit || have_prev_log_number st;
     have_next_file := has_next_file_number_ edit || have_next_file st;
     have_last_sequence := has_last_sequence_ edit || have_last_sequence st;
     next_file :=
       if has_next_file_number_ edit then next_file_number_ edit
       else next_file st;
     rs_last_sequence :=
       if has_last_sequence_ edit then last_sequence_ edit
       else rs_last_sequence st;
     rs_log_number :=
       if has_log_number_ edit then log_number_ edit else rs_log_number st;
     rs_prev_log_number :=
       if has_prev_log_number_ edit then prev_log_number_ edit
       else rs_prev_log_number st;
     rs_builder :=
       if ok s then Apply (rs_builder st) edit else rs_builder st |}.

Definition set_rs_status (st : RecoverState) (s : Status) : RecoverState :=
  {| rs_status := s;
     have_log_number := have_log_number st;
     have_prev_log_number := have_prev_log_number st;
     have_next_file := have_next_file st;
     have_last_sequence := have_last_sequence st;
     next_file := next_file st;
     rs_last_sequence := rs_last_sequence st;
     rs_log_number := rs_log_number st;
     rs_prev_log_number := rs_prev_log_number st;
     rs_builder := rs_builder st |}.

(** [while (reader.ReadRecord(&record, &scratch) && s.ok())]. *)
Fixpoint Recover_loop (rs : list LogRecord) (at_end : list Status)
    (st : RecoverState) : RecoverState :=
  match rs with
  | [] =>
      set_rs_status st (fold_left LogReporter_Corruption at_end (rs_status st))
  | r :: rest =>
      let s := fold_left LogReporter_Corruption (reported r) (rs_status st) in
      if ok s then Recover_loop rest at_end (Recover_record st (record r))
      else set_rs_status st s
  end.

Definition Recover (env : Env) (vset : VersionSet)
    : option (Status * VersionSet) :=
  let '(s, current) := ReadFileToString_CURRENT env in
  if negb (ok s) then Some (s, vset)
  else
    match string_last current with
    | None =>
        Some (Corruption "CURRENT file does not end with newline", vset)
    | Some c =>
        if negb (Ascii.eqb c newline) then
          Some (Corruption "CURRENT file does not end with newline", vset)
        else
          let current := string_drop_last current in
          let dscname :=
            String.append (dbname_ vset) (String.append "/" current) in
          let '(s, file) := NewSequentialFile env dscname in
          if negb (ok s) then Some (s, vset)
          else
            let st :=
              Recover_loop (records file) (reported_at_end file)
                {| rs_status := s;
                   have_log_number := false;
                   have_prev_log_number := false;
                   have_next_file := false;
                   have_last_sequence := false;
                   next_file := 0;
                   rs_last_sequence := 0;
                   rs_log_number := 0;
                   rs_prev_log_number := 0;
                   rs_builder := (vset, new_Builder (current_ vset)) |} in
            let '(vset, builder) := rs_builder st in
            let s := rs_status st in
            let '(s, prev_log, vset) :=
              if ok s then
                let s :=
                  if negb (have_next_file st) then
                    Corruption "no meta-nextfile entry in descriptor"
                  else if negb (have_log_number st) then
                    Corruption "no meta-lognumber entry in descriptor"
                  else if negb (have_last_sequence st) then
                    Corruption "no last-sequence-number entry in descriptor"
                  else s in
                let prev_log :=
                  if negb (have_prev_log_number st) then 0
                  else rs_prev_log_number st in
                let vset := MarkFileNumberUsed vset prev_log in
                let vset := MarkFileNumberUsed vset (rs_log_number st) in
                (s, prev_log, vset)
              else (s, rs_prev_log_number st, vset) in
            if ok s then
              match SaveTo builder new_Version with
              | None => None
              | Some v =>
                  let v := Finalize v in
                  let vset := AppendVersion vset v in
                  Some (s,
                        {| dbname_ := dbname_ vset;
                           vs_next_file_number_ := uint64 (next_file st + 1);
                           manifest_file_number_ := next_file st;
                           vs_last_sequence_ := rs_last_sequence st;
                           vs_log_number_ := rs_log_number st;
                           vs_prev_log_number_ := prev_log;
                           current_ := current_ vset;
                           compact_pointer_ := compact_pointer_ vset |})
              end
            else Some (s, vset)
    end.

End Recover.

(** ** Compaction planning *)

Notation "x <- e ;; k" :=
  (match e with Some x => k | None => None end)
  (at level 61, e at next level, right associativity).
Notation "' p <- e ;; k" :=
  (match e with Some p => k | None => None end)
  (at level 61, p pattern, e at next level, right associativity).

(** [VersionSet::GetRange]; the assertion that [inputs] is not empty
    aborts when it fails. *)
Definition GetRange (inputs : list FileMetaData)
    : option (InternalKey * InternalKey) :=
  match inputs with
  | [] => None
  | f0 :: rest =>
      Some (fold_left
              (fun (sl : InternalKey * InternalKey) (f : FileMetaData) =>
                 let '(s, l) := sl in
                 (if is_lt (icmp_Compare (smallest f) s) then smallest f else s,
                  if is_gt (icmp_Compare (largest f) l) then largest f else l))
              rest (smallest f0, largest f0))
  end.

Definition GetRange2 (inputs1 inputs2 : list FileMetaData)
    : option (InternalKey * InternalKey) :=
  GetRange (inputs1 ++ inputs2).

Record Compaction : Type := {
  level_ : nat;
  max_output_file_size_ : Z;
  input_version_ : option Version;
  edit_ : VersionEdit;
  inputs_0 : list FileMetaData;     (* inputs_[0]: files of level_ *)
  inputs_1 : list FileMetaData;     (* inputs_[1]: files of level_ + 1 *)
  grandparents_ : list FileMetaData;
  grandparent_index_ : nat;
  seen_key_ : bool;
  overlapped_bytes_ : Z;            (* int64_t *)
  level_ptrs_ : nat -> nat
}.

(** [Compaction::Compaction(int level)] *)
Definition new_Compaction (level : nat) : Compaction :=
  {| level_ := level;
     max_output_file_size_ := MaxFileSizeForLevel level;
     input_version_ := None;
     edit_ := new_VersionEdit;
     inputs_0 := [];
     inputs_1 := [];
     grandparents_ := [];
     grandparent_index_ := O;
     seen_key_ := false;
     overlapped_bytes_ := 0;
     level_ptrs_ := fun _ => O |}.

(** The attempt of [SetupOtherInputs] to grow the inputs of [level]
    without changing the inputs of [level + 1]: the vectors [inputs_[0]]
    and [inputs_[1]] and the keys [largest], [all_start] and [all_limit]
    as the attempt leaves them. *)
Definition SetupOtherInputs_expand (current : Version) (level : nat)
    (inputs0 inputs1 : list FileMetaData)
    (largest0 all_start all_limit : InternalKey)
    : option (list FileMetaData * list FileMetaData
              * InternalKey * InternalKey * InternalKey) :=
  let unchanged := Some (inputs0, inputs1, largest0, all_start, all_limit) in
  if negb (Nat.eqb (length inputs1) 0) then
    expanded0 <-
      GetOverlappingInputs current level (Some all_start) (Some all_limit) ;;
    let inputs1_size := TotalFileSize inputs1 in
    let expanded0_size := TotalFileSize expanded0 in
    if (length inputs0 <? length expanded0)%nat
       && (inputs1_size + expanded0_size <? kExpandedCompactionByteSizeLimit)
    then
      ' (new_start, new_limit) <- GetRange expanded0 ;;
      expanded1 <-
        GetOverlappingInputs current (level + 1)
          (Some new_start) (Some new_limit) ;;
      if Nat.eqb (length expanded1) (length inputs1)
      then
        ' (all_start', all_limit') <- GetRange2 expanded0 expanded1 ;;
        Some (expanded0, expanded1, new_limit, all_start', all_limit')
      else unchanged
    else unchanged
  else unchanged.

(** [VersionSet::SetupOtherInputs] *)
Definition SetupOtherInputs (vset : VersionSet) (c : Compaction)
    : option (VersionSet * Compaction) :=
  let level := level_ c in
  let current := current_ vset in
  ' (smallest0, largest0) <- GetRange (inputs_0 c) ;;
  inputs1 <-
    GetOverlappingInputs current (level + 1)
      (Some smallest0) (Some largest0) ;;
  ' (all_start, all_limit) <- GetRange2 (inputs_0 c) inputs1 ;;
  ' (inputs0', inputs1', largest', all_start, all_limit) <-
    SetupOtherInputs_expand current level (inputs_0 c) inputs1
      largest0 all_start all_limit ;;
  grandparents <-
    (if (level + 2 <? kNumLevels)%nat
     then GetOverlappingInputs current (level + 2)
            (Some all_start) (Some all_limit)
     else Some (grandparents_ c)) ;;
  Some (set_compact_pointer vset level largest',
        {| level_ := level_ c;
           max_output_file_size_ := max_output_file_size_ c;
           input_version_ := input_version_ c;
           edit_ := SetCompactPointer (edit_ c) level largest';
           inputs_0 := inputs0';
           inputs_1 := inputs1';
           grandparents_ := grandparents;
           grandparent_index_ := grandparent_index_ c;
           seen_key_ := seen_key_ c;
           overlapped_bytes_ := overlapped_bytes_ c;
           level_ptrs_ := level_ptrs_ c |}).

(** The truncation loop of [CompactRange]: [total] is a [uint64_t];
    the vector is cut behind the first file with which the running total
    reaches [limit]. *)
Fixpoint CompactRange_truncate (limit total : Z) (inputs : list FileMetaData)
    : list FileMetaData :=
  match inputs with
  | [] => []
  | f :: rest =>
      let total := uint64 (total + file_size f) in
      if total >=? limit then [f]
      else f :: CompactRange_truncate limit total rest
  end.

(** The inputs of [level] that [CompactRange] passes to
    [SetupOtherInputs]; [Some None] when it returns [NULL]. *)
Definition CompactRange_inputs (vset : VersionSet) (level : nat)
    (begin end_ : option InternalKey)
    : option (option (list FileMetaData)) :=
  inputs <- GetOverlappingInputs (current_ vset) level begin end_ ;;
  if Nat.eqb (length inputs) 0 then Some None
  else Some (Some (CompactRange_truncate (MaxFileSizeForLevel level) 0 inputs)).

(** [VersionSet::CompactRange]; the inner [None] is the [NULL] result. *)
Definition CompactRange (vset : VersionSet) (level : nat)
    (begin end_ : option InternalKey)
    : option (VersionSet * option Compaction) :=
  sel <- CompactRange_inputs vset level begin end_ ;;
  match sel with
  | None => Some (vset, None)
  | Some inputs =>
      let c := new_Compaction level in
      let c :=
        {| level_ := level_ c;
           max_output_file_size_ := max_output_file_size_ c;
           input_version_ := Some (current_ vset);
           edit_ := edit_ c;
           inputs_0 := inputs;
           inputs_1 := inputs_1 c;
           grandparents_ := grandparents_ c;
           grandparent_index_ := grandparent_index_ c;
           seen_key_ := seen_key_ c;
           overlapped_bytes_ := overlapped_bytes_ c;
           level_ptrs_ := level_ptrs_ c |} in
      ' (vset', c') <- SetupOtherInputs vset c ;;
      Some (vset', Some c')
  end.

(** The [while] loop of [ShouldStopBefore] over the grandparents from
    [grandparent_index_] on. *)
Fixpoint ShouldStopBefore_scan (internal_key : InternalKey)
    (rest : list FileMetaData) (seen_key : bool)
    (grandparent_index : nat) (overlapped_bytes : Z) : nat * Z :=
  match rest with
  | [] => (grandparent_index, overlapped_bytes)
  | g :: rest' =>
      if is_gt (icmp_Compare internal_key (largest g)) then
        ShouldStopBefore_scan internal_key rest' seen_key
          (S grandparent_index)
          (if seen_key then int64 (overlapped_bytes + file_size g)
           else overlapped_bytes)
      else (grandparent_index, overlapped_bytes)
  end.

(** [Compaction::ShouldStopBefore] *)
Definition ShouldStopBefore (c : Compaction) (internal_key : InternalKey)
    : Compaction * bool :=
  let '(index, overlapped) :=
    ShouldStopBefore_scan internal_key
      (skipn (grandparent_index_ c) (grandparents_ c))
      (seen_key_ c) (grandparent_index_ c) (overlapped_bytes_ c) in
  let stop := kMaxGrandParentOverlapBytes <? overlapped in
  ({| level_ := level_ c;
      max_output_file_size_ := max_output_file_size_ c;
      input_version_ := input_version_ c;
      edit_ := edit_ c;
      inputs_0 := inputs_0 c;
      inputs_1 := inputs_1 c;
      grandparents_ := grandparents_ c;
      grandparent_index_ := index;
      seen_key_ := true;
      overlapped_bytes_ := if stop then 0 else overlapped;
      level_ptrs_ := level_ptrs_ c |},
   stop).

(** ** Overlap tests *)

(** [AfterFile]: a [NULL] user key occurs before all keys and is never
    after a file. *)
Definition AfterFile (k : option Slice) (f : FileMetaData) : bool :=
  match k with
  | Some k => is_gt (Compare k (user_key (largest f)))
  | None => false
  end.

(** [BeforeFile]: a [NULL] user key occurs after all keys and is never
    before a file. *)
Definition BeforeFile (k : option Slice) (f : FileMetaData) : bool :=
  match k with
  | Some k => is_lt (Compare k (user_key (smallest f)))
  | None => false
  end.

Section SeekKeys.

(** Constants of db/dbformat.h, which is not among the sources: the
    largest sequence number, the value type that sorts first among the
    entries of one sequence number, and the deepest level to which a
    flushed memtable may be pushed. *)
Variable kMaxSequenceNumber : Z.
Variable kValueTypeForSeek : ValueType.
Variable kMaxMemCompactLevel : nat.

(** [InternalKey(user_key, kMaxSequenceNumber, kValueTypeForSeek)] *)
Definition seek_key (k : Slice) : InternalKey :=
  {| user_key := k; sequence := kMaxSequenceNumber;
     type := kValueTypeForSeek |}.

(** [SomeFileOverlapsRange]: a scan of all the files, or, on files that
    are sorted and disjoint, a binary search followed by one test.  The
    index is a [uint32_t]. *)
Definition SomeFileOverlapsRange (disjoint_sorted_files : bool)
    (files : list FileMetaData)
    (smallest_user_key largest_user_key : option Slice) : option bool :=
  if negb disjoint_sorted_files then
    Some (existsb
            (fun f => negb (AfterFile smallest_user_key f
                            || BeforeFile largest_user_key f))
            files)
  else
    index <-
      match smallest_user_key with
      | Some k => option_map uint32 (FindFile files (seek_key k))
      | None => Some 0
      end ;;
    if index >=? Z.of_nat (length files) then Some false
    else
      f <- nth_error files (Z.to_nat index) ;;
      Some (negb (BeforeFile largest_user_key f)).

(** [Version::OverlapInLevel] *)
Definition OverlapInLevel (v : Version) (level : nat)
    (smallest_user_key largest_user_key : option Slice) : option bool :=
  SomeFileOverlapsRange (0 <? level)%nat (files_ v level)
    smallest_user_key largest_user_key.

(** The [while] loop of [PickLevelForMemTableOutput]; [n] is
    [kMaxMemCompactLevel - level]. *)
Fixpoint PickLevelForMemTableOutput_while (n : nat) (v : Version)
    (smallest_user_key largest_user_key : Slice)
    (start limit : InternalKey) (level : nat) : option nat :=
  match n with
  | O => Some level
  | S n' =>
      overlap <-
        OverlapInLevel v (level + 1)
          (Some smallest_user_key) (Some largest_user_key) ;;
      if overlap then Some level
      else
        overlaps <-
          GetOverlappingInputs v (level + 2) (Some start) (Some limit) ;;
        let sum := TotalFileSize overlaps in
        if kMaxGrandParentOverlapBytes <? sum then Some level
        else
          PickLevelForMemTableOutput_while n' v
            smallest_user_key largest_user_key start limit (level + 1)
  end.

(** [Version::PickLevelForMemTableOutput] *)
Definition PickLevelForMemTableOutput (v : Version)
    (smallest_user_key largest_user_key : Slice) : option nat :=
  overlap <-
    OverlapInLevel v 0 (Some smallest_user_key) (Some largest_user_key) ;;
  if negb overlap then
    let start := seek_key smallest_user_key in
    let limit :=
      {| user_key := largest_user_key; sequence := 0;
         type := kTypeDeletion |} in
    PickLevelForMemTableOutput_while kMaxMemCompactLevel v
      smallest_user_key largest_user_key start limit 0
  else Some O.

End SeekKeys.

(** ** More of VersionEdit *)

(** [VersionEdit::SetComparatorName] (db/version_edit.h) *)
Definition SetComparatorName (e : VersionEdit) (name : string)
    : VersionEdit :=
  {| comparator_ := name; log_number_ := log_number_ e;
     prev_log_number_ := prev_log_number_ e;
     next_file_number_ := next_file_number_ e;
     last_sequence_ := last_sequence_ e;
     has_comparator_ := true;
     has_log_number_ := has_log_number_ e;
     has_prev_log_number_ := has_prev_log_number_ e;
     has_next_file_number_ := has_next_file_number_ e;
     has_last_sequence_ := has_last_sequence_ e;
     compact_pointers_ := compact_pointers_ e;
     deleted_files_ := deleted_files_ e;
     new_files_ := new_files_ e |}.

(** [VersionEdit::AddFile] (db/version_edit.h): the metadata record is
    default-constructed, with [allowed_seeks] at [1 << 30], and filled
    in. *)
Definition AddFile (e : VersionEdit) (level : nat) (file file_size : Z)
    (smallest largest : InternalKey) : VersionEdit :=
  {| comparator_ := comparator_ e; log_number_ := log_number_ e;
     prev_log_number_ := prev_log_number_ e;
     next_file_number_ := next_file_number_ e;
     last_sequence_ := last_sequence_ e;
     has_comparator_ := has_comparator_ e;
     has_log_number_ := has_log_number_ e;
     has_prev_log_number_ := has_prev_log_number_ e;
     has_next_file_number_ := has_next_file_number_ e;
     has_last_sequence_ := has_last_sequence_ e;
     compact_pointers_ := compact_pointers_ e;
     deleted_files_ := deleted_files_ e;
     new_files_ :=
       new_files_ e
       ++ [(level,
            {| allowed_seeks := 2 ^ 30; number := file;
               file_size := file_size;
               smallest := smallest; largest := largest |})] |}.

(** [deleted_files_] is a [std::set] of pairs, kept as the list of its
    elements in iteration order: by level, then by file number. *)
Fixpoint DeletedFileSet_insert (d : nat * Z) (s : list (nat * Z))
    : list (nat * Z) :=
  match s with
  | [] => [d]
  | x :: rest =>
      if (fst d <? fst x)%nat || (Nat.eqb (fst d) (fst x) && (snd d <? snd x))
      then d :: x :: rest
      else if (fst x <? fst d)%nat
              || (Nat.eqb (fst x) (fst d) && (snd x <? snd d))
      then x :: DeletedFileSet_insert d rest
      else x :: rest
  end.

(** [VersionEdit::DeleteFile] (db/version_edit.h) *)
Definition DeleteFile (e : VersionEdit) (level : nat) (file : Z)
    : VersionEdit :=
  {| comparator_ := comparator_ e; log_number_ := log_number_ e;
     prev_log_number_ := prev_log_number_ e;
     next_file_number_ := next_file_number_ e;
     last_sequence_ := last_sequence_ e;
     has_comparator_ := has_comparator_ e;
     has_log_number_ := has_log_number_ e;
     has_prev_log_number_ := has_prev_log_number_ e;
     has_next_file_number_ := has_next_file_number_ e;
     has_last_sequence_ := has_last_sequence_ e;
     compact_pointers_ := compact_pointers_ e;
     deleted_files_ := DeletedFileSet_insert (level, file) (deleted_files_ e);
     new_files_ := new_files_ e |}.

(** ** VersionSet::WriteSnapshot *)

(** The edit that [WriteSnapshot] encodes and appends to the log: the
    name of the comparator, the compaction pointers that are set, and
    every file of the current version. *)
Definition WriteSnapshot_edit (vset : VersionSet) : VersionEdit :=
  let edit := SetComparatorName new_VersionEdit Name in
  let edit :=
    fold_left
      (fun e level =>
         match compact_pointer_ vset level with
         | Some key => SetCompactPointer e level key
         | None => e
         end)
      (seq 0 kNumLevels) edit in
  fold_left
    (fun e level =>
       fold_left
         (fun e f =>
            AddFile e level (number f) (file_size f) (smallest f) (largest f))
         (files_ (current_ vset) level) e)
    (seq 0 kNumLevels) edit.

(** ** Version::UpdateStats *)


(** ** VersionSet::PickCompaction *)

(** The first file of the level that comes after the compaction pointer
    of the level; every file does when the pointer is empty. *)
Fixpoint PickCompaction_first (files : list FileMetaData)
    (pointer : option InternalKey) : option FileMetaData :=
  match files with
  | [] => None
  | f :: rest =>
      if match pointer with
         | None => true
         | Some p => is_gt (icmp_Compare (largest f) p)
         end
      then Some f
      else PickCompaction_first rest pointer
  end.

Definition set_inputs_0 (c : Compaction) (v : Version)
    (inputs : list FileMetaData) : Compaction :=
  {| level_ := level_ c;
     max_output_file_size_ := max_output_file_size_ c;
     input_version_ := Some v;
     edit_ := edit_ c;
     inputs_0 := inputs;
     inputs_1 := inputs_1 c;
     grandparents_ := grandparents_ c;
     grandparent_index_ := grandparent_index_ c;
     seen_key_ := seen_key_ c;
     overlapped_bytes_ := overlapped_bytes_ c;
     level_ptrs_ := level_ptrs_ c |}.

(** The level and the file that [PickCompaction] starts from: a level
    whose score is at least 1 comes before a file that has used up its
    seeks; [Some None] when there is neither.  The assertions on the
    level abort when they fail; reading [files_[level][0]] of an empty
    level, or the files of a negative level, has no defined behaviour. *)
Definition PickCompaction_pick (vset : VersionSet)
    : option (option (nat * FileMetaData)) :=
  let current := current_ vset in
  let size_compaction :=
    double_ge (compaction_score_ current) (double_of_Z 1) in
  if size_compaction then
    let level := compaction_level_ current in
    if (level <? 0) || negb (level + 1 <? Z.of_nat kNumLevels) then None
    else
      let level := Z.to_nat level in
      match PickCompaction_first (files_ current level)
              (compact_pointer_ vset level) with
      | Some f => Some (Some (level, f))
      | None =>
          f <- nth_error (files_ current level) 0 ;;
          Some (Some (level, f))
      end
  else
    match file_to_compact_ current with
    | Some f =>
        let level := file_to_compact_level_ current in
        if level <? 0 then None else Some (Some (Z.to_nat level, f))
    | None => Some None
    end.

(** [VersionSet::PickCompaction]; the inner [None] is the [NULL]
    result. *)
Definition PickCompaction (vset : VersionSet)
    : option (VersionSet * option Compaction) :=
  picked <- PickCompaction_pick vset ;;
  match picked with
  | None => Some (vset, None)
  | Some (level, f) =>
      let current := current_ vset in
      inputs <-
        (if Nat.eqb level 0 then
           ' (smallest, largest) <- GetRange [f] ;;
           inputs <-
             GetOverlappingInputs current 0 (Some smallest) (Some largest) ;;
           if Nat.eqb (length inputs) 0 then None else Some inputs
         else Some [f]) ;;
      ' (vset', c') <-
        SetupOtherInputs vset
          (set_inputs_0 (new_Compaction level) current inputs) ;;
      Some (vset', Some c')
  end.

(** ** Compaction: the predicates consulted during the merge *)

(** [Compaction::IsTrivialMove] *)
Definition IsTrivialMove (c : Compaction) : bool :=
  Nat.eqb (length (inputs_0 c)) 1
  && Nat.eqb (length (inputs_1 c)) 0
  && (TotalFileSize (grandparents_ c) <=? kMaxGrandParentOverlapBytes).

(** [Compaction::AddInputDeletions] *)
Definition AddInputDeletions (c : Compaction) (edit : VersionEdit)
    : VersionEdit :=
  let edit :=
    fold_left (fun e f => DeleteFile e (level_ c + 0) (number f))
      (inputs_0 c) edit in
  fold_left (fun e f => DeleteFile e (level_ c + 1) (number f))
    (inputs_1 c) edit.

(** The inner loop of [IsBaseLevelForKey] over the files of one level
    from [level_ptrs_[lvl]] on: the pointer as the loop leaves it, and
    whether the loop returned [false] because the key falls in the range
    of the file it stopped at. *)
Fixpoint IsBaseLevelForKey_scan (k : Slice) (rest : list FileMetaData)
    (ptr : nat) : nat * bool :=
  match rest with
  | [] => (ptr, false)
  | f :: rest' =>
      if negb (is_gt (Compare k (user_key (largest f)))) then
        (ptr, negb (is_lt (Compare k (user_key (smallest f)))))
      else IsBaseLevelForKey_scan k rest' (S ptr)
  end.

Fixpoint IsBaseLevelForKey_levels (v : Version) (k : Slice)
    (lvls : list nat) (ptrs : nat -> nat) : (nat -> nat) * bool :=
  match lvls with
  | [] => (ptrs, true)
  | lvl :: rest =>
      let '(ptr, found) :=
        IsBaseLevelForKey_scan k (skipn (ptrs lvl) (files_ v lvl))
          (ptrs lvl) in
      let ptrs := fun l => if Nat.eqb l lvl then ptr else ptrs l in
      if found then (ptrs, false)
      else IsBaseLevelForKey_levels v k rest ptrs
  end.

(** [Compaction::IsBaseLevelForKey]; [input_version_] is dereferenced. *)
Definition IsBaseLevelForKey (c : Compaction) (k : Slice)
    : option (Compaction * bool) :=
  v <- input_version_ c ;;
  let '(ptrs, r) :=
    IsBaseLevelForKey_levels v k
      (seq (level_ c + 2) (kNumLevels - (level_ c + 2))) (level_ptrs_ c) in
  Some ({| level_ := level_ c;
           max_output_file_size_ := max_output_file_size_ c;
           input_version_ := input_version_ c;
           edit_ := edit_ c;
           inputs_0 := inputs_0 c;
           inputs_1 := inputs_1 c;
           grandparents_ := grandparents_ c;
           grandparent_index_ := grandparent_index_ c;
           seen_key_ := seen_key_ c;
           overlapped_bytes_ := overlapped_bytes_ c;
           level_ptrs_ := ptrs |},
        r).

(** ** VersionSet::LogAndApply *)

(** [VersionEdit::SetLogNumber], [SetPrevLogNumber], [SetNextFile] and
    [SetLastSequence] (db/version_edit.h) *)
Definition SetLogNumber (e : VersionEdit) (num : Z) : VersionEdit :=
  {| comparator_ := comparator_ e; log_number_ := num;
     prev_log_number_ := prev_log_number_ e;
     next_file_number_ := next_file_number_ e;
     last_sequence_ := last_sequence_ e;
     has_comparator_ := has_comparator_ e;
     has_log_number_ := true;
     has_prev_log_number_ := has_prev_log_number_ e;
     has_next_file_number_ := has_next_file_number_ e;
     has_last_sequence_ := has_last_sequence_ e;
     compact_pointers_ := compact_pointers_ e;
     deleted_files_ := deleted_files_ e;
     new_files_ := new_files_ e |}.

Definition SetPrevLogNumber (e : VersionEdit) (num : Z) : VersionEdit :=
  {| comparator_ := comparator_ e; log_number_ := log_number_ e;
     prev_log_number_ := num;
     next_file_number_ := next_file_number_ e;
     last_sequence_ := last_sequence_ e;
     has_comparator_ := has_comparator_ e;
     has_log_number_ := has_log_number_ e;
     has_prev_log_number_ := true;
     has_next_file_number_ := has_next_file_number_ e;
     has_last_sequence_ := has_last_sequence_ e;
     compact_pointers_ := compact_pointers_ e;
     deleted_files_ := deleted_files_ e;
     new_files_ := new_files_ e |}.

Definition SetNextFile (e : VersionEdit) (num : Z) : VersionEdit :=
  {| comparator_ := comparator_ e; log_number_ := log_number_ e;
     prev_log_number_ := prev_log_number_ e;
     next_file_number_ := num;
     last_sequence_ := last_sequence_ e;
     has_comparator_ := has_comparator_ e;
     has_log_number_ := has_log_number_ e;
     has_prev_log_number_ := has_prev_log_number_ e;
     has_next_file_number_ := true;
     has_last_sequence_ := has_last_sequence_ e;
     compact_pointers_ := compact_pointers_ e;
     deleted_files_ := deleted_files_ e;
     new_files_ := new_files_ e |}.

Definition SetLastSequence (e : VersionEdit) (seq : Z) : VersionEdit :=
  {| comparator_ := comparator_ e; log_number_ := log_number_ e;
     prev_log_number_ := prev_log_number_ e;
     next_file_number_ := next_file_number_ e;
     last_sequence_ := seq;
     has_comparator_ := has_comparator_ e;
     has_log_number_ := has_log_number_ e;
     has_prev_log_number_ := has_prev_log_number_ e;
     has_next_file_number_ := has_next_file_number_ e;
     has_last_sequence_ := true;
     compact_pointers_ := compact_pointers_ e;
     deleted_files_ := deleted_files_ e;
     new_files_ := new_files_ e |}.

(** The outcomes of the writes that [LogAndApply] issues: creating the
    manifest file, appending the snapshot ([WriteSnapshot] returns the
    status of [AddRecord]), appending the record of the edit, syncing the
    file, and pointing CURRENT at the new manifest. *)
Record ManifestWrites : Type := {
  NewWritableFile_status : Status;
  WriteSnapshot_status : Status;
  AddRecord_status : Status;
  Sync_status : Status;
  SetCurrentFile_status : Status
}.

Section LogAndApply.

(** [DescriptorFileName] (db/filename.cc) and [VersionEdit::EncodeTo]
    (db/version_edit.cc) *)
Variable DescriptorFileName : string -> Z -> string.
Variable EncodeTo : VersionEdit -> string.

(** [VersionSet::ManifestContains]: whether reading the manifest back
    delivers the record. *)
Definition ManifestContains (env : Env) (vset : VersionSet)
    (record_ : string) : bool :=
  let fname := DescriptorFileName (dbname_ vset) (manifest_file_number_ vset) in
  let '(s, file) := NewSequentialFile env fname in
  if negb (ok s) then false
  else existsb (fun r => String.eqb (record r) record_) (records file).

(** [VersionSet::LogAndApply].  [descriptor_log_] tells whether the
    manifest log is open; the edit is completed in place and returned.
    The assertions on the log number of the edit abort when they fail, as
    do those of [SaveTo]. *)
Definition LogAndApply (env : Env) (w : ManifestWrites)
    (vset : VersionSet) (descriptor_log_ : bool) (edit : VersionEdit)
    : option (Status * VersionSet * bool * VersionEdit) :=
  edit <-
    (if has_log_number_ edit then
       if (log_number_ edit >=? vs_log_number_ vset)
          && (log_number_ edit <? vs_next_file_number_ vset)
       then Some edit else None
     else Some (SetLogNumber edit (vs_log_number_ vset))) ;;
  let edit :=
    if negb (has_prev_log_number_ edit)
    then SetPrevLogNumber edit (vs_prev_log_number_ vset) else edit in
  let edit := SetNextFile edit (vs_next_file_number_ vset) in
  let edit := SetLastSequence edit (vs_last_sequence_ vset) in
  let '(vset1, builder) := Apply (vset, new_Builder (current_ vset)) edit in
  v <- SaveTo builder new_Version ;;
  let v := Finalize v in
  let new_manifest_file := negb descriptor_log_ in
  let edit :=
    if new_manifest_file
    then SetNextFile edit (vs_next_file_number_ vset1) else edit in
  let '(s, descriptor_log_) :=
    if new_manifest_file then
      let s := NewWritableFile_status w in
      if ok s then (WriteSnapshot_status w, true) else (s, descriptor_log_)
    else (OK, descriptor_log_) in
  let s :=
    if ok s then
      let record_ := EncodeTo edit in
      let s := AddRecord_status w in
      let s := if ok s then Sync_status w else s in
      if negb (ok s) && ManifestContains env vset1 record_ then OK else s
    else s in
  let s :=
    if ok s && new_manifest_file then SetCurrentFile_status w else s in
  if ok s then
    let vset2 := AppendVersion vset1 v in
    Some (s,
          {| dbname_ := dbname_ vset2;
             vs_next_file_number_ := vs_next_file_number_ vset2;
             manifest_file_number_ := manifest_file_number_ vset2;
             vs_last_sequence_ := vs_last_sequence_ vset2;
             vs_log_number_ := log_number_ edit;
             vs_prev_log_number_ := prev_log_number_ edit;
             current_ := current_ vset2;
             compact_pointer_ := compact_pointer_ vset2 |},
          descriptor_log_, edit)
  else
    Some (s, vset1,
          if new_manifest_file then false else descriptor_log_, edit).

End LogAndApply.

(** ** VersionSet::ApproximateOffsetOf *)

Section ApproximateOffsetOf.

(** [tableptr->ApproximateOffsetOf(ikey.Encode())] for the table that
    the table cache opens for a file number and size; [None] when the
    cache hands back no table. *)
Variable Table_ApproximateOffsetOf : Z -> Z -> InternalKey -> option Z.

(** The loop over the files of one level; [result] is a [uint64_t]. *)
Fixpoint ApproximateOffsetOf_files (level : nat) (ikey : InternalKey)
    (files : list FileMetaData) (result : Z) : Z :=
  match files with
  | [] => result
  | f :: rest =>
      if negb (is_gt (icmp_Compare (largest f) ikey)) then
        ApproximateOffsetOf_files level ikey rest
          (uint64 (result + file_size f))
      else if is_gt (icmp_Compare (smallest f) ikey) then
        if (0 <? level)%nat then result
        else ApproximateOffsetOf_files level ikey rest result
      else
        ApproximateOffsetOf_files level ikey rest
          match Table_ApproximateOffsetOf (number f) (file_size f) ikey with
          | Some offset => uint64 (result + offset)
          | None => result
          end
  end.

Definition ApproximateOffsetOf (v : Version) (ikey : InternalKey) : Z :=
  fold_left
    (fun result level =>
       ApproximateOffsetOf_files level ikey (files_ v level) result)
    (seq 0 kNumLevels) 0.

End ApproximateOffsetOf.

End WithComparator.

(** * Properties *)

(** ** Three-way comparisons that are total orders *)

Section ComparisonLaws.

Context {A : Type} (cmp : A -> A -> comparison).
Hypothesis cmp_antisym : forall a b, cmp b a = CompOpp (cmp a b).
Hypothesis cmp_trans :
  forall a b c, cmp a b = Lt -> cmp b c = Lt -> cmp a c = Lt.
Hypothesis cmp_eq_l : forall a b c, cmp a b = Eq -> cmp a c = cmp b c.

Lemma cmp_refl a : cmp a a = Eq.
Proof.
  pose proof (cmp_antisym a a) as H.
  destruct (cmp a a); simpl in H; congruence.
Qed.

Lemma cmp_eq_r a b c : cmp a b = Eq -> cmp c a = cmp c b.
Proof.
  intros H. rewrite (cmp_antisym a c), (cmp_antisym b c).
  f_equal. now apply cmp_eq_l.
Qed.

Lemma cmp_gt_lt a b : cmp a b = Gt <-> cmp b a = Lt.
Proof.
  rewrite (cmp_antisym a b). destruct (cmp a b); simpl; split; congruence.
Qed.

Lemma cmp_le_lt_trans a b c : cmp a b <> Gt -> cmp b c = Lt -> cmp a c = Lt.
Proof.
  intros Hab Hbc. destruct (cmp a b) eqn:E.
  - now rewrite (cmp_eq_l _ _ c E).
  - eapply cmp_trans; eauto.
  - congruence.
Qed.

Lemma cmp_lt_le_trans a b c : cmp a b = Lt -> cmp b c <> Gt -> cmp a c = Lt.
Proof.
  intros Hab Hbc. destruct (cmp b c) eqn:E.
  - now rewrite <- (cmp_eq_r _ _ a E).
  - eapply cmp_trans; eauto.
  - congruence.
Qed.

Lemma cmp_le_trans a b c : cmp a b <> Gt -> cmp b c <> Gt -> cmp a c <> Gt.
Proof.
  intros Hab Hbc. destruct (cmp b c) eqn:E.
  - now rewrite <- (cmp_eq_r _ _ a E).
  - rewrite (cmp_le_lt_trans a b c Hab E). discriminate.
  - congruence.
Qed.

Lemma cmp_lt_not_gt a b : cmp a b = Lt -> cmp a b <> Gt.
Proof. congruence. Qed.

Lemma cmp_lt_irrefl a : cmp a a <> Lt.
Proof. rewrite cmp_refl. discriminate. Qed.

End ComparisonLaws.

Section Properties.

Context {ucmp : Comparator}.

(** *** The internal-key comparator is a total order as well *)

Lemma icmp_antisym a b : icmp_Compare b a = CompOpp (icmp_Compare a b).
Proof.
  unfold icmp_Compare. rewrite (Compare_antisym (user_key a) (user_key b)).
  destruct (Compare (user_key a) (user_key b)); simpl; auto.
  apply Z.compare_antisym.
Qed.

Lemma icmp_trans a b c :
  icmp_Compare a b = Lt -> icmp_Compare b c = Lt -> icmp_Compare a c = Lt.
Proof.
  unfold icmp_Compare.
  destruct (Compare (user_key a) (user_key b)) eqn:Eab;
    destruct (Compare (user_key b) (user_key c)) eqn:Ebc;
    try discriminate; intros Hab Hbc.
  - rewrite (Compare_eq_l _ _ _ Eab), Ebc.
    rewrite Z.compare_lt_iff in *. lia.
  - now rewrite (Compare_eq_l _ _ _ Eab), Ebc.
  - now rewrite <- (cmp_eq_r Compare Compare_antisym Compare_eq_l _ _ _ Ebc),
      Eab.
  - now rewrite (Compare_trans _ _ _ Eab Ebc).
Qed.

Lemma icmp_eq_l a b c :
  icmp_Compare a b = Eq -> icmp_Compare a c = icmp_Compare b c.
Proof.
  unfold icmp_Compare.
  destruct (Compare (user_key a) (user_key b)) eqn:Eab; try discriminate.
  intros H. apply Z.compare_eq in H.
  rewrite (Compare_eq_l _ _ _ Eab), H. reflexivity.
Qed.

Ltac order_laws :=
  eauto using icmp_antisym, icmp_trans, icmp_eq_l,
    Compare_antisym, Compare_trans, Compare_eq_l.

Lemma icmp_refl a : icmp_Compare a a = Eq.
Proof. apply cmp_refl; order_laws. Qed.

Lemma icmp_gt_lt a b : icmp_Compare a b = Gt <-> icmp_Compare b a = Lt.
Proof. apply cmp_gt_lt; order_laws. Qed.

Lemma icmp_le_lt_trans a b c :
  icmp_Compare a b <> Gt -> icmp_Compare b c = Lt -> icmp_Compare a c = Lt.
Proof. apply cmp_le_lt_trans; order_laws. Qed.

Lemma icmp_lt_le_trans a b c :
  icmp_Compare a b = Lt -> icmp_Compare b c <> Gt -> icmp_Compare a c = Lt.
Proof. apply cmp_lt_le_trans; order_laws. Qed.

Lemma icmp_le_trans a b c :
  icmp_Compare a b <> Gt -> icmp_Compare b c <> Gt -> icmp_Compare a c <> Gt.
Proof. apply cmp_le_trans; order_laws. Qed.

Lemma ucmp_refl a : Compare a a = Eq.
Proof. apply cmp_refl; order_laws. Qed.

Lemma ucmp_gt_lt a b : Compare a b = Gt <-> Compare b a = Lt.
Proof. apply cmp_gt_lt; order_laws. Qed.

Lemma ucmp_le_lt_trans a b c :
  Compare a b <> Gt -> Compare b c = Lt -> Compare a c = Lt.
Proof. apply cmp_le_lt_trans; order_laws. Qed.

Lemma ucmp_lt_le_trans a b c :
  Compare a b = Lt -> Compare b c <> Gt -> Compare a c = Lt.
Proof. apply cmp_lt_le_trans; order_laws. Qed.

Lemma ucmp_le_trans a b c :
  Compare a b <> Gt -> Compare b c <> Gt -> Compare a c <> Gt.
Proof. apply cmp_le_trans; order_laws. Qed.

(** *** Machine integers in range *)

Lemma uint32_small z : 0 <= z < 2 ^ 32 -> uint32 z = z.
Proof. intros H. unfold uint32. now apply Z.mod_small. Qed.

Lemma uint64_small z : 0 <= z < 2 ^ 64 -> uint64 z = z.
Proof. intros H. unfold uint64. now apply Z.mod_small. Qed.

Lemma int32_small z : - 2 ^ 31 <= z < 2 ^ 31 -> int32 z = z.
Proof. intros H. unfold int32. rewrite Z.mod_small; lia. Qed.

Lemma int64_small z : - 2 ^ 63 <= z < 2 ^ 63 -> int64 z = z.
Proof. intros H. unfold int64. rewrite Z.mod_small; lia. Qed.

(** *** Well-formed files, sorted and disjoint levels *)

(** The bounds of a table are those of its entries: the smallest key of
    a file is not above its largest key. *)
Definition wf_file (f : FileMetaData) : Prop :=
  icmp_Compare (smallest f) (largest f) <> Gt.

Definition smallest_le (f g : FileMetaData) : Prop :=
  icmp_Compare (smallest f) (smallest g) <> Gt.

Definition smallest_lt (f g : FileMetaData) : Prop :=
  icmp_Compare (smallest f) (smallest g) = Lt.

(** The key ranges of two files are disjoint: one ends before the
    other starts. *)
Definition ranges_disjoint (f g : FileMetaData) : Prop :=
  icmp_Compare (largest f) (smallest g) = Lt
  \/ icmp_Compare (largest g) (smallest f) = Lt.

(** [f] ends before [g] starts. *)
Definition ends_before (f g : FileMetaData) : Prop :=
  icmp_Compare (largest f) (smallest g) = Lt.

Definition largest_lt (f g : FileMetaData) : Prop :=
  icmp_Compare (largest f) (largest g) = Lt.

Lemma StronglySorted_nth_error {A} (R : A -> A -> Prop) (l : list A) :
  StronglySorted R l ->
  forall i j a b, (i < j)%nat ->
    nth_error l i = Some a -> nth_error l j = Some b -> R a b.
Proof.
  induction 1 as [|x l Hs IH Hx]; intros i j a b Hij Ha Hb.
  - destruct i; discriminate.
  - destruct j as [|j]; [lia|]. simpl in Hb.
    destruct i as [|i]; simpl in Ha.
    + injection Ha as <-. rewrite Forall_forall in Hx.
      apply Hx. eapply nth_error_In; eauto.
    + apply (IH i j); auto. lia.
Qed.

Lemma smallest_le_trans f g h :
  smallest_le f g -> smallest_le g h -> smallest_le f h.
Proof. unfold smallest_le. apply icmp_le_trans. Qed.

(** In a list of well-formed files that is sorted by smallest key and
    pairwise disjoint, the largest keys increase strictly. *)
Lemma sorted_disjoint_largest_lt (files : list FileMetaData) :
  Forall wf_file files ->
  Sorted smallest_le files ->
  ForallOrdPairs ranges_disjoint files ->
  StronglySorted largest_lt files.
Proof.
  intros Hwf Hs Hd.
  apply Sorted_StronglySorted in Hs;
    [|intros f g h; apply smallest_le_trans].
  induction files as [|f files IH]; [constructor|].
  inversion Hwf as [|? ? Hf Hwf']; subst.
  inversion Hs as [|? ? Hs' Hfs]; subst.
  inversion Hd as [|? ? Hfd Hd']; subst.
  constructor; [now apply IH|].
  rewrite Forall_forall in *. intros g Hg.
  unfold largest_lt. specialize (Hwf' g Hg). specialize (Hfs g Hg).
  destruct (Hfd g Hg) as [H|H].
  - eapply icmp_lt_le_trans; eauto.
  - exfalso. unfold smallest_le, wf_file in *.
    assert (icmp_Compare (smallest g) (smallest f) = Lt) as Hc
      by (eapply icmp_le_lt_trans; eauto).
    apply icmp_gt_lt in Hc. contradiction.
Qed.

(** *** FindFile *)

Section FindFile.

Variable files : list FileMetaData.
Variable key : InternalKey.
Hypothesis Hmono : StronglySorted largest_lt files.
Hypothesis Hlen : Z.of_nat (length files) < 2 ^ 31.

Let below (r : Z) : Prop :=
  forall j f, Z.of_nat j < r -> nth_error files j = Some f ->
    icmp_Compare (largest f) key = Lt.

Let from (r : Z) : Prop :=
  forall j f, r <= Z.of_nat j -> nth_error files j = Some f ->
    icmp_Compare (largest f) key <> Lt.

Lemma FindFile_loop_correct fuel :
  forall left right,
    0 <= left <= right -> right <= Z.of_nat (length files) ->
    right - left < Z.of_nat fuel ->
    below left -> from right ->
    exists r, FindFile_loop fuel files key left right = Some r
              /\ left <= r <= right /\ below r /\ from r.
Proof.
  induction fuel as [|fuel IH]; intros left right Hlr Hr Hfuel Hb Hf;
    [lia|].
  simpl. destruct (left <? right) eqn:E.
  - apply Z.ltb_lt in E.
    change (2 ^ 31) with 2147483648 in Hlen.
    assert (uint32 (left + right) = left + right) as Hsum
      by (apply uint32_small; change (2 ^ 32) with 4294967296; lia).
    rewrite Hsum.
    assert (left <= (left + right) / 2 < right) as Hmid
      by (split; [apply Z.div_le_lower_bound|apply Z.div_lt_upper_bound];
          lia).
    set (mid := (left + right) / 2) in *.
    destruct (nth_error files (Z.to_nat mid)) as [f|] eqn:Ef.
    2:{ apply nth_error_None in Ef. lia. }
    destruct (icmp_Compare (largest f) key) eqn:Ec.
    + destruct (IH left mid) as (r & Hr1 & Hr2 & Hr3 & Hr4);
        try lia; auto.
      { intros j g Hj Hg. destruct (Nat.eq_dec j (Z.to_nat mid)) as [->|Hne].
        - congruence.
        - intros Hlt.
          assert (largest_lt f g) as Hfg.
          { eapply (StronglySorted_nth_error _ _ Hmono (Z.to_nat mid) j);
              eauto. lia. }
          unfold largest_lt in Hfg.
          rewrite (icmp_trans _ _ _ Hfg Hlt) in Ec. discriminate. }
      exists r. repeat split; auto; lia.
    + rewrite uint32_small by (change (2 ^ 32) with 4294967296; lia).
      destruct (IH (mid + 1) right) as (r & Hr1 & Hr2 & Hr3 & Hr4);
        try lia; auto.
      { intros j g Hj Hg. destruct (Nat.eq_dec j (Z.to_nat mid)) as [->|Hne].
        - congruence.
        - assert (largest_lt g f) as Hfg.
          { eapply (StronglySorted_nth_error _ _ Hmono j (Z.to_nat mid));
              eauto. lia. }
          eapply icmp_trans; eauto. }
      exists r. repeat split; auto; lia.
    + destruct (IH left mid) as (r & Hr1 & Hr2 & Hr3 & Hr4);
        try lia; auto.
      { intros j g Hj Hg. destruct (Nat.eq_dec j (Z.to_nat mid)) as [->|Hne].
        - congruence.
        - intros Hlt.
          assert (largest_lt f g) as Hfg.
          { eapply (StronglySorted_nth_error _ _ Hmono (Z.to_nat mid) j);
              eauto. lia. }
          unfold largest_lt in Hfg.
          rewrite (icmp_trans _ _ _ Hfg Hlt) in Ec. discriminate. }
      exists r. repeat split; auto; lia.
  - apply Z.ltb_ge in E. assert (left = right) as -> by lia.
    exists right. repeat split; auto; lia.
Qed.

Lemma FindFile_correct :
  exists i : nat,
    FindFile files key = Some (Z.of_nat i)
    /\ (i <= length files)%nat
    /\ (forall j f, (j < i)%nat -> nth_error files j = Some f ->
          icmp_Compare (largest f) key = Lt)
    /\ (forall f, nth_error files i = Some f ->
          icmp_Compare (largest f) key <> Lt).
Proof.
  unfold FindFile.
  change (2 ^ 31) with 2147483648 in Hlen.
  rewrite uint32_small by (change (2 ^ 32) with 4294967296; lia).
  destruct (FindFile_loop_correct (S (length files)) 0
              (Z.of_nat (length files)))
    as (r & Hr & Hb & Hbelow & Hfrom); try lia.
  - intros j f Hj. lia.
  - intros j f Hj Hf.
    assert (nth_error files j = None) by (apply nth_error_None; lia).
    congruence.
  - exists (Z.to_nat r). rewrite Hr. simpl.
    rewrite int32_small by (change (2 ^ 31) with 2147483648; lia).
    rewrite Z2Nat.id by lia.
    split; [reflexivity|]. split; [lia|]. split.
    + intros j f Hj. apply Hbelow. lia.
    + intros f. apply Hfrom. lia.
Qed.

End FindFile.


(** Without any assumption on the order of the files, the search of a
    vector of fewer than 2^31 files returns an index between 0 and the
    number of files. *)
Lemma FindFile_loop_total (files : list FileMetaData) (key : InternalKey)
    (fuel : nat) :
  Z.of_nat (length files) < 2 ^ 31 ->
  forall left right,
    0 <= left <= right -> right <= Z.of_nat (length files) ->
    right - left < Z.of_nat fuel ->
    exists r, FindFile_loop fuel files key left right = Some r
              /\ left <= r <= right.
Proof.
  intros Hlen. change (2 ^ 31) with 2147483648 in Hlen.
  induction fuel as [|fuel IH]; intros left right Hlr Hr Hfuel; [lia|].
  simpl. destruct (left <? right) eqn:E.
  - apply Z.ltb_lt in E.
    rewrite (uint32_small (left + right))
      by (change (2 ^ 32) with 4294967296; lia).
    assert (left <= (left + right) / 2 < right) as Hmid
      by (split; [apply Z.div_le_lower_bound|apply Z.div_lt_upper_bound];
          lia).
    set (mid := (left + right) / 2) in *.
    destruct (nth_error files (Z.to_nat mid)) as [f|] eqn:Ef.
    2:{ apply nth_error_None in Ef. lia. }
    rewrite uint32_small by (change (2 ^ 32) with 4294967296; lia).
    destruct (icmp_Compare (largest f) key).
    + destruct (IH left mid) as (r & Hr1 & Hr2); try lia.
      exists r; split; auto; lia.
    + destruct (IH (mid + 1) right) as (r & Hr1 & Hr2); try lia.
      exists r; split; auto; lia.
    + destruct (IH left mid) as (r & Hr1 & Hr2); try lia.
      exists r; split; auto; lia.
  - exists right. split; auto; lia.
Qed.

Lemma FindFile_total (files : list FileMetaData) (key : InternalKey) :
  Z.of_nat (length files) < 2 ^ 31 ->
  exists r, FindFile files key = Some r
            /\ 0 <= r <= Z.of_nat (length files).
Proof.
  intros Hlen. unfold FindFile.
  pose proof Hlen as Hlen'. change (2 ^ 31) with 2147483648 in Hlen'.
  rewrite uint32_small by (change (2 ^ 32) with 4294967296; lia).
  destruct (FindFile_loop_total files key (S (length files)) Hlen 0
              (Z.of_nat (length files))) as (r & Hr & Hb); try lia.
  exists r. rewrite Hr. simpl.
  rewrite int32_small by (change (2 ^ 31) with 2147483648; lia).
  split; auto.
Qed.

(** C3.  On a list of files that is sorted by smallest key and pairwise
    disjoint, [FindFile files key] returns the smallest index [i] whose
    file has [largest >= key], and the length of the list when there is no
    such file: every file before [i] has its largest key below [key], and
    the file at [i], if there is one, does not.  The files are tables with
    [smallest <= largest], and the vector has fewer than 2^31 elements, so
    that the 32-bit index arithmetic does not wrap. *)
Theorem FindFile_smallest_index (files : list FileMetaData)
    (key : InternalKey) :
  Z.of_nat (length files) < 2 ^ 31 ->
  Forall wf_file files ->
  Sorted smallest_le files ->
  ForallOrdPairs ranges_disjoint files ->
  exists i : nat,
    FindFile files key = Some (Z.of_nat i)
    /\ (i <= length files)%nat
    /\ (forall j f, (j < i)%nat -> nth_error files j = Some f ->
          icmp_Compare (largest f) key = Lt)
    /\ (forall f, nth_error files i = Some f ->
          icmp_Compare (largest f) key <> Lt).
Proof.
  intros Hlen Hwf Hs Hd.
  apply FindFile_correct; auto.
  now apply sorted_disjoint_largest_lt.
Qed.

(** *** GetOverlappingInputs *)

Definition file_start (f : FileMetaData) : Slice := user_key (smallest f).
Definition file_limit (f : FileMetaData) : Slice := user_key (largest f).

(** The user-key ranges of two files overlap: neither file ends before
    the other starts. *)
Definition files_overlap (f g : FileMetaData) : Prop :=
  Compare (file_limit f) (file_start g) <> Lt
  /\ Compare (file_limit g) (file_start f) <> Lt.

Section Window.

(** Whether the range is bounded below and above. *)
Variables hb he : bool.

(** [f] overlaps the window [[ub, ue]]. *)
Definition overlaps_window (ub ue : Slice) (f : FileMetaData) : bool :=
  negb (hb && is_lt (Compare (file_limit f) ub))
  && negb (he && is_gt (Compare (file_start f) ue)).

(** [f] lies within the window [[ub, ue]]. *)
Definition within_window (ub ue : Slice) (f : FileMetaData) : bool :=
  negb (hb && is_lt (Compare (file_start f) ub))
  && negb (he && is_gt (Compare (file_limit f) ue)).

(** The files that could still widen the window. *)
Definition window_slack (files : list FileMetaData) (ub ue : Slice) : nat :=
  (length (filter (fun g => hb && is_lt (Compare (file_start g) ub)) files)
   + length (filter (fun g => he && is_gt (Compare (file_limit g) ue)) files)
  )%nat.

End Window.

Lemma filter_length_mono {A} (p q : A -> bool) (l : list A) :
  (forall x, p x = true -> q x = true) ->
  (length (filter p l) <= length (filter q l))%nat.
Proof.
  intros H. induction l as [|x l IH]; simpl; [lia|].
  destruct (p x) eqn:Ep.
  - rewrite (H _ Ep). simpl. lia.
  - destruct (q x); simpl; lia.
Qed.

Lemma filter_length_lt {A} (p q : A -> bool) (l : list A) (a : A) :
  (forall x, p x = true -> q x = true) ->
  In a l -> p a = false -> q a = true ->
  (length (filter p l) < length (filter q l))%nat.
Proof.
  intros H. induction l as [|x l IH]; simpl; intros Hin Hp Hq; [tauto|].
  destruct Hin as [->|Hin].
  - rewrite Hp, Hq. simpl.
    pose proof (filter_length_mono p q l H). lia.
  - specialize (IH Hin Hp Hq). destruct (p x) eqn:Ep.
    + rewrite (H _ Ep). simpl. lia.
    + destruct (q x); simpl; lia.
Qed.

Lemma firstn_nth_error_snoc {A} (l : list A) (i : nat) (a : A) :
  nth_error l i = Some a -> firstn (S i) l = firstn i l ++ [a].
Proof.
  revert i. induction l as [|x l IH]; intros [|i] H; try discriminate.
  - injection H as <-. reflexivity.
  - simpl in H. change (firstn (S (S i)) (x :: l)) with (x :: firstn (S i) l).
    rewrite (IH _ H). reflexivity.
Qed.

Lemma is_lt_true c : is_lt c = true <-> c = Lt.
Proof. destruct c; simpl; split; congruence. Qed.

Lemma is_gt_true c : is_gt c = true <-> c = Gt.
Proof. destruct c; simpl; split; congruence. Qed.

Lemma is_lt_false c : is_lt c = false <-> c <> Lt.
Proof. destruct c; simpl; split; congruence. Qed.

Lemma is_gt_false c : is_gt c = false <-> c <> Gt.
Proof. destruct c; simpl; split; congruence. Qed.

Lemma ucmp_gt_trans a b c :
  Compare a b = Gt -> Compare b c = Gt -> Compare a c = Gt.
Proof.
  rewrite !ucmp_gt_lt. intros H1 H2. eapply Compare_trans; eauto.
Qed.

Section Scan.

Variable files : list FileMetaData.
Variables begin end_ : option InternalKey.

Let hb := isSome begin.
Let he := isSome end_.
Let n := length files.

(** Above level 0 the scan is a single pass: a filter. *)
Lemma GetOverlappingInputs_loop_filter (level : nat) (ub ue : Slice) :
  level <> O ->
  forall fuel i inputs,
    (n - i < fuel)%nat ->
    GetOverlappingInputs_loop fuel files level begin end_ i ub ue inputs
    = Some (inputs ++ filter (overlaps_window hb he ub ue) (skipn i files)).
Proof.
  intros Hlevel. apply Nat.eqb_neq in Hlevel.
  induction fuel as [|fuel IH]; intros i inputs Hfuel; [lia|].
  simpl. destruct (nth_error files i) as [f|] eqn:Ef.
  - assert (i < n)%nat as Hi by (apply nth_error_Some; congruence).
    assert (skipn i files = f :: skipn (S i) files) as Hskip.
    { clear - Ef. revert i Ef.
      induction files as [|x l IHl]; intros [|i] E; try discriminate.
      - injection E as <-. reflexivity.
      - simpl in E. simpl. now apply IHl. }
    rewrite Hskip. simpl. unfold overlaps_window at 1.
    fold hb he. unfold file_limit, file_start.
    destruct (hb && is_lt (Compare (user_key (largest f)) ub)); simpl.
    { apply IH. lia. }
    destruct (he && is_gt (Compare (user_key (smallest f)) ue)); simpl.
    { apply IH. lia. }
    rewrite Hlevel. rewrite IH by lia. now rewrite <- app_assoc.
  - apply nth_error_None in Ef. rewrite skipn_all2 by exact Ef.
    simpl. now rewrite app_nil_r.
Qed.

(** At level 0 the scan ends, whatever the files and the range, with
    the files overlapping a window that no returned file sticks out of,
    and that contains the window it started from. *)
Lemma GetOverlappingInputs_loop_level0 :
  forall fuel i ub ue inputs,
    (i <= n)%nat ->
    (window_slack hb he files ub ue * (n + 1) + (n - i) + 1 <= fuel)%nat ->
    inputs = filter (overlaps_window hb he ub ue) (firstn i files) ->
    (forall f, In f inputs -> within_window hb he ub ue f = true) ->
    exists ub' ue',
      GetOverlappingInputs_loop fuel files O begin end_ i ub ue inputs
      = Some (filter (overlaps_window hb he ub' ue') files)
      /\ (forall f, In f files -> overlaps_window hb he ub' ue' f = true ->
            within_window hb he ub' ue' f = true)
      /\ (hb = true -> Compare ub' ub <> Gt)
      /\ (he = true -> Compare ue ue' <> Gt).
Proof.
  induction fuel as [|fuel IH]; intros i ub ue inputs Hi Hfuel Hin Hwithin;
    [lia|].
  simpl. destruct (nth_error files i) as [f|] eqn:Ef.
  - assert (i < n)%nat as Hlt by (apply nth_error_Some; congruence).
    assert (In f files) as Hf by (eapply nth_error_In; eauto).
    pose proof (firstn_nth_error_snoc _ _ _ Ef) as Hsnoc.
    fold hb he. fold (file_limit f) (file_start f).
    destruct (hb && is_lt (Compare (file_limit f) ub)) eqn:Eb.
    { apply IH; auto; try lia.
      rewrite Hsnoc, filter_app. simpl. unfold overlaps_window at 2.
      rewrite Eb. simpl. now rewrite app_nil_r. }
    destruct (he && is_gt (Compare (file_start f) ue)) eqn:Ee.
    { apply IH; auto; try lia.
      rewrite Hsnoc, filter_app. simpl. unfold overlaps_window at 2.
      rewrite Eb, Ee. simpl. now rewrite app_nil_r. }
    destruct (hb && is_lt (Compare (file_start f) ub)) eqn:Eb'.
    { (* the file starts before the window: restart *)
      apply andb_prop in Eb' as [Hhb Hlt']. apply is_lt_true in Hlt'.
      assert (window_slack hb he files (file_start f) ue * (n + 1)
              + (n - 0) + 1 <= fuel)%nat as Hfuel'.
      { assert (window_slack hb he files (file_start f) ue
                < window_slack hb he files ub ue)%nat as Hslack.
        { unfold window_slack.
          assert (length (filter (fun g => hb && is_lt
                    (Compare (file_start g) (file_start f))) files)
                  < length (filter (fun g => hb && is_lt
                    (Compare (file_start g) ub)) files))%nat; [|lia].
          apply (filter_length_lt _ _ _ f); auto.
          - intros g Hg. apply andb_prop in Hg as [-> Hg].
            apply is_lt_true in Hg. simpl. apply is_lt_true.
            eapply Compare_trans; eauto.
          - rewrite ucmp_refl. now rewrite andb_false_r.
          - rewrite Hhb, Hlt'. reflexivity. }
        assert ((window_slack hb he files (file_start f) ue + 1) * (n + 1)
                <= window_slack hb he files ub ue * (n + 1))%nat
          by (apply Nat.mul_le_mono_r; lia).
        lia. }
      destruct (IH O (file_start f) ue [] (Nat.le_0_l n) Hfuel' eq_refl
                  (fun g (H : In g []) => match H with end))
        as (ub' & ue' & H1 & H2 & H3 & H4).
      exists ub', ue'. repeat split; auto.
        intros Hb. apply (ucmp_le_trans _ (file_start f)); auto.
        congruence. }
    destruct (he && is_gt (Compare (file_limit f) ue)) eqn:Ee'.
    { (* the file ends after the window: restart *)
      apply andb_prop in Ee' as [Hhe Hgt']. apply is_gt_true in Hgt'.
      assert (window_slack hb he files ub (file_limit f) * (n + 1)
              + (n - 0) + 1 <= fuel)%nat as Hfuel'.
      { assert (window_slack hb he files ub (file_limit f)
                < window_slack hb he files ub ue)%nat as Hslack.
        { unfold window_slack.
          assert (length (filter (fun g => he && is_gt
                    (Compare (file_limit g) (file_limit f))) files)
                  < length (filter (fun g => he && is_gt
                    (Compare (file_limit g) ue)) files))%nat; [|lia].
          apply (filter_length_lt _ _ _ f); auto.
          - intros g Hg. apply andb_prop in Hg as [-> Hg].
            apply is_gt_true in Hg. simpl. apply is_gt_true.
            eapply ucmp_gt_trans; eauto.
          - rewrite ucmp_refl. now rewrite andb_false_r.
          - rewrite Hhe, Hgt'. reflexivity. }
        assert ((window_slack hb he files ub (file_limit f) + 1) * (n + 1)
                <= window_slack hb he files ub ue * (n + 1))%nat
          by (apply Nat.mul_le_mono_r; lia).
        lia. }
      destruct (IH O ub (file_limit f) [] (Nat.le_0_l n) Hfuel' eq_refl
                  (fun g (H : In g []) => match H with end))
        as (ub' & ue' & H1 & H2 & H3 & H4).
      exists ub', ue'. repeat split; auto.
        intros He. apply (ucmp_le_trans _ (file_limit f)); auto.
        apply ucmp_gt_lt in Hgt'. congruence. }
    apply IH; auto; try lia.
    + rewrite Hsnoc, filter_app. simpl. unfold overlaps_window at 2.
      rewrite Eb, Ee. simpl. now rewrite Hin.
    + intros g Hg. apply in_app_or in Hg as [Hg|[<-|[]]]; auto.
      unfold within_window. now rewrite Eb', Ee'.
  - apply nth_error_None in Ef. fold n in Ef.
    assert (i = n) as -> by lia.
    unfold n in Hin. rewrite firstn_all in Hin. subst inputs.
    exists ub, ue. split; [reflexivity|]. split.
    + intros f Hf Ho. apply Hwithin. apply filter_In. auto.
    + split; intros _; rewrite ucmp_refl; discriminate.
Qed.

End Scan.

(** [f] overlaps, by user keys, the range from [begin] to [end_]; an
    absent bound leaves the range open on that side. *)
Definition overlaps_range (begin end_ : option InternalKey)
    (f : FileMetaData) : bool :=
  overlaps_window (isSome begin) (isSome end_)
    (user_key_or_empty begin) (user_key_or_empty end_) f.

Lemma GetOverlappingInputs_above_level0 (v : Version) (level : nat)
    (begin end_ : option InternalKey) :
  level <> O ->
  GetOverlappingInputs v level begin end_
  = Some (filter (overlaps_range begin end_) (files_ v level)).
Proof.
  intros Hlevel. unfold GetOverlappingInputs, overlaps_range.
  rewrite GetOverlappingInputs_loop_filter; auto.
  unfold GetOverlappingInputs_fuel. nia.
Qed.

(** What the scan of level 0 returns: the files overlapping some window
    that contains the range asked for and every returned file. *)
Lemma GetOverlappingInputs_level0 (v : Version)
    (begin end_ : option InternalKey) :
  exists ub' ue',
    GetOverlappingInputs v O begin end_
    = Some (filter (overlaps_window (isSome begin) (isSome end_) ub' ue')
                   (files_ v O))
    /\ (forall f, In f (files_ v O) ->
          overlaps_window (isSome begin) (isSome end_) ub' ue' f = true ->
          within_window (isSome begin) (isSome end_) ub' ue' f = true)
    /\ (isSome begin = true -> Compare ub' (user_key_or_empty begin) <> Gt)
    /\ (isSome end_ = true -> Compare (user_key_or_empty end_) ue' <> Gt).
Proof.
  unfold GetOverlappingInputs.
  apply GetOverlappingInputs_loop_level0.
  - lia.
  - unfold GetOverlappingInputs_fuel.
    assert (window_slack (isSome begin) (isSome end_) (files_ v O)
              (user_key_or_empty begin) (user_key_or_empty end_)
            <= 2 * length (files_ v O))%nat as Hs.
    { unfold window_slack.
      pose proof (filter_length_le (fun g => isSome begin
        && is_lt (Compare (file_start g) (user_key_or_empty begin)))
        (files_ v O)).
      pose proof (filter_length_le (fun g => isSome end_
        && is_gt (Compare (file_limit g) (user_key_or_empty end_)))
        (files_ v O)).
      lia. }
    nia.
  - reflexivity.
  - intros f [].
Qed.

(** The scan returns, at every level, and only files of that level. *)
Lemma GetOverlappingInputs_total (v : Version) (level : nat)
    (begin end_ : option InternalKey) :
  exists inputs,
    GetOverlappingInputs v level begin end_ = Some inputs
    /\ incl inputs (files_ v level).
Proof.
  destruct (Nat.eq_dec level O) as [->|Hne].
  - destruct (GetOverlappingInputs_level0 v begin end_)
      as (ub' & ue' & H & _).
    eexists; split; [exact H|]. apply incl_filter.
  - rewrite GetOverlappingInputs_above_level0 by assumption.
    eexists; split; [reflexivity|]. apply incl_filter.
Qed.

Lemma ucmp_not_lt_flip a b : Compare a b <> Lt <-> Compare b a <> Gt.
Proof. rewrite ucmp_gt_lt. tauto. Qed.

(** C4.  At level 0, for every version and every range (either bound may
    be absent), [GetOverlappingInputs] terminates, and the set of files it
    returns is closed under overlap: it consists of files of level 0,
    contains every file of the level that overlaps the range asked for,
    and no file of the level outside it overlaps, by user-key range, a
    file inside it. *)
Theorem GetOverlappingInputs_level0_closed (v : Version)
    (begin end_ : option InternalKey) :
  exists inputs,
    GetOverlappingInputs v O begin end_ = Some inputs
    /\ (forall f, In f inputs -> In f (files_ v O))
    /\ (forall f, In f (files_ v O) -> overlaps_range begin end_ f = true ->
          In f inputs)
    /\ (forall f g, In f inputs -> In g (files_ v O) -> ~ In g inputs ->
          ~ files_overlap f g).
Proof.
  unfold overlaps_range.
  destruct (GetOverlappingInputs_level0 v begin end_)
    as (ub' & ue' & H & Hwithin & Hb & He).
  eexists; split; [exact H|]. split; [|split].
  - intros f Hf. apply filter_In in Hf. tauto.
  - intros f Hf Ho. apply filter_In. split; auto.
    unfold overlaps_window in *.
    apply andb_prop in Ho as [Ho1 Ho2].
    apply andb_true_intro; split.
    + destruct (isSome begin); simpl in *; auto.
      apply negb_true_iff in Ho1. apply negb_true_iff.
      apply is_lt_false in Ho1. apply is_lt_false. intros Hc.
      apply Ho1. eapply ucmp_lt_le_trans; eauto.
    + destruct (isSome end_); simpl in *; auto.
      apply negb_true_iff in Ho2. apply negb_true_iff.
      apply is_gt_false in Ho2. apply is_gt_false. intros Hc.
      apply ucmp_gt_lt in Hc. apply Ho2. apply ucmp_gt_lt.
      eapply ucmp_le_lt_trans; eauto.
  - intros f g Hf Hg Hng [Ho1 Ho2].
    apply filter_In in Hf as [Hf Hfo].
    specialize (Hwithin f Hf Hfo).
    assert (overlaps_window (isSome begin) (isSome end_) ub' ue' g = false)
      as Hgo.
    { destruct (overlaps_window (isSome begin) (isSome end_) ub' ue' g)
        eqn:E; auto.
      exfalso. apply Hng. apply filter_In. auto. }
    unfold within_window in Hwithin. unfold overlaps_window in Hgo.
    apply andb_prop in Hwithin as [Hw1 Hw2].
    apply andb_false_iff in Hgo as [Hg1|Hg2].
    + apply negb_false_iff in Hg1. apply andb_prop in Hg1 as [Hhb Hlt].
      rewrite Hhb in Hw1. simpl in Hw1.
      apply negb_true_iff in Hw1. apply is_lt_false in Hw1.
      apply is_lt_true in Hlt. apply Ho2.
      eapply ucmp_lt_le_trans; eauto. now apply ucmp_not_lt_flip.
    + apply negb_false_iff in Hg2. apply andb_prop in Hg2 as [Hhe Hgt].
      rewrite Hhe in Hw2. simpl in Hw2.
      apply negb_true_iff in Hw2. apply is_gt_false in Hw2.
      apply is_gt_true in Hgt. apply ucmp_gt_lt in Hgt. apply Ho1.
      eapply ucmp_le_lt_trans; eauto.
Qed.

(** When no file overlaps the window, the scan of any level returns
    nothing: the window is never widened. *)
Lemma GetOverlappingInputs_loop_none (files : list FileMetaData)
    (level : nat) (begin end_ : option InternalKey) (ub ue : Slice) :
  (forall f, In f files ->
     overlaps_window (isSome begin) (isSome end_) ub ue f = false) ->
  forall fuel i,
    (length files - i < fuel)%nat ->
    GetOverlappingInputs_loop fuel files level begin end_ i ub ue [] = Some [].
Proof.
  intros Hnone. induction fuel as [|fuel IH]; intros i Hfuel; [lia|].
  simpl. destruct (nth_error files i) as [f|] eqn:Ef; [|reflexivity].
  assert (i < length files)%nat by (apply nth_error_Some; congruence).
  pose proof (Hnone f (nth_error_In _ _ Ef)) as Hf.
  unfold overlaps_window, file_limit, file_start in Hf.
  destruct (isSome begin && is_lt (Compare (user_key (largest f)) ub)).
  { apply IH. lia. }
  destruct (isSome end_ && is_gt (Compare (user_key (smallest f)) ue)).
  { apply IH. lia. }
  discriminate.
Qed.

(** *** CompactRange *)

(** C10.  For every level and every range (either bound may be absent),
    [CompactRange] returns no compaction ([NULL]) when no file of that
    level in the current version overlaps the range; the version set is
    left as it was. *)
Theorem CompactRange_no_overlap_null (vset : VersionSet) (level : nat)
    (begin end_ : option InternalKey) :
  (forall f, In f (files_ (current_ vset) level) ->
     overlaps_range begin end_ f = false) ->
  CompactRange vset level begin end_ = Some (vset, None).
Proof.
  unfold overlaps_range.
  intros Hnone. unfold CompactRange, CompactRange_inputs, GetOverlappingInputs.
  rewrite GetOverlappingInputs_loop_none; auto.
  unfold GetOverlappingInputs_fuel. nia.
Qed.

(** *** Compaction::ShouldStopBefore *)

Lemma ShouldStopBefore_scan_unseen (key : InternalKey)
    (rest : list FileMetaData) :
  forall index overlapped,
    snd (ShouldStopBefore_scan key rest false index overlapped) = overlapped.
Proof.
  induction rest as [|g rest IH]; intros index overlapped; simpl; auto.
  destruct (is_gt (icmp_Compare key (largest g))); simpl; auto.
Qed.

Lemma ShouldStopBefore_first_call (c : Compaction) (key : InternalKey) :
  seen_key_ c = false -> overlapped_bytes_ c = 0 ->
  snd (ShouldStopBefore c key) = false
  /\ seen_key_ (fst (ShouldStopBefore c key)) = true.
Proof.
  intros Hseen Hov. unfold ShouldStopBefore. rewrite Hseen, Hov.
  pose proof (ShouldStopBefore_scan_unseen key
                (skipn (grandparent_index_ c) (grandparents_ c))
                (grandparent_index_ c) 0) as H.
  destruct (ShouldStopBefore_scan key _ false _ 0) as [index overlapped].
  simpl in H. subst overlapped. simpl. split; reflexivity.
Qed.

(** A compaction as the planner fills it in after constructing it: the
    input version, the edit, the inputs and the grandparents. *)
Definition planned (c : Compaction) (input_version : option Version)
    (edit : VersionEdit) (inputs0 inputs1 grandparents : list FileMetaData)
    : Compaction :=
  {| level_ := level_ c;
     max_output_file_size_ := max_output_file_size_ c;
     input_version_ := input_version;
     edit_ := edit;
     inputs_0 := inputs0;
     inputs_1 := inputs1;
     grandparents_ := grandparents;
     grandparent_index_ := grandparent_index_ c;
     seen_key_ := seen_key_ c;
     overlapped_bytes_ := overlapped_bytes_ c;
     level_ptrs_ := level_ptrs_ c |}.

(** C9.  The first call of [ShouldStopBefore] on a freshly constructed
    compaction returns false, whatever the key, the grandparents and the
    other fields the planner has filled in: the scan adds no bytes while
    [seen_key_] is false, and [overlapped_bytes_] starts at 0. *)
Theorem ShouldStopBefore_fresh_false (level : nat)
    (input_version : option Version) (edit : VersionEdit)
    (inputs0 inputs1 grandparents : list FileMetaData)
    (internal_key : InternalKey) :
  snd (ShouldStopBefore
         (planned (new_Compaction level) input_version edit
            inputs0 inputs1 grandparents)
         internal_key) = false.
Proof.
  apply ShouldStopBefore_first_call; reflexivity.
Qed.

(** *** Recover *)

Lemma set_compact_pointers_current (ps : list (nat * InternalKey)) :
  forall vset,
    current_ (fold_left (fun vs p => set_compact_pointer vs (fst p) (snd p))
                ps vset) = current_ vset.
Proof.
  induction ps as [|p ps IH]; intros vset; simpl; auto.
  now rewrite IH.
Qed.

Lemma Apply_current (vb : VersionSet * Builder) (edit : VersionEdit) :
  current_ (fst (Apply vb edit)) = current_ (fst vb).
Proof.
  destruct vb as [vset b]. simpl. apply set_compact_pointers_current.
Qed.


Section RecoverProperties.

Variable DecodeFrom : Slice -> Status * VersionEdit.

(** The edit that a record of the manifest decodes to. *)
Definition edit_of (r : LogRecord) : VersionEdit :=
  snd (DecodeFrom (record r)).

(** The record is read without a corruption report, decodes, and names
    the comparator in use if it names one. *)
Definition record_decodes (r : LogRecord) : Prop :=
  reported r = []
  /\ fst (DecodeFrom (record r)) = OK
  /\ (has_comparator_ (edit_of r) = true -> comparator_ (edit_of r) = Name).

Definition stream_decodes (file : SequentialFile) : Prop :=
  Forall record_decodes (records file) /\ reported_at_end file = [].

Lemma Recover_loop_decodes (rs : list LogRecord) :
  Forall record_decodes rs ->
  forall st,
    rs_status st = OK ->
    let st' := Recover_loop DecodeFrom rs [] st in
    rs_status st' = OK
    /\ have_next_file st'
       = existsb (fun r => has_next_file_number_ (edit_of r)) rs
         || have_next_file st
    /\ have_log_number st'
       = existsb (fun r => has_log_number_ (edit_of r)) rs
         || have_log_number st
    /\ have_last_sequence st'
       = existsb (fun r => has_last_sequence_ (edit_of r)) rs
         || have_last_sequence st
    /\ current_ (fst (rs_builder st')) = current_ (fst (rs_builder st)).
Proof.
  induction 1 as [|r rs Hr Hrs IH]; intros st Hst; simpl.
  - rewrite Hst. repeat split; reflexivity.
  - destruct Hr as (Hrep & Hdec & Hcmp).
    rewrite Hrep. simpl. rewrite Hst. simpl.
    assert (rs_status (Recover_record DecodeFrom st (record r)) = OK
            /\ rs_builder (Recover_record DecodeFrom st (record r))
               = Apply (rs_builder st) (edit_of r)
            /\ have_next_file (Recover_record DecodeFrom st (record r))
               = has_next_file_number_ (edit_of r) || have_next_file st
            /\ have_log_number (Recover_record DecodeFrom st (record r))
               = has_log_number_ (edit_of r) || have_log_number st
            /\ have_last_sequence (Recover_record DecodeFrom st (record r))
               = has_last_sequence_ (edit_of r) || have_last_sequence st)
      as (H1 & H2 & H3 & H4 & H5).
    { unfold Recover_record, edit_of in *.
      destruct (DecodeFrom (record r)) as [s edit]. simpl in *. subst s.
      simpl. destruct (has_comparator_ edit); simpl.
      - rewrite (Hcmp eq_refl), String.eqb_refl. simpl.
        repeat split; reflexivity.
      - repeat split; reflexivity. }
    destruct (IH _ H1) as (I1 & I2 & I3 & I4 & I5).
    rewrite I1, I2, I3, I4, I5, H2, H3, H4, H5, Apply_current.
    rewrite !orb_assoc.
    rewrite (orb_comm (existsb _ rs) (has_next_file_number_ _)).
    rewrite (orb_comm (existsb _ rs) (has_log_number_ _)).
    rewrite (orb_comm (existsb _ rs) (has_last_sequence_ _)).
    repeat split; reflexivity.
Qed.



End RecoverProperties.

(** *** Version::Get: seek accounting *)

(** What the locals and the statistics of [Get] hold after the probes
    made so far: nothing is charged up to the first probe, and from the
    second probe on the first probed file is charged, once. *)
Definition seek_accounting (st : GetState) : Prop :=
  match probed st with
  | [] =>
      last_file_read st = None
      /\ seek_file (stats st) = None /\ seek_file_level (stats st) = -1
      /\ charged st = []
  | [p] =>
      last_file_read st = Some (fst p) /\ last_file_read_level st = snd p
      /\ seek_file (stats st) = None /\ seek_file_level (stats st) = -1
      /\ charged st = []
  | p :: _ :: _ =>
      last_file_read st <> None
      /\ seek_file (stats st) = Some (fst p)
      /\ seek_file_level (stats st) = snd p
      /\ charged st = [p]
  end.

Definition outcome_state (r : GetState + (Status * GetState)) : GetState :=
  match r with inl st => st | inr (_, st) => st end.

Lemma Get_probe_accounting (tc : TableCache) (k : InternalKey)
    (level : nat) (f : FileMetaData) (st : GetState) :
  seek_accounting st ->
  seek_accounting (outcome_state (Get_probe tc k level f st)).
Proof.
  intros Hst. unfold Get_probe.
  set (st1 := match last_file_read st, seek_file (stats st) with
              | Some last, None => _
              | _, _ => st
              end).
  assert (seek_accounting
            {| last_file_read := Some f;
               last_file_read_level := Z.of_nat level;
               stats := stats st1;
               out_value := out_value st;
               probed := probed st1 ++ [(f, Z.of_nat level)];
               charged := charged st1 |}) as Hst2.
  { unfold seek_accounting in *. subst st1.
    destruct (probed st) as [|[p pl] [|q rest]] eqn:Ep; simpl in *.
    - destruct Hst as (H1 & H2 & H3 & H4). rewrite H1. simpl.
      rewrite ?Ep. simpl. auto.
    - destruct Hst as (H1 & H2 & H3 & H4 & H5). rewrite H1, H3. simpl.
      rewrite ?Ep, H2, H5. simpl. repeat split; auto. discriminate.
    - destruct Hst as (H1 & H2 & H3 & H4).
      destruct (last_file_read st); [|congruence].
      rewrite H2. simpl. rewrite ?Ep. simpl. repeat split; auto.
      discriminate. }
  destruct (TableCache_Get tc (number f) (file_size f) k) as [s entry].
  assert (forall sv,
            seek_accounting
              {| last_file_read := Some f;
                 last_file_read_level := Z.of_nat level;
                 stats := stats st1;
                 out_value := sv;
                 probed := probed st1 ++ [(f, Z.of_nat level)];
                 charged := charged st1 |}) as Hany
    by (intros sv; exact Hst2).
  destruct (negb (ok s)); simpl; [apply Hany|].
  match goal with
  | |- context [state ?sv] => destruct (state sv); simpl; apply Hany
  end.
Qed.

Lemma Get_files_accounting (tc : TableCache) (k : InternalKey)
    (level : nat) (files : list FileMetaData) :
  forall st,
    seek_accounting st ->
    seek_accounting (outcome_state (Get_files tc k level files st)).
Proof.
  induction files as [|f files IH]; intros st Hst; simpl; auto.
  pose proof (Get_probe_accounting tc k level f st Hst) as H.
  destruct (Get_probe tc k level f st) as [st'|[s st']]; simpl in *; auto.
Qed.

Lemma Get_candidates_total (v : Version) (k : InternalKey) (level : nat) :
  Z.of_nat (length (files_ v level)) < 2 ^ 31 ->
  exists files, Get_candidates v k level = Some files.
Proof.
  intros Hlen. unfold Get_candidates.
  destruct (Z.of_nat (length (files_ v level)) =? 0); [eauto|].
  destruct (Nat.eqb level 0); [eauto|].
  destruct (FindFile_total (files_ v level) k Hlen) as (r & Hr & Hb).
  rewrite Hr.
  change (2 ^ 31) with 2147483648 in Hlen.
  rewrite uint32_small by (change (2 ^ 32) with 4294967296; lia).
  destruct (r >=? Z.of_nat (length (files_ v level))) eqn:E; [eauto|].
  rewrite Z.geb_leb in E. apply Z.leb_gt in E.
  destruct (nth_error (files_ v level) (Z.to_nat r)) as [f|] eqn:Ef.
  - destruct (is_lt (Compare (user_key k) (user_key (smallest f)))); eauto.
  - apply nth_error_None in Ef. lia.
Qed.

Lemma Get_levels_accounting (tc : TableCache) (v : Version)
    (k : InternalKey) (levels : list nat) :
  (forall level, In level levels ->
     Z.of_nat (length (files_ v level)) < 2 ^ 31) ->
  forall st,
    seek_accounting st ->
    exists s st',
      Get_levels tc v k levels st = Some (s, st') /\ seek_accounting st'.
Proof.
  induction levels as [|level levels IH]; intros Hlen st Hst; simpl.
  - eauto.
  - destruct (Get_candidates_total v k level) as (files & Hfiles).
    { apply Hlen. now left. }
    rewrite Hfiles.
    pose proof (Get_files_accounting tc k level files st Hst) as H.
    destruct (Get_files tc k level files st) as [st'|[s st']]; simpl in H.
    + apply IH; auto. intros l Hl. apply Hlen. now right.
    + eauto.
Qed.

(** C7.  Every call of [Version::Get] on a version whose levels hold
    fewer than 2^31 files each returns, and then: if at most one file was
    probed, [stats.seek_file] is unset and nothing was stored into it; if
    two or more files were probed, [stats.seek_file] is the first file
    probed, [stats.seek_file_level] is its level, and that is the only
    value ever stored into [stats.seek_file] during the call. *)
Theorem Get_charges_first_file_once (tc : TableCache) (v : Version)
    (k : InternalKey) (value0 : string) :
  (forall level, (level < kNumLevels)%nat ->
     Z.of_nat (length (files_ v level)) < 2 ^ 31) ->
  exists s st,
    Get tc v k value0 = Some (s, st)
    /\ ((length (probed st) <= 1)%nat ->
          seek_file (stats st) = None /\ seek_file_level (stats st) = -1
          /\ charged st = [])
    /\ ((2 <= length (probed st))%nat ->
          exists p, hd_error (probed st) = Some p
                    /\ seek_file (stats st) = Some (fst p)
                    /\ seek_file_level (stats st) = snd p
                    /\ charged st = [p]).
Proof.
  intros Hlen. unfold Get.
  destruct (Get_levels_accounting tc v k (seq 0 kNumLevels)) with
    (st := Get_init value0) as (s & st & Hget & Hacc).
  - intros level Hl. apply Hlen. apply in_seq in Hl. lia.
  - unfold seek_accounting. simpl. auto.
  - exists s, st. split; [exact Hget|].
    unfold seek_accounting in Hacc.
    destruct (probed st) as [|p [|q rest]]; simpl.
    + split; [intros _; tauto|intros; lia].
    + split; [intros _; tauto|intros; lia].
    + split; [intros; lia|]. intros _. exists p. tauto.
Qed.

(** *** CompactRange: the cut of the inputs *)

(** The cumulative size of a list of files, in bytes. *)
Definition total_size (files : list FileMetaData) : Z :=
  fold_right (fun f acc => file_size f + acc) 0 files.

(** The selection of [CompactRange] as the specification words it: at
    level 0 all overlapping files are selected, and at the levels above
    the cumulative size of the selected files does not exceed
    [MaxFileSizeForLevel]. *)
Definition CompactRange_selection_as_specified (vset : VersionSet)
    (level : nat) (begin end_ : option InternalKey) : Prop :=
  forall overlapping vset' c,
    GetOverlappingInputs (current_ vset) level begin end_ = Some overlapping ->
    overlapping <> [] ->
    CompactRange vset level begin end_ = Some (vset', Some c) ->
    (level = O -> inputs_0 c = overlapping)
    /\ ((1 <= level)%nat ->
        total_size (inputs_0 c) <= MaxFileSizeForLevel level).

Lemma CompactRange_truncate_spec (limit : Z) :
  0 < limit <= 2 ^ 63 ->
  forall inputs total,
    0 <= total < limit ->
    Forall (fun f => 0 <= file_size f < 2 ^ 63) inputs ->
    inputs <> [] ->
    exists sel rest,
      CompactRange_truncate limit total inputs = sel
      /\ inputs = sel ++ rest
      /\ sel <> []
      /\ total + total_size (removelast sel) < limit
      /\ (rest <> [] -> limit <= total + total_size sel).
Proof.
  intros Hlimit. change (2 ^ 63) with 9223372036854775808 in *.
  induction inputs as [|f inputs IH]; intros total Htotal Hsizes Hne;
    [congruence|].
  inversion Hsizes as [|? ? Hf Hsizes']; subst.
  change (2 ^ 63) with 9223372036854775808 in Hf.
  simpl.
  rewrite uint64_small
    by (change (2 ^ 64) with 18446744073709551616; lia).
  destruct (total + file_size f >=? limit) eqn:E.
  - rewrite Z.geb_leb in E. apply Z.leb_le in E.
    exists [f], inputs. simpl. repeat split; try congruence; lia.
  - rewrite Z.geb_leb in E. apply Z.leb_gt in E.
    destruct inputs as [|g inputs].
    + exists [f], []. simpl. repeat split; try congruence; lia.
    + destruct (IH (total + file_size f)) as (sel & rest & H1 & H2 & H3 & H4 & H5);
        auto; try lia; try congruence.
      exists (f :: sel), rest. rewrite H1. repeat split.
      * now rewrite H2.
      * congruence.
      * destruct sel as [|x sel]; [congruence|].
        change (removelast (f :: x :: sel)) with (f :: removelast (x :: sel)).
        simpl in *. lia.
      * intros Hr. specialize (H5 Hr). simpl. lia.
Qed.

(** C2, amended.  At a level above 0, when at least one file overlaps the
    range, the inputs that [CompactRange] selects at that level (and hands
    to [SetupOtherInputs]) are a non-empty prefix of the overlapping
    files, cut behind the first file with which the cumulative size
    reaches [MaxFileSizeForLevel(level)]: the selected files but the last
    sum to less than the limit, and when a file is cut off the selected
    files sum to the limit at least.  (File sizes are below 2^63, so that
    the 64-bit running total does not wrap.) *)
Theorem CompactRange_cut_at_limit (vset : VersionSet) (level : nat)
    (begin end_ : option InternalKey) (overlapping : list FileMetaData) :
  (1 <= level)%nat ->
  GetOverlappingInputs (current_ vset) level begin end_ = Some overlapping ->
  overlapping <> [] ->
  Forall (fun f => 0 <= file_size f < 2 ^ 63) overlapping ->
  exists sel rest,
    CompactRange_inputs vset level begin end_ = Some (Some sel)
    /\ overlapping = sel ++ rest
    /\ sel <> []
    /\ total_size (removelast sel) < MaxFileSizeForLevel level
    /\ (rest <> [] -> MaxFileSizeForLevel level <= total_size sel).
Proof.
  intros _ Hov Hne Hsizes. unfold CompactRange_inputs. rewrite Hov.
  destruct overlapping as [|f fs]; [congruence|].
  change (Nat.eqb (length (f :: fs)) 0) with false. cbv iota.
  destruct (CompactRange_truncate_spec (MaxFileSizeForLevel level))
    with (inputs := f :: fs) (total := 0)
    as (sel & rest & H1 & H2 & H3 & H4 & H5); auto.
  - unfold MaxFileSizeForLevel, kTargetFileSize.
    change (2 ^ 63) with 9223372036854775808. lia.
  - unfold MaxFileSizeForLevel, kTargetFileSize. lia.
  - exists sel, rest. rewrite H1. repeat split; auto.
Qed.

(** *** SetupOtherInputs: the expansion of the inputs *)

(** The files of [level] overlapping a key range; none when there is no
    range. *)
Definition overlapping_range (v : Version) (level : nat)
    (range : option (InternalKey * InternalKey)) : list FileMetaData :=
  match range with
  | Some (s, l) =>
      match GetOverlappingInputs v level (Some s) (Some l) with
      | Some files => files
      | None => []
      end
  | None => []
  end.

Lemma overlapping_range_eq (v : Version) (level : nat) (s l : InternalKey) :
  GetOverlappingInputs v level (Some s) (Some l)
  = Some (overlapping_range v level (Some (s, l))).
Proof.
  unfold overlapping_range.
  destruct (GetOverlappingInputs_total v level (Some s) (Some l))
    as (r & Hr & _).
  now rewrite Hr.
Qed.

Lemma GetRange_Some (inputs : list FileMetaData) :
  inputs <> [] -> exists s l, GetRange inputs = Some (s, l).
Proof.
  destruct inputs as [|f rest]; [congruence|]. intros _. simpl.
  destruct (fold_left _ rest (smallest f, largest f)) as [s l]. eauto.
Qed.

Section Expansion.

Variable vset : VersionSet.
Variable c : Compaction.

(** [inputs_[1]] as first computed: the files of [level + 1] overlapping
    the range of [inputs_[0]]. *)
Definition SetupOtherInputs_inputs1 : list FileMetaData :=
  overlapping_range (current_ vset) (level_ c + 1) (GetRange (inputs_0 c)).

(** [expanded0]: the files of [level] overlapping the combined range of
    [inputs_[0]] and [inputs_[1]]. *)
Definition SetupOtherInputs_expanded0 : list FileMetaData :=
  overlapping_range (current_ vset) (level_ c)
    (GetRange2 (inputs_0 c) SetupOtherInputs_inputs1).

(** [expanded1]: the files of [level + 1] overlapping the range of
    [expanded0]. *)
Definition SetupOtherInputs_expanded1 : list FileMetaData :=
  overlapping_range (current_ vset) (level_ c + 1)
    (GetRange SetupOtherInputs_expanded0).

(** The three conditions of the specification. *)
Definition expansion_grows : Prop :=
  (length (inputs_0 c) < length SetupOtherInputs_expanded0)%nat
  /\ TotalFileSize SetupOtherInputs_expanded0
     + TotalFileSize SetupOtherInputs_inputs1
     < kExpandedCompactionByteSizeLimit
  /\ length SetupOtherInputs_expanded1 = length SetupOtherInputs_inputs1.

Definition expansion_adopted (c' : Compaction) : Prop :=
  inputs_0 c' = SetupOtherInputs_expanded0
  /\ inputs_1 c' = SetupOtherInputs_expanded1.

Definition expansion_declined (c' : Compaction) : Prop :=
  inputs_0 c' = inputs_0 c /\ inputs_1 c' = SetupOtherInputs_inputs1.

(** The expansion as the specification words it: adopted exactly when
    the three conditions hold. *)
Definition expansion_as_specified : Prop :=
  forall vset' c',
    SetupOtherInputs vset c = Some (vset', c') ->
    (expansion_grows -> expansion_adopted c')
    /\ (~ expansion_grows -> expansion_declined c').

(** C5, amended.  [SetupOtherInputs], given a compaction with inputs at
    its level, returns, and it adopts the expansion
    ([inputs_[0] := expanded0], [inputs_[1] := expanded1]) exactly when
    [inputs_[1]] is not empty, [expanded0] has more files than
    [inputs_[0]], the bytes of [expanded0] and [inputs_[1]] stay below
    [kExpandedCompactionByteSizeLimit], and [expanded1] has as many files
    as [inputs_[1]]; otherwise [inputs_[0]] stays as it was and
    [inputs_[1]] is the set first computed. *)
Theorem SetupOtherInputs_expansion :
  inputs_0 c <> [] ->
  exists vset' c',
    SetupOtherInputs vset c = Some (vset', c')
    /\ (SetupOtherInputs_inputs1 <> [] /\ expansion_grows ->
        expansion_adopted c')
    /\ (~ (SetupOtherInputs_inputs1 <> [] /\ expansion_grows) ->
        expansion_declined c').
Proof.
  intros Hne.
  destruct (GetRange_Some _ Hne) as (s0 & l0 & E0).
  assert (GetOverlappingInputs (current_ vset) (level_ c + 1)
            (Some s0) (Some l0) = Some SetupOtherInputs_inputs1) as Hi1.
  { unfold SetupOtherInputs_inputs1. rewrite E0.
    apply overlapping_range_eq. }
  destruct (GetRange_Some (inputs_0 c ++ SetupOtherInputs_inputs1))
    as (sa & la & E2).
  { destruct (inputs_0 c); simpl; congruence. }
  assert (GetOverlappingInputs (current_ vset) (level_ c)
            (Some sa) (Some la) = Some SetupOtherInputs_expanded0) as He0.
  { unfold SetupOtherInputs_expanded0, GetRange2. rewrite E2.
    apply overlapping_range_eq. }
  assert (forall inputs0' inputs1' largest' a b,
            exists vset' c',
              match
                 (if (level_ c + 2 <? kNumLevels)%nat
                  then GetOverlappingInputs (current_ vset) (level_ c + 2)
                         (Some a) (Some b)
                  else Some (grandparents_ c))
              with
              | Some grandparents =>
               Some (set_compact_pointer vset (level_ c) largest',
                     {| level_ := level_ c;
                        max_output_file_size_ := max_output_file_size_ c;
                        input_version_ := input_version_ c;
                        edit_ := SetCompactPointer (edit_ c) (level_ c) largest';
                        inputs_0 := inputs0';
                        inputs_1 := inputs1';
                        grandparents_ := grandparents;
                        grandparent_index_ := grandparent_index_ c;
                        seen_key_ := seen_key_ c;
                        overlapped_bytes_ := overlapped_bytes_ c;
                        level_ptrs_ := level_ptrs_ c |})
              | None => None
              end
              = Some (vset', c')
              /\ inputs_0 c' = inputs0' /\ inputs_1 c' = inputs1') as Hfinish.
  { intros inputs0' inputs1' largest' a b.
    destruct (level_ c + 2 <? kNumLevels)%nat.
    - rewrite overlapping_range_eq. eexists _, _. simpl. eauto.
    - eexists _, _. simpl. eauto. }
  unfold expansion_grows, expansion_adopted, expansion_declined,
    SetupOtherInputs.
  rewrite E0, Hi1. unfold GetRange2 at 1. rewrite E2.
  unfold SetupOtherInputs_expand.
  destruct (Nat.eqb (length SetupOtherInputs_inputs1) 0) eqn:En; cbn [negb].
  { (* inputs_[1] is empty: no attempt *)
    destruct (Hfinish (inputs_0 c) SetupOtherInputs_inputs1 l0 sa la)
      as (vset' & c' & H & H0 & H1).
    exists vset', c'. rewrite H. split; [reflexivity|]. split; auto.
    intros [Hn _]. apply Nat.eqb_eq in En.
    destruct SetupOtherInputs_inputs1; [congruence|discriminate]. }
  apply Nat.eqb_neq in En.
  rewrite He0.
  destruct ((length (inputs_0 c)
             <? length SetupOtherInputs_expanded0)%nat) eqn:Eg;
    cbn [andb].
  2:{ destruct (Hfinish (inputs_0 c) SetupOtherInputs_inputs1 l0 sa la)
        as (vset' & c' & H & H0 & H1).
      exists vset', c'. rewrite H. split; [reflexivity|]. split; auto.
      intros [_ [Hg _]]. apply Nat.ltb_ge in Eg. lia. }
  apply Nat.ltb_lt in Eg.
  destruct (TotalFileSize SetupOtherInputs_inputs1
            + TotalFileSize SetupOtherInputs_expanded0
            <? kExpandedCompactionByteSizeLimit) eqn:Eb.
  2:{ destruct (Hfinish (inputs_0 c) SetupOtherInputs_inputs1 l0 sa la)
        as (vset' & c' & H & H0 & H1).
      exists vset', c'. rewrite H. split; [reflexivity|]. split; auto.
      intros [_ [_ [Hb _]]]. apply Z.ltb_ge in Eb. lia. }
  apply Z.ltb_lt in Eb.
  destruct (GetRange_Some SetupOtherInputs_expanded0) as (sn & ln & E3).
  { destruct SetupOtherInputs_expanded0; simpl in *; [lia|congruence]. }
  assert (GetOverlappingInputs (current_ vset) (level_ c + 1)
            (Some sn) (Some ln) = Some SetupOtherInputs_expanded1) as He1.
  { unfold SetupOtherInputs_expanded1. rewrite E3.
    apply overlapping_range_eq. }
  rewrite E3, He1.
  destruct (Nat.eqb (length SetupOtherInputs_expanded1)
              (length SetupOtherInputs_inputs1)) eqn:E1.
  - apply Nat.eqb_eq in E1.
    destruct (GetRange_Some
                (SetupOtherInputs_expanded0 ++ SetupOtherInputs_expanded1))
      as (sb & lb & E4).
    { destruct SetupOtherInputs_expanded0; simpl in *; [lia|congruence]. }
    unfold GetRange2. rewrite E4.
    destruct (Hfinish SetupOtherInputs_expanded0 SetupOtherInputs_expanded1
                ln sb lb) as (vset' & c' & H & H0 & H1).
    exists vset', c'. rewrite H. split; [reflexivity|]. split; auto.
    intros Hnot. exfalso. apply Hnot. repeat split; auto; try lia.
    intros Hnil. rewrite Hnil in En. simpl in En. congruence.
  - apply Nat.eqb_neq in E1.
    destruct (Hfinish (inputs_0 c) SetupOtherInputs_inputs1 l0 sa la)
      as (vset' & c' & H & H0 & H1).
    exists vset', c'. rewrite H. split; [reflexivity|]. split; auto.
    intros [_ [_ [_ He]]]. congruence.
Qed.

End Expansion.

(** *** Builder: Apply and SaveTo *)

(** The invariant of a level above 0: the files are strictly ordered by
    smallest key, and every file ends before the next one starts. *)
Definition level_invariant (files : list FileMetaData) : Prop :=
  Sorted smallest_lt files /\ Sorted ends_before files.



Lemma set_files_same (v : Version) (level : nat) (fs : list FileMetaData) :
  files_ (set_files v level fs) level = fs.
Proof. simpl. now rewrite Nat.eqb_refl. Qed.

Lemma set_files_other (v : Version) (level l : nat)
    (fs : list FileMetaData) :
  l <> level -> files_ (set_files v level fs) l = files_ v l.
Proof. intros H. simpl. apply Nat.eqb_neq in H. now rewrite H. Qed.

Lemma MaybeAddFile_files (b : Builder) (v v' : Version) (level : nat)
    (f : FileMetaData) :
  MaybeAddFile b v level f = Some v' ->
  (forall l, l <> level -> files_ v' l = files_ v l)
  /\ (forall g, In g (files_ v' level) -> In g (files_ v level) \/ g = f).
Proof.
  unfold MaybeAddFile.
  destruct (ZSet.mem (number f) (deleted_files (levels_ b level))).
  - intros H. injection H as <-. auto.
  - destruct (_ && _); [discriminate|].
    intros H. injection H as <-. split.
    + intros l Hl. now apply set_files_other.
    + intros g. rewrite set_files_same. intros Hg.
      apply in_app_or in Hg as [Hg|[<-|[]]]; auto.
Qed.

Lemma MaybeAddFiles_files (b : Builder) (level : nat)
    (fs : list FileMetaData) :
  forall v v',
    MaybeAddFiles b v level fs = Some v' ->
    (forall l, l <> level -> files_ v' l = files_ v l)
    /\ (forall g, In g (files_ v' level) -> In g (files_ v level) \/ In g fs).
Proof.
  induction fs as [|f fs IH]; intros v v' H; simpl in H.
  - injection H as <-. auto.
  - destruct (MaybeAddFile b v level f) as [v1|] eqn:E; [|discriminate].
    destruct (MaybeAddFile_files _ _ _ _ _ E) as [H1 H2].
    destruct (IH _ _ H) as [H3 H4]. split.
    + intros l Hl. rewrite H3, H1; auto.
    + intros g Hg. destruct (H4 g Hg) as [Hg'|Hg']; [|simpl; auto].
      destruct (H2 g Hg'); simpl; auto.
Qed.

Lemma upper_bound_parts (cmp : FileMetaData -> FileMetaData -> bool)
    (value : FileMetaData) (range : list FileMetaData) :
  range = fst (upper_bound cmp value range)
          ++ snd (upper_bound cmp value range).
Proof.
  induction range as [|g range IH]; simpl; auto.
  destruct (cmp value g); simpl; auto.
  destruct (upper_bound cmp value range) as [before after]. simpl in *.
  now rewrite <- IH.
Qed.

Lemma SaveTo_added_files (b : Builder) (level : nat)
    (added : list FileMetaData) :
  forall base_rest v base_rest' v',
    SaveTo_added b level added base_rest v = Some (base_rest', v') ->
    (forall l, l <> level -> files_ v' l = files_ v l)
    /\ (forall g, In g (files_ v' level) ->
          In g (files_ v level) \/ In g added \/ In g base_rest)
    /\ (forall g, In g base_rest' -> In g base_rest).
Proof.
  induction added as [|a added IH]; intros base_rest v base_rest' v' H;
    simpl in H.
  - injection H as <- <-. auto.
  - pose proof (upper_bound_parts BySmallestKey a base_rest) as Hparts.
    destruct (upper_bound BySmallestKey a base_rest) as [smaller rest].
    simpl in Hparts.
    destruct (MaybeAddFiles b v level smaller) as [v1|] eqn:E1;
      [|discriminate].
    destruct (MaybeAddFile b v1 level a) as [v2|] eqn:E2; [|discriminate].
    destruct (MaybeAddFiles_files _ _ _ _ _ E1) as [A1 A2].
    destruct (MaybeAddFile_files _ _ _ _ _ E2) as [B1 B2].
    destruct (IH _ _ _ _ H) as (C1 & C2 & C3).
    assert (forall g, In g smaller -> In g base_rest) as Hs
      by (intros g Hg; rewrite Hparts; apply in_or_app; auto).
    assert (forall g, In g rest -> In g base_rest) as Hr
      by (intros g Hg; rewrite Hparts; apply in_or_app; auto).
    split; [|split].
    + intros l Hl. rewrite C1, B1, A1; auto.
    + intros g Hg. destruct (C2 g Hg) as [Hg'|[Hg'|Hg']].
      * destruct (B2 g Hg') as [Hg''| ->]; [|simpl; auto].
        destruct (A2 g Hg''); auto.
      * simpl; auto.
      * auto.
    + auto.
Qed.

Lemma SaveTo_level_files (b : Builder) (v v' : Version) (level : nat) :
  SaveTo_level b v level = Some v' ->
  (forall l, l <> level -> files_ v' l = files_ v l)
  /\ (forall g, In g (files_ v' level) ->
        In g (files_ v level)
        \/ In g (added_files (levels_ b level))
        \/ In g (files_ (base_ b) level))
  /\ (level <> O -> no_overlap_check (files_ v' level) = true).
Proof.
  unfold SaveTo_level.
  destruct (SaveTo_added b level _ _ v) as [[base_rest v1]|] eqn:E1;
    [|discriminate].
  destruct (MaybeAddFiles b v1 level base_rest) as [v2|] eqn:E2;
    [|discriminate].
  destruct (SaveTo_added_files _ _ _ _ _ _ _ E1) as (A1 & A2 & A3).
  destruct (MaybeAddFiles_files _ _ _ _ _ E2) as [B1 B2].
  destruct (negb (Nat.eqb level 0) && negb (no_overlap_check (files_ v2 level)))
    eqn:Ec; [discriminate|].
  intros H. injection H as <-. split; [|split].
  - intros l Hl. rewrite B1, A1; auto.
  - intros g Hg. destruct (B2 g Hg) as [Hg'|Hg']; auto.
  - intros Hl. apply Nat.eqb_neq in Hl. rewrite Hl in Ec. simpl in Ec.
    now apply negb_false_iff in Ec.
Qed.

Lemma SaveTo_levels_other (b : Builder) (levels : list nat) :
  forall v v' l,
    SaveTo_levels b levels v = Some v' -> ~ In l levels ->
    files_ v' l = files_ v l.
Proof.
  induction levels as [|level levels IH]; intros v v' l H Hl; simpl in H.
  - now injection H as <-.
  - destruct (SaveTo_level b v level) as [v1|] eqn:E; [|discriminate].
    destruct (SaveTo_level_files _ _ _ _ E) as (A1 & _).
    rewrite (IH _ _ _ H), A1; auto; intros Hc; apply Hl; simpl; auto.
Qed.


(** [f] is the metadata that [Apply] builds for a file that one of the
    edits adds at [level]. *)
Definition from_edits (edits : list VersionEdit) (level : nat)
    (f : FileMetaData) : Prop :=
  exists e f0,
    In e edits /\ In (level, f0) (new_files_ e)
    /\ f = Apply_new_FileMetaData f0.

Lemma FileSet_insert_In (f g : FileMetaData) (s : list FileMetaData) :
  In g (FileSet_insert f s) -> g = f \/ In g s.
Proof.
  induction s as [|h s IH]; simpl.
  - intros [<-|[]]; auto.
  - destruct (BySmallestKey f h).
    + intros [<-|H]; auto.
    + destruct (BySmallestKey h f); simpl; auto.
      intros [<-|H]; auto. destruct (IH H); auto.
Qed.

Lemma Apply_deletes_builder (ds : list (nat * Z)) :
  forall b l,
    added_files (levels_ (fold_left Apply_delete ds b) l)
    = added_files (levels_ b l)
    /\ base_ (fold_left Apply_delete ds b) = base_ b.
Proof.
  induction ds as [|[dl dn] ds IH]; intros b l; cbn [fold_left]; auto.
  destruct (IH (Apply_delete b (dl, dn)) l) as [H1 H2].
  rewrite H1, H2. simpl. destruct (Nat.eqb l dl) eqn:E; auto.
  apply Nat.eqb_eq in E. now subst.
Qed.

Lemma Apply_adds_builder (adds : list (nat * FileMetaData)) :
  forall b l,
    (forall g, In g (added_files (levels_ (fold_left Apply_add adds b) l)) ->
       In g (added_files (levels_ b l))
       \/ exists f0, In (l, f0) adds /\ g = Apply_new_FileMetaData f0)
    /\ base_ (fold_left Apply_add adds b) = base_ b.
Proof.
  induction adds as [|[al af] adds IH]; intros b l; cbn [fold_left]; auto.
  destruct (IH (Apply_add b (al, af)) l) as [H1 H2]. split; [|now rewrite H2].
  intros g Hg. destruct (H1 g Hg) as [Hg'|(f0 & Hf0 & ->)].
  - simpl in Hg'. destruct (Nat.eqb l al) eqn:E; auto.
    apply Nat.eqb_eq in E. subst al. simpl in Hg'.
    apply FileSet_insert_In in Hg' as [->|Hg']; auto.
    right. exists af. simpl. auto.
  - right. exists f0. simpl. auto.
Qed.

Lemma Apply_builder (vb : VersionSet * Builder) (e : VersionEdit) (l : nat) :
  (forall g, In g (added_files (levels_ (snd (Apply vb e)) l)) ->
     In g (added_files (levels_ (snd vb) l))
     \/ exists f0, In (l, f0) (new_files_ e) /\ g = Apply_new_FileMetaData f0)
  /\ base_ (snd (Apply vb e)) = base_ (snd vb).
Proof.
  destruct vb as [vset b]. unfold Apply. simpl.
  destruct (Apply_adds_builder (new_files_ e)
              (fold_left Apply_delete (deleted_files_ e) b) l) as [H1 H2].
  destruct (Apply_deletes_builder (deleted_files_ e) b l) as [H3 H4].
  split; [|congruence].
  intros g Hg. rewrite <- H3. auto.
Qed.

Lemma Apply_edits_builder (edits : list VersionEdit) (l : nat) :
  forall vb,
    (forall g,
       In g (added_files (levels_ (snd (fold_left Apply edits vb)) l)) ->
       In g (added_files (levels_ (snd vb) l)) \/ from_edits edits l g)
    /\ base_ (snd (fold_left Apply edits vb)) = base_ (snd vb).
Proof.
  induction edits as [|e edits IH]; intros vb; simpl; auto.
  destruct (IH (Apply vb e)) as [H1 H2].
  destruct (Apply_builder vb e l) as [H3 H4].
  split; [|congruence].
  intros g Hg. destruct (H1 g Hg) as [Hg'|(e' & f0 & He' & Hf0 & ->)].
  - destruct (H3 g Hg') as [Hg''|(f0 & Hf0 & ->)]; auto.
    right. exists e, f0. simpl. auto.
  - right. exists e', f0. simpl. auto.
Qed.


(** With no edit applied, [SaveTo] does not abort on a base version
    whose levels above 0 are disjoint and in order, and it reproduces the
    files of the base at every level. *)

Lemma Sorted_no_overlap_check (files : list FileMetaData) :
  Sorted ends_before files -> no_overlap_check files = true.
Proof.
  induction 1 as [|f files Hs IH Hhd]; [reflexivity|].
  destruct files as [|g files]; [reflexivity|].
  inversion Hhd as [|? ? Hfg]; subst. simpl.
  apply andb_true_intro. split; [now apply is_lt_true|exact IH].
Qed.

Lemma Sorted_app_last (files : list FileMetaData) (f d : FileMetaData) :
  forall rest,
    files <> [] -> Sorted ends_before (files ++ f :: rest) ->
    ends_before (last files d) f.
Proof.
  induction files as [|x files IH]; intros rest Hne Hs; [congruence|].
  destruct files as [|y files].
  - simpl in *. inversion Hs as [|? ? _ Hhd]; subst.
    now inversion Hhd.
  - change (last (x :: y :: files) d) with (last (y :: files) d).
    apply (IH rest); [discriminate|].
    simpl in Hs. now inversion Hs.
Qed.

Lemma MaybeAddFiles_push (b : Builder) (level : nat)
    (fs : list FileMetaData) :
  (forall n, ZSet.mem n (deleted_files (levels_ b level)) = false) ->
  forall v,
    (level <> O -> Sorted ends_before (files_ v level ++ fs)) ->
    exists v',
      MaybeAddFiles b v level fs = Some v'
      /\ files_ v' level = files_ v level ++ fs
      /\ (forall l, l <> level -> files_ v' l = files_ v l).
Proof.
  intros Hdel. induction fs as [|f fs IH]; intros v Hs; simpl.
  - exists v. rewrite app_nil_r. auto.
  - unfold MaybeAddFile. rewrite Hdel.
    assert (negb (Nat.eqb level 0) && negb (Nat.eqb (length (files_ v level)) 0)
            && negb (is_lt (icmp_Compare
                              (largest (last (files_ v level) f))
                              (smallest f))) = false) as Hassert.
    { destruct (Nat.eqb level 0) eqn:E0; [reflexivity|].
      destruct (files_ v level) as [|x files] eqn:Ef; [reflexivity|].
      apply Nat.eqb_neq in E0. specialize (Hs E0).
      assert (ends_before (last (x :: files) f) f) as Hl
        by (apply (Sorted_app_last _ _ _ fs); [discriminate|exact Hs]).
      unfold ends_before in Hl. rewrite Hl. reflexivity. }
    rewrite Hassert.
    destruct (IH (set_files v level (files_ v level ++ [f])))
      as (v' & H1 & H2 & H3).
    { intros Hl. rewrite set_files_same, <- app_assoc. now apply Hs. }
    exists v'. split; [exact H1|]. split.
    + rewrite H2, set_files_same, <- app_assoc. reflexivity.
    + intros l Hl. rewrite H3 by assumption. now apply set_files_other.
Qed.

Lemma SaveTo_levels_no_edits (base : Version) (levels : list nat) :
  (forall l, In l levels -> l <> O -> Sorted ends_before (files_ base l)) ->
  NoDup levels ->
  forall v,
    (forall l, In l levels -> files_ v l = []) ->
    exists v',
      SaveTo_levels (new_Builder base) levels v = Some v'
      /\ (forall l, In l levels -> files_ v' l = files_ base l)
      /\ (forall l, ~ In l levels -> files_ v' l = files_ v l).
Proof.
  intros Hbase Hnodup.
  induction Hnodup as [|level levels Hnotin Hnodup IH]; intros v Hv; simpl.
  - exists v. split; [reflexivity|]. split; [intros l []|auto].
  - unfold SaveTo_level. cbn [new_Builder levels_ added_files base_ SaveTo_added].
    destruct (MaybeAddFiles_push (new_Builder base) level (files_ base level))
      with (v := v) as (v1 & H1 & H2 & H3).
    { intros n. reflexivity. }
    { intros Hl. rewrite Hv by (simpl; auto). simpl.
      apply Hbase; simpl; auto. }
    rewrite H1. rewrite Hv in H2 by (simpl; auto). simpl in H2.
    assert (negb (Nat.eqb level 0) && negb (no_overlap_check (files_ v1 level))
            = false) as Hcheck.
    { destruct (Nat.eqb level 0) eqn:E0; [reflexivity|].
      apply Nat.eqb_neq in E0. rewrite H2.
      rewrite Sorted_no_overlap_check; [reflexivity|].
      apply Hbase; simpl; auto. }
    rewrite Hcheck.
    destruct (IH (fun l Hl => Hbase l (or_intror Hl)) v1)
      as (v' & I1 & I2 & I3).
    { intros l Hl. rewrite H3; [apply Hv; simpl; auto|].
      intros ->. contradiction. }
    exists v'. split; [exact I1|]. split.
    + intros l [<-|Hl]; [|now apply I2].
      rewrite I3 by assumption. exact H2.
    + intros l Hl. rewrite I3 by (intros Hc; apply Hl; simpl; auto).
      apply H3. intros ->. apply Hl. simpl. auto.
Qed.

Lemma SaveTo_no_edits (base : Version) :
  (forall l, (1 <= l < kNumLevels)%nat -> level_invariant (files_ base l)) ->
  exists v,
    SaveTo (new_Builder base) new_Version = Some v
    /\ (forall l, (l < kNumLevels)%nat -> files_ v l = files_ base l).
Proof.
  intros Hbase. unfold SaveTo.
  destruct (SaveTo_levels_no_edits base (seq 0 kNumLevels))
    with (v := new_Version) as (v & H1 & H2 & _).
  - intros l Hl Hne. apply in_seq in Hl. apply Hbase. lia.
  - apply seq_NoDup.
  - reflexivity.
  - exists v. split; [exact H1|].
    intros l Hl. apply H2. apply in_seq. lia.
Qed.

(** *** Doubles that are zero, positive or plus infinity *)

Section Lexicographic.

Context {A B : Type}.
Variable cmpA : A -> A -> comparison.
Variable cmpB : B -> B -> comparison.
Hypothesis A_antisym : forall a b, cmpA b a = CompOpp (cmpA a b).
Hypothesis A_trans :
  forall a b c, cmpA a b = Lt -> cmpA b c = Lt -> cmpA a c = Lt.
Hypothesis A_eq_l : forall a b c, cmpA a b = Eq -> cmpA a c = cmpA b c.
Hypothesis B_antisym : forall a b, cmpB b a = CompOpp (cmpB a b).
Hypothesis B_trans :
  forall a b c, cmpB a b = Lt -> cmpB b c = Lt -> cmpB a c = Lt.
Hypothesis B_eq_l : forall a b c, cmpB a b = Eq -> cmpB a c = cmpB b c.

Definition lex (x y : A * B) : comparison :=
  match cmpA (fst x) (fst y) with
  | Eq => cmpB (snd x) (snd y)
  | r => r
  end.

Lemma lex_antisym x y : lex y x = CompOpp (lex x y).
Proof.
  unfold lex. rewrite (A_antisym (fst x) (fst y)).
  destruct (cmpA (fst x) (fst y)); simpl; auto.
Qed.

Lemma lex_trans x y z : lex x y = Lt -> lex y z = Lt -> lex x z = Lt.
Proof.
  unfold lex.
  destruct (cmpA (fst x) (fst y)) eqn:Exy;
    destruct (cmpA (fst y) (fst z)) eqn:Eyz; try discriminate; intros H1 H2.
  - rewrite (A_eq_l _ _ _ Exy), Eyz. eauto.
  - now rewrite (A_eq_l _ _ _ Exy), Eyz.
  - now rewrite <- (cmp_eq_r cmpA A_antisym A_eq_l _ _ _ Eyz), Exy.
  - now rewrite (A_trans _ _ _ Exy Eyz).
Qed.

Lemma lex_eq_l x y z : lex x y = Eq -> lex x z = lex y z.
Proof.
  unfold lex. destruct (cmpA (fst x) (fst y)) eqn:Exy; try discriminate.
  intros H. rewrite (A_eq_l _ _ _ Exy), (B_eq_l _ _ _ H). reflexivity.
Qed.

End Lexicographic.

Lemma Z_compare_trans a b c :
  (a ?= b) = Lt -> (b ?= c) = Lt -> (a ?= c) = Lt.
Proof. rewrite !Z.compare_lt_iff. lia. Qed.

Lemma Z_compare_eq_l a b c : (a ?= b) = Eq -> (a ?= c) = (b ?= c).
Proof. intros H. apply Z.compare_eq in H. now subst. Qed.

Lemma Pos_compare_trans a b c :
  Pos.compare a b = Lt -> Pos.compare b c = Lt -> Pos.compare a c = Lt.
Proof. rewrite !Pos.compare_lt_iff. lia. Qed.

Lemma Pos_compare_eq_l a b c :
  Pos.compare a b = Eq -> Pos.compare a c = Pos.compare b c.
Proof. intros H. apply Pos.compare_eq in H. now subst. Qed.

(** Zero, a positive finite number, or plus infinity. *)
Definition nonneg_double (x : double) : bool :=
  match x with
  | S754_zero _ => true
  | S754_finite false _ _ => true
  | S754_infinity false => true
  | _ => false
  end.

(** The position of such a double in the order: its class, then its
    exponent, then its mantissa. *)
Definition double_rank (x : double) : Z * Z * positive :=
  match x with
  | S754_zero _ => (0, 0, 1%positive)
  | S754_finite _ m e => (1, e, m)
  | S754_infinity _ => (2, 0, 1%positive)
  | S754_nan => (3, 0, 1%positive)
  end.

Definition rank_compare : Z * Z * positive -> Z * Z * positive -> comparison :=
  lex (lex Z.compare Z.compare) Pos.compare.

Definition double_compare (x y : double) : comparison :=
  rank_compare (double_rank x) (double_rank y).

Ltac number_order_laws :=
  intros;
  first [ apply Z.compare_antisym
        | eapply Z_compare_trans; eassumption
        | apply Z_compare_eq_l; assumption
        | apply Pos.compare_antisym
        | eapply Pos_compare_trans; eassumption
        | apply Pos_compare_eq_l; assumption ].

Lemma lexZZ_antisym (a b : Z * Z) :
  lex Z.compare Z.compare b a = CompOpp (lex Z.compare Z.compare a b).
Proof. apply lex_antisym; number_order_laws. Qed.

Lemma lexZZ_trans (a b c : Z * Z) :
  lex Z.compare Z.compare a b = Lt -> lex Z.compare Z.compare b c = Lt ->
  lex Z.compare Z.compare a c = Lt.
Proof. apply lex_trans; number_order_laws. Qed.

Lemma lexZZ_eq_l (a b c : Z * Z) :
  lex Z.compare Z.compare a b = Eq ->
  lex Z.compare Z.compare a c = lex Z.compare Z.compare b c.
Proof. apply lex_eq_l; number_order_laws. Qed.

Ltac rank_order_laws :=
  intros;
  first [ apply lexZZ_antisym
        | eapply lexZZ_trans; eassumption
        | apply lexZZ_eq_l; assumption
        | number_order_laws ].

Lemma double_compare_antisym x y :
  double_compare y x = CompOpp (double_compare x y).
Proof. apply lex_antisym; rank_order_laws. Qed.

Lemma double_compare_trans x y z :
  double_compare x y = Lt -> double_compare y z = Lt ->
  double_compare x z = Lt.
Proof. apply lex_trans; rank_order_laws. Qed.

Lemma double_compare_eq_l x y z :
  double_compare x y = Eq -> double_compare x z = double_compare y z.
Proof. apply lex_eq_l; rank_order_laws. Qed.

Lemma SFcompare_nonneg (x y : double) :
  nonneg_double x = true -> nonneg_double y = true ->
  SFcompare x y = Some (double_compare x y).
Proof.
  unfold double_compare, rank_compare, lex.
  destruct x as [sx|[|]| |[|] mx ex], y as [sy|[|]| |[|] my ey];
    simpl; try discriminate; intros _ _; reflexivity.
Qed.

Lemma double_gt_nonneg (x y : double) :
  nonneg_double x = true -> nonneg_double y = true ->
  double_gt x y = is_lt (double_compare y x).
Proof.
  intros Hx Hy. unfold double_gt, SFltb.
  rewrite (SFcompare_nonneg y x Hy Hx).
  now destruct (double_compare y x).
Qed.

Lemma double_ge_nonneg (x y : double) :
  nonneg_double x = true -> nonneg_double y = true ->
  double_ge x y = negb (is_gt (double_compare y x)).
Proof.
  intros Hx Hy. unfold double_ge, SFleb.
  rewrite (SFcompare_nonneg y x Hy Hx).
  now destruct (double_compare y x).
Qed.

(** Every such double is above [-1]. *)
Lemma double_gt_minus_one (x : double) :
  nonneg_double x = true -> double_gt x (double_of_Z (-1)) = true.
Proof.
  destruct x as [sx|[|]| |[|] mx ex]; simpl; try discriminate; reflexivity.
Qed.

(** Rounding a mantissa that is not negative gives such a double. *)

Lemma shr_1_nonneg mrs : 0 <= shr_m mrs -> 0 <= shr_m (shr_1 mrs).
Proof.
  destruct mrs as [m r s0]. simpl.
  destruct m as [|[p|p|]|[p|p|]]; simpl; lia.
Qed.

Lemma iter_pos_shr_1_nonneg (p : positive) :
  forall mrs, 0 <= shr_m mrs -> 0 <= shr_m (iter_pos shr_1 p mrs).
Proof.
  induction p as [p IH|p IH|]; intros mrs H; simpl.
  - apply IH, IH. now apply shr_1_nonneg.
  - now apply IH, IH.
  - now apply shr_1_nonneg.
Qed.

Lemma shr_fexp_nonneg (m e : Z) (l : location) :
  0 <= m -> 0 <= shr_m (fst (shr_fexp 53 1024 m e l)).
Proof.
  intros H. unfold shr_fexp, shr.
  assert (0 <= shr_m (shr_record_of_loc m l)) as H0
    by (destruct l as [|[| |]]; simpl; lia).
  destruct (fexp 53 1024 (Zdigits2 m + e) - e); simpl; auto.
  now apply iter_pos_shr_1_nonneg.
Qed.

Lemma round_nearest_even_nonneg (m : Z) (l : location) :
  0 <= m -> 0 <= round_nearest_even m l.
Proof.
  intros H. destruct l as [|[| |]]; simpl; try lia.
  destruct (Z.even m); lia.
Qed.

Lemma binary_round_aux_nonneg (m e : Z) (l : location) :
  0 <= m -> nonneg_double (binary_round_aux 53 1024 false m e l) = true.
Proof.
  intros H. unfold binary_round_aux.
  pose proof (shr_fexp_nonneg m e l H) as H1.
  destruct (shr_fexp 53 1024 m e l) as [mrs' e']. simpl in H1.
  pose proof (shr_fexp_nonneg _ e' loc_Exact
                (round_nearest_even_nonneg _ (loc_of_shr_record mrs') H1))
    as H2.
  destruct (shr_fexp 53 1024 _ e' loc_Exact) as [mrs'' e'']. simpl in H2.
  destruct (shr_m mrs'') as [|p|p]; [reflexivity| |lia].
  destruct (e'' <=? 1024 - 53); reflexivity.
Qed.

Lemma double_of_Z_nonneg (z : Z) :
  0 <= z -> nonneg_double (double_of_Z z) = true.
Proof.
  intros H. unfold double_of_Z, binary_normalize.
  destruct z as [|p|p]; [reflexivity| |lia].
  unfold binary_round.
  destruct (shl_align p 0 _) as [mz ez].
  apply binary_round_aux_nonneg. lia.
Qed.

(** Dividing such a double by a positive finite double gives such a
    double. *)
Lemma double_div_nonneg (x : double) (my : positive) (ey : Z) :
  nonneg_double x = true ->
  nonneg_double (double_div x (S754_finite false my ey)) = true.
Proof.
  destruct x as [sx|[|]| |[|] mx ex]; simpl; try discriminate; intros _;
    try reflexivity.
  unfold SFdiv_core_binary.
  match goal with
  | |- context [Z.div_eucl ?a ?b] =>
      assert (0 <= a) as Ha;
      [|pose proof (Z_div_mod a b ltac:(lia)) as Hdiv;
        destruct (Z.div_eucl a b) as [q r]]
  end.
  - match goal with
    | |- 0 <= match ?s with _ => _ end => destruct s
    end; try lia.
    apply Z.shiftl_nonneg. lia.
  - apply binary_round_aux_nonneg. nia.
Qed.

Lemma double_ge_refl (x : double) :
  nonneg_double x = true -> double_ge x x = true.
Proof.
  intros Hx. rewrite double_ge_nonneg by assumption.
  now rewrite (cmp_refl double_compare double_compare_antisym).
Qed.

Lemma double_ge_gt_trans (a b c : double) :
  nonneg_double a = true -> nonneg_double b = true ->
  nonneg_double c = true ->
  double_ge b a = true -> double_gt c b = true -> double_gt c a = true.
Proof.
  intros Ha Hb Hc. rewrite double_ge_nonneg, !double_gt_nonneg by assumption.
  rewrite negb_true_iff, is_gt_false, !is_lt_true.
  apply (cmp_le_lt_trans double_compare
           double_compare_trans double_compare_eq_l).
Qed.

Lemma double_gt_ge (a b : double) :
  nonneg_double a = true -> nonneg_double b = true ->
  double_gt b a = true -> double_ge b a = true.
Proof.
  intros Ha Hb. rewrite double_ge_nonneg, double_gt_nonneg by assumption.
  rewrite negb_true_iff, is_gt_false, is_lt_true. congruence.
Qed.

Lemma double_not_gt_ge (a b : double) :
  nonneg_double a = true -> nonneg_double b = true ->
  double_gt a b = false -> double_ge b a = true.
Proof.
  intros Ha Hb. rewrite double_ge_nonneg, double_gt_nonneg by assumption.
  rewrite negb_true_iff, is_gt_false, is_lt_false.
  intros H Hc. apply H.
  now apply (cmp_gt_lt double_compare double_compare_antisym).
Qed.

(** *** Finalize *)

Lemma TotalFileSize_from_total_size (files : list FileMetaData) :
  forall sum,
    0 <= sum ->
    Forall (fun f => 0 <= file_size f) files ->
    sum + total_size files < 2 ^ 63 ->
    TotalFileSize_from sum files = sum + total_size files.
Proof.
  change (2 ^ 63) with 9223372036854775808.
  induction files as [|f files IH]; intros sum Hsum Hsizes Htotal; simpl.
  - lia.
  - inversion Hsizes as [|? ? Hf Hsizes']; subst. simpl in Htotal.
    assert (0 <= total_size files) as Hnn.
    { clear - Hsizes'. induction Hsizes'; simpl; lia. }
    rewrite int64_small
      by (change (2 ^ 63) with 9223372036854775808; lia).
    rewrite IH; auto; lia.
Qed.

Lemma TotalFileSize_total_size (files : list FileMetaData) :
  Forall (fun f => 0 <= file_size f) files ->
  total_size files < 2 ^ 63 ->
  TotalFileSize files = total_size files.
Proof.
  intros Hsizes Htotal. unfold TotalFileSize.
  rewrite TotalFileSize_from_total_size; auto; lia.
Qed.

Lemma total_size_nonneg (files : list FileMetaData) :
  Forall (fun f => 0 <= file_size f) files -> 0 <= total_size files.
Proof. induction 1; simpl; lia. Qed.

(** The score of a level in the words of the specification: the file
    count over [kL0_CompactionTrigger] at level 0; above, the total bytes
    over 10 MiB times 10 for every level above 1. *)
Definition level_score (v : Version) (level : nat) : double :=
  if Nat.eqb level 0 then
    double_div (double_of_Z (Z.of_nat (length (files_ v 0))))
               (double_of_Z kL0_CompactionTrigger)
  else
    double_div (double_of_Z (total_size (files_ v level)))
               (double_of_Z (10 * 1048576 * 10 ^ (Z.of_nat level - 1))).

(** The file sizes of the levels that [Finalize] scores are not negative
    and sum to less than 2^63 bytes per level. *)
Definition sizes_in_range (v : Version) : Prop :=
  forall level, (level < kNumLevels - 1)%nat ->
    Forall (fun f => 0 <= file_size f) (files_ v level)
    /\ total_size (files_ v level) < 2 ^ 63.

Lemma MaxBytesForLevel_spec (level : nat) :
  (1 <= level < kNumLevels)%nat ->
  MaxBytesForLevel level
  = double_of_Z (10 * 1048576 * 10 ^ (Z.of_nat level - 1)).
Proof.
  intros H. unfold kNumLevels in H.
  do 7 (destruct level as [|level]; [try lia; vm_compute; reflexivity|]).
  lia.
Qed.

Lemma MaxBytesForLevel_finite (level : nat) :
  (1 <= level < kNumLevels)%nat ->
  exists m e, MaxBytesForLevel level = S754_finite false m e.
Proof.
  intros H. unfold kNumLevels in H.
  do 7 (destruct level as [|level];
        [try lia; vm_compute; eexists _, _; reflexivity|]).
  lia.
Qed.

Lemma Finalize_score_level_score (v : Version) (level : nat) :
  (level < kNumLevels - 1)%nat ->
  Forall (fun f => 0 <= file_size f) (files_ v level) ->
  total_size (files_ v level) < 2 ^ 63 ->
  Finalize_score v level = level_score v level.
Proof.
  intros Hlevel Hsizes Htotal. unfold Finalize_score, level_score.
  destruct (Nat.eqb level 0) eqn:E.
  - apply Nat.eqb_eq in E. now subst.
  - apply Nat.eqb_neq in E.
    rewrite TotalFileSize_total_size by assumption.
    pose proof (total_size_nonneg _ Hsizes).
    rewrite uint64_small.
    + rewrite MaxBytesForLevel_spec; auto. unfold kNumLevels in *. lia.
    + change (2 ^ 63) with 9223372036854775808 in Htotal.
      change (2 ^ 64) with 18446744073709551616. lia.
Qed.

Lemma Finalize_score_nonneg (v : Version) (level : nat) :
  (level < kNumLevels - 1)%nat ->
  nonneg_double (Finalize_score v level) = true.
Proof.
  intros Hlevel. unfold Finalize_score.
  destruct (Nat.eqb level 0) eqn:E.
  - change (double_of_Z kL0_CompactionTrigger)
      with (S754_finite false 4503599627370496 (-50)).
    apply double_div_nonneg, double_of_Z_nonneg. lia.
  - apply Nat.eqb_neq in E.
    destruct (MaxBytesForLevel_finite level) as (m & e & ->).
    { unfold kNumLevels in *. lia. }
    apply double_div_nonneg, double_of_Z_nonneg.
    unfold uint64. apply Z.mod_pos_bound. reflexivity.
Qed.

Lemma Finalize_loop_max (v : Version) (n : nat) :
  forall k bl bs,
    (forall l, (l < k + n)%nat ->
       nonneg_double (Finalize_score v l) = true) ->
    (bl < k)%nat ->
    bs = Finalize_score v bl ->
    (forall l, (l < k)%nat -> double_ge bs (Finalize_score v l) = true) ->
    (forall l, (l < bl)%nat -> double_gt bs (Finalize_score v l) = true) ->
    exists best,
      Finalize_loop v (seq k n) (Z.of_nat bl) bs
      = (Z.of_nat best, Finalize_score v best)
      /\ (best < k + n)%nat
      /\ (forall l, (l < k + n)%nat ->
            double_ge (Finalize_score v best) (Finalize_score v l) = true)
      /\ (forall l, (l < best)%nat ->
            double_gt (Finalize_score v best) (Finalize_score v l) = true).
Proof.
  induction n as [|n IH]; intros k bl bs Hnn Hbl Hbs Hge Hgt; simpl.
  - exists bl. subst bs. repeat split; auto; try lia.
    intros l Hl. apply Hge. lia.
  - assert (nonneg_double bs = true) as Hbsnn
      by (subst bs; apply Hnn; lia).
    assert (nonneg_double (Finalize_score v k) = true) as Hknn
      by (apply Hnn; lia).
    destruct (double_gt (Finalize_score v k) bs) eqn:E.
    + destruct (IH (S k) k (Finalize_score v k))
        as (best & H1 & H2 & H3 & H4); auto; try lia.
      * intros l Hl. apply Hnn. lia.
      * intros l Hl. destruct (Nat.eq_dec l k) as [->|Hne].
        -- now apply double_ge_refl.
        -- assert (nonneg_double (Finalize_score v l) = true) as Hlnn
             by (apply Hnn; lia).
           apply double_gt_ge; auto.
           apply (double_ge_gt_trans _ bs); auto.
           all: try (apply Hge; lia).
      * intros l Hl.
        assert (nonneg_double (Finalize_score v l) = true) as Hlnn
          by (apply Hnn; lia).
        apply (double_ge_gt_trans _ bs); auto.
        all: try (apply Hge; lia).
      * exists best. repeat split; auto. lia.
        intros l Hl. apply H3. lia.
    + destruct (IH (S k) bl bs) as (best & H1 & H2 & H3 & H4);
        auto; try lia.
      * intros l Hl. apply Hnn. lia.
      * intros l Hl. destruct (Nat.eq_dec l k) as [->|Hne].
        -- now apply double_not_gt_ge.
        -- apply Hge. lia.
      * exists best. repeat split; auto. lia.
        intros l Hl. apply H3. lia.
Qed.

Lemma Finalize_loop_all_levels (v : Version) :
  exists best,
    Finalize_loop v (seq 0 (kNumLevels - 1)) (-1) (double_of_Z (-1))
    = (Z.of_nat best, Finalize_score v best)
    /\ (best < kNumLevels - 1)%nat
    /\ (forall l, (l < kNumLevels - 1)%nat ->
          double_ge (Finalize_score v best) (Finalize_score v l) = true)
    /\ (forall l, (l < best)%nat ->
          double_gt (Finalize_score v best) (Finalize_score v l) = true).
Proof.
  change (seq 0 (kNumLevels - 1)) with (O :: seq 1 5).
  cbn [Finalize_loop].
  rewrite double_gt_minus_one
    by (apply Finalize_score_nonneg; unfold kNumLevels; lia).
  change (kNumLevels - 1)%nat with (1 + 5)%nat.
  apply (Finalize_loop_max v 5 1 0 (Finalize_score v 0)); auto; try lia.
  - intros l Hl. apply Finalize_score_nonneg. unfold kNumLevels. lia.
  - intros l Hl. assert (l = O) as -> by lia.
    apply double_ge_refl, Finalize_score_nonneg. unfold kNumLevels. lia.
Qed.

(** C6.  [Finalize v] sets [compaction_level_] to a level among
    0..L-2 whose score is the maximum of the scores of these levels, and
    [compaction_score_] to that score, where the score of level 0 is its
    file count divided by [kL0_CompactionTrigger] and the score of a
    level above 0 is its total bytes divided by 10 MiB times 10 per level
    above 1 (computed in double precision); every lower level has a
    strictly smaller score, so among levels that share the maximum the
    lowest is chosen.  File sizes are not negative and sum to less than
    2^63 bytes per level. *)
Theorem Finalize_picks_max_score (v : Version) :
  sizes_in_range v ->
  exists best : nat,
    compaction_level_ (Finalize v) = Z.of_nat best
    /\ (best < kNumLevels - 1)%nat
    /\ compaction_score_ (Finalize v) = level_score v best
    /\ (forall level, (level < kNumLevels - 1)%nat ->
          double_ge (level_score v best) (level_score v level) = true)
    /\ (forall level, (level < best)%nat ->
          double_gt (level_score v best) (level_score v level) = true).
Proof.
  intros Hsizes.
  assert (forall l, (l < kNumLevels - 1)%nat ->
            Finalize_score v l = level_score v l) as Hscore.
  { intros l Hl. destruct (Hsizes l Hl).
    now apply Finalize_score_level_score. }
  destruct (Finalize_loop_all_levels v) as (best & H1 & H2 & H3 & H4).
  exists best. unfold Finalize. rewrite H1. simpl.
  rewrite <- (Hscore best H2). repeat split; auto.
  - intros level Hl. rewrite <- (Hscore level Hl). auto.
  - intros level Hl. rewrite <- (Hscore level) by lia. auto.
Qed.

(** *** More on the order of keys *)

(** The order of internal keys refines the order of their user keys. *)
Lemma icmp_user_le a b :
  icmp_Compare a b <> Gt -> Compare (user_key a) (user_key b) <> Gt.
Proof. unfold icmp_Compare. destruct (Compare _ _); congruence. Qed.

Lemma icmp_user_ge a b :
  icmp_Compare a b <> Lt -> Compare (user_key a) (user_key b) <> Lt.
Proof. unfold icmp_Compare. destruct (Compare _ _); congruence. Qed.

Lemma icmp_lt_user_le a b :
  icmp_Compare a b = Lt -> Compare (user_key a) (user_key b) <> Gt.
Proof. intros H. apply icmp_user_le. congruence. Qed.

Lemma icmp_user_lt a b :
  Compare (user_key a) (user_key b) = Lt -> icmp_Compare a b = Lt.
Proof. unfold icmp_Compare. now intros ->. Qed.

Lemma icmp_user_gt a b :
  Compare (user_key a) (user_key b) = Gt -> icmp_Compare a b = Gt.
Proof. unfold icmp_Compare. now intros ->. Qed.

(** The user keys of a well-formed file are in order. *)
Lemma wf_file_user (f : FileMetaData) :
  wf_file f -> Compare (file_start f) (file_limit f) <> Gt.
Proof. apply icmp_user_le. Qed.

Lemma filter_all {A} (p : A -> bool) (l : list A) :
  (forall x, In x l -> p x = true) -> filter p l = l.
Proof.
  induction l as [|x l IH]; intros H; simpl; [reflexivity|].
  rewrite (H x) by (now left). f_equal. apply IH. intros y Hy. apply H.
  now right.
Qed.

(** *** GetOverlappingInputs: open ranges, sorted levels, level 0 *)

(** X1.  With both bounds absent, [GetOverlappingInputs] returns every
    file of the level, in the order of the level; this holds at level 0
    as well as above it. *)
Theorem GetOverlappingInputs_unbounded (v : Version) (level : nat) :
  GetOverlappingInputs v level None None = Some (files_ v level).
Proof.
  destruct (Nat.eq_dec level O) as [->|Hne].
  - destruct (GetOverlappingInputs_level0 v None None) as (ub & ue & H & _).
    rewrite H. f_equal. now apply filter_all.
  - rewrite GetOverlappingInputs_above_level0 by assumption.
    f_equal. now apply filter_all.
Qed.

(** X2.  Above level 0 the scan is a single pass that never widens the
    range: the result consists of exactly the files of the level whose
    user-key range meets the range asked for, in the order of the level. *)
Theorem GetOverlappingInputs_above_level0_exact (v : Version) (level : nat)
    (begin end_ : option InternalKey) :
  level <> O ->
  exists inputs,
    GetOverlappingInputs v level begin end_ = Some inputs
    /\ inputs = filter (overlaps_range begin end_) (files_ v level)
    /\ (forall f, In f inputs <->
          In f (files_ v level)
          /\ ~ (isSome begin = true
                /\ Compare (file_limit f) (user_key_or_empty begin) = Lt)
          /\ ~ (isSome end_ = true
                /\ Compare (file_start f) (user_key_or_empty end_) = Gt)).
Proof.
  intros Hlevel. rewrite GetOverlappingInputs_above_level0 by assumption.
  eexists; split; [reflexivity|]. split; [reflexivity|].
  intros f. rewrite filter_In. unfold overlaps_range, overlaps_window.
  rewrite andb_true_iff, !negb_true_iff, !andb_false_iff.
  rewrite is_lt_false, is_gt_false.
  destruct (isSome begin), (isSome end_); intuition congruence.
Qed.

(** A file of the level is reached from the range: it meets the range,
    or it overlaps a file that is reached. *)
Inductive reaches (begin end_ : option InternalKey)
    (files : list FileMetaData) : FileMetaData -> Prop :=
| reaches_range f :
    In f files -> overlaps_range begin end_ f = true ->
    reaches begin end_ files f
| reaches_file g f :
    reaches begin end_ files g -> In f files -> files_overlap g f ->
    reaches begin end_ files f.

Lemma GetOverlappingInputs_loop_reaches (files : list FileMetaData)
    (begin end_ : option InternalKey) :
  Forall wf_file files ->
  forall fuel i ub ue inputs r,
    GetOverlappingInputs_loop fuel files O begin end_ i ub ue inputs = Some r ->
    (forall g, In g files ->
       overlaps_window (isSome begin) (isSome end_) ub ue g = true ->
       reaches begin end_ files g) ->
    (forall g, In g inputs -> reaches begin end_ files g) ->
    forall g, In g r -> reaches begin end_ files g.
Proof.
  intros Hwf. rewrite Forall_forall in Hwf.
  induction fuel as [|fuel IH]; intros i ub ue inputs r Hrun Hwin Hin;
    [discriminate|].
  simpl in Hrun. destruct (nth_error files i) as [f|] eqn:Ef.
  2:{ injection Hrun as <-. exact Hin. }
  pose proof (nth_error_In _ _ Ef) as Hf.
  pose proof (Hwin f Hf) as Hfw.
  unfold overlaps_window, file_limit, file_start in Hfw.
  destruct (isSome begin && is_lt (Compare (user_key (largest f)) ub))
    eqn:E1.
  { eapply IH; eauto. }
  destruct (isSome end_ && is_gt (Compare (user_key (smallest f)) ue))
    eqn:E2.
  { eapply IH; eauto. }
  specialize (Hfw eq_refl).
  destruct (isSome begin && is_lt (Compare (user_key (smallest f)) ub))
    eqn:E3.
  { (* the window grows downwards to the start of [f] *)
    apply andb_prop in E3 as [Hb E3]. rewrite Hb in *. simpl in E1.
    apply is_lt_false in E1.
    eapply IH; [exact Hrun| |intros g []].
    intros g Hg Hgw.
    destruct (overlaps_window true (isSome end_) ub ue g) eqn:Eold;
      [now apply Hwin|].
    apply (reaches_file _ _ _ f g); auto.
    unfold overlaps_window in Hgw, Eold. simpl in Hgw, Eold.
    apply andb_prop in Hgw as [Hg1 Hg2]. rewrite Hg2 in Eold.
    rewrite andb_true_r in Eold.
    apply negb_true_iff, is_lt_false in Hg1.
    apply negb_false_iff, is_lt_true in Eold.
    split; [|exact Hg1].
    intros Hc. apply E1.
    pose proof (wf_file_user g (Hwf g Hg)) as Hgo.
    eapply Compare_trans; [exact Hc|].
    eapply ucmp_le_lt_trans; eauto. }
  destruct (isSome end_ && is_gt (Compare (user_key (largest f)) ue))
    eqn:E4.
  { (* the window grows upwards to the end of [f] *)
    apply andb_prop in E4 as [He E4]. rewrite He in *. simpl in E2.
    apply is_gt_false in E2.
    eapply IH; [exact Hrun| |intros g []].
    intros g Hg Hgw.
    destruct (overlaps_window (isSome begin) true ub ue g) eqn:Eold;
      [now apply Hwin|].
    apply (reaches_file _ _ _ f g); auto.
    unfold overlaps_window in Hgw, Eold. simpl in Hgw, Eold.
    apply andb_prop in Hgw as [Hg1 Hg2]. rewrite Hg1 in Eold.
    simpl in Eold.
    apply negb_true_iff, is_gt_false in Hg2.
    apply negb_false_iff, is_gt_true in Eold.
    split; [now apply ucmp_not_lt_flip|].
    intros Hc.
    pose proof (wf_file_user g (Hwf g Hg)) as Hgo.
    apply ucmp_gt_lt in Eold.
    assert (Compare (file_start g) (file_start f) = Lt) as Hlt
      by (eapply ucmp_le_lt_trans; eauto).
    assert (Compare (file_start g) ue = Lt) as Hlt2
      by (eapply ucmp_lt_le_trans; eauto).
    pose proof (Compare_trans _ _ _ Eold Hlt2) as Hrefl.
    rewrite ucmp_refl in Hrefl. discriminate. }
  eapply IH; [exact Hrun|exact Hwin|].
  intros g Hg. apply in_app_or in Hg as [Hg|[<-|[]]]; auto.
Qed.

(** X3.  At level 0 the scan returns nothing beyond the closure of the
    range under overlap: every returned file meets the range asked for or
    is linked to it by a chain of files of level 0, each overlapping the
    next by user-key range.  The files are tables with
    [smallest <= largest]. *)
Theorem GetOverlappingInputs_level0_connected (v : Version)
    (begin end_ : option InternalKey) :
  Forall wf_file (files_ v O) ->
  exists inputs,
    GetOverlappingInputs v O begin end_ = Some inputs
    /\ forall f, In f inputs -> reaches begin end_ (files_ v O) f.
Proof.
  intros Hwf.
  destruct (GetOverlappingInputs_total v O begin end_) as (inputs & H & _).
  exists inputs. split; [exact H|].
  unfold GetOverlappingInputs in H.
  eapply GetOverlappingInputs_loop_reaches; eauto.
  - intros g Hg Hgw. now apply reaches_range.
  - intros g [].
Qed.

(** *** FindFile on an arbitrary vector *)

Lemma FindFile_loop_boundary (files : list FileMetaData) (key : InternalKey)
    (fuel : nat) :
  Z.of_nat (length files) < 2 ^ 31 ->
  forall left right,
    0 <= left <= right -> right <= Z.of_nat (length files) ->
    right - left < Z.of_nat fuel ->
    (forall f, 0 < left -> nth_error files (Z.to_nat (left - 1)) = Some f ->
       icmp_Compare (largest f) key = Lt) ->
    (forall f, nth_error files (Z.to_nat right) = Some f ->
       icmp_Compare (largest f) key <> Lt) ->
    exists r, FindFile_loop fuel files key left right = Some r
              /\ left <= r <= right
              /\ (forall f, 0 < r ->
                    nth_error files (Z.to_nat (r - 1)) = Some f ->
                    icmp_Compare (largest f) key = Lt)
              /\ (forall f, nth_error files (Z.to_nat r) = Some f ->
                    icmp_Compare (largest f) key <> Lt).
Proof.
  intros Hlen. change (2 ^ 31) with 2147483648 in Hlen.
  induction fuel as [|fuel IH]; intros left right Hlr Hr Hfuel Hl Hrt; [lia|].
  simpl. destruct (left <? right) eqn:E.
  - apply Z.ltb_lt in E.
    rewrite (uint32_small (left + right))
      by (change (2 ^ 32) with 4294967296; lia).
    assert (left <= (left + right) / 2 < right) as Hmid
      by (split; [apply Z.div_le_lower_bound|apply Z.div_lt_upper_bound];
          lia).
    set (mid := (left + right) / 2) in *.
    destruct (nth_error files (Z.to_nat mid)) as [f|] eqn:Ef.
    2:{ apply nth_error_None in Ef. lia. }
    rewrite uint32_small by (change (2 ^ 32) with 4294967296; lia).
    assert (forall g, icmp_Compare (largest f) key <> Lt ->
              nth_error files (Z.to_nat mid) = Some g ->
              icmp_Compare (largest g) key <> Lt) as Hup
      by (intros g Hc Hg; congruence).
    destruct (icmp_Compare (largest f) key) eqn:Ec.
    + destruct (IH left mid) as (r & Hr1 & Hr2 & Hr3 & Hr4); try lia; auto.
      { intros g. apply Hup. discriminate. }
      exists r; repeat split; auto; lia.
    + destruct (IH (mid + 1) right) as (r & Hr1 & Hr2 & Hr3 & Hr4);
        try lia; auto.
      { intros g _. replace (mid + 1 - 1) with mid by lia. congruence. }
      exists r; repeat split; auto; lia.
    + destruct (IH left mid) as (r & Hr1 & Hr2 & Hr3 & Hr4); try lia; auto.
      { intros g. apply Hup. discriminate. }
      exists r; repeat split; auto; lia.
  - exists right. apply Z.ltb_ge in E. assert (left = right) as <- by lia.
    repeat split; auto; lia.
Qed.

Lemma FindFile_local_boundary (files : list FileMetaData) (key : InternalKey) :
  Z.of_nat (length files) < 2 ^ 31 ->
  exists i : nat,
    FindFile files key = Some (Z.of_nat i)
    /\ (i <= length files)%nat
    /\ (forall f, nth_error files i = Some f ->
          icmp_Compare (largest f) key <> Lt)
    /\ (forall j f, i = S j -> nth_error files j = Some f ->
          icmp_Compare (largest f) key = Lt).
Proof.
  intros Hlen. unfold FindFile.
  pose proof Hlen as Hlen'. change (2 ^ 31) with 2147483648 in Hlen'.
  rewrite uint32_small by (change (2 ^ 32) with 4294967296; lia).
  destruct (FindFile_loop_boundary files key (S (length files)) Hlen 0
              (Z.of_nat (length files)))
    as (r & Hr & Hb & Hbelow & Hfrom); try lia.
  - intros f Hf.
    rewrite Nat2Z.id in Hf.
    assert (nth_error files (length files) = None)
      by (apply nth_error_None; lia).
    congruence.
  - exists (Z.to_nat r). rewrite Hr. simpl.
    rewrite int32_small by (change (2 ^ 31) with 2147483648; lia).
    rewrite Z2Nat.id by lia.
    split; [reflexivity|]. split; [lia|]. split; [exact Hfrom|].
    intros j f Hj Hf. apply Hbelow; [lia|].
    replace (Z.to_nat (r - 1)) with j by lia. exact Hf.
Qed.

(** X4.  On any vector of fewer than 2^31 files, sorted or not,
    [FindFile] returns an index between 0 and the number of files; the
    file at that index, if there is one, has its largest key at or above
    the key searched for, and the file just before it, if there is one,
    has its largest key below it. *)
Theorem FindFile_boundary (files : list FileMetaData) (key : InternalKey) :
  Z.of_nat (length files) < 2 ^ 31 ->
  exists i : nat,
    FindFile files key = Some (Z.of_nat i)
    /\ (i <= length files)%nat
    /\ (forall f, nth_error files i = Some f ->
          icmp_Compare (largest f) key <> Lt)
    /\ (forall j f, i = S j -> nth_error files j = Some f ->
          icmp_Compare (largest f) key = Lt).
Proof. apply FindFile_local_boundary. Qed.

(** *** Version::Get: the files it reads *)

(** The user key [u] lies in the user-key range of [f]. *)
Definition covers (u : Slice) (f : FileMetaData) : Prop :=
  Compare u (file_start f) <> Lt /\ Compare u (file_limit f) <> Gt.

Lemma sort_insert_In (lt : FileMetaData -> FileMetaData -> bool)
    (f x : FileMetaData) (l : list FileMetaData) :
  In x (sort_insert lt f l) <-> x = f \/ In x l.
Proof.
  induction l as [|g l IH]; simpl; [intuition congruence|].
  destruct (lt g f); simpl; [rewrite IH|]; intuition congruence.
Qed.

Lemma std_sort_In (lt : FileMetaData -> FileMetaData -> bool)
    (x : FileMetaData) (l : list FileMetaData) :
  In x (std_sort lt l) <-> In x l.
Proof.
  induction l as [|f l IH]; simpl; [tauto|].
  rewrite sort_insert_In, IH. intuition congruence.
Qed.

(** The candidates of a level are files of the level whose user-key range
    contains the user key looked up. *)
Lemma Get_candidates_covering (v : Version) (k : InternalKey) (level : nat)
    (fs : list FileMetaData) :
  Z.of_nat (length (files_ v level)) < 2 ^ 31 ->
  Get_candidates v k level = Some fs ->
  forall f, In f fs -> In f (files_ v level) /\ covers (user_key k) f.
Proof.
  intros Hlen. unfold Get_candidates.
  destruct (Z.of_nat (length (files_ v level)) =? 0).
  { intros [= <-] f []. }
  destruct (Nat.eqb level 0).
  { intros [= <-] f Hf. apply std_sort_In, filter_In in Hf as [Hf Hc].
    split; [exact Hf|].
    apply andb_prop in Hc as [H1 H2].
    apply negb_true_iff in H1, H2.
    apply is_lt_false in H1. apply is_gt_false in H2. now split. }
  destruct (FindFile_local_boundary (files_ v level) k Hlen)
    as (i & Hi & Hb & Hat & _).
  rewrite Hi.
  change (2 ^ 31) with 2147483648 in Hlen.
  rewrite uint32_small by (change (2 ^ 32) with 4294967296; lia).
  destruct (Z.of_nat i >=? Z.of_nat (length (files_ v level))).
  { intros [= <-] f []. }
  rewrite Nat2Z.id.
  destruct (nth_error (files_ v level) i) as [g|] eqn:Eg; [|discriminate].
  destruct (is_lt (Compare (user_key k) (user_key (smallest g)))) eqn:Es.
  { intros [= <-] f []. }
  intros [= <-] f [<-|[]]. split; [eapply nth_error_In; eauto|].
  split; [now apply is_lt_false|].
  apply ucmp_not_lt_flip. apply icmp_user_ge. now apply Hat.
Qed.

(** The files that [Get] may read, in the order in which it reads them. *)
Definition Get_plan (v : Version) (k : InternalKey) (levels : list nat)
    : list (FileMetaData * Z) :=
  flat_map
    (fun level =>
       match Get_candidates v k level with
       | Some fs => map (fun f => (f, Z.of_nat level)) fs
       | None => []
       end)
    levels.

Lemma Get_probe_probed (tc : TableCache) (k : InternalKey) (level : nat)
    (f : FileMetaData) (st : GetState) :
  probed (outcome_state (Get_probe tc k level f st))
  = probed st ++ [(f, Z.of_nat level)].
Proof.
  unfold Get_probe.
  assert (probed
            match last_file_read st, seek_file (stats st) with
            | Some last, None =>
                {| last_file_read := last_file_read st;
                   last_file_read_level := last_file_read_level st;
                   stats := {| seek_file := Some last;
                               seek_file_level := last_file_read_level st |};
                   out_value := out_value st;
                   probed := probed st;
                   charged := charged st ++ [(last, last_file_read_level st)]
                |}
            | _, _ => st
            end = probed st) as ->
    by (destruct (last_file_read st), (seek_file (stats st)); reflexivity).
  destruct (TableCache_Get tc (number f) (file_size f) k) as [s entry].
  destruct (negb (ok s)); [reflexivity|].
  match goal with
  | |- context [state ?sv] => destruct (state sv); reflexivity
  end.
Qed.

Lemma Get_files_probed (tc : TableCache) (k : InternalKey) (level : nat)
    (files : list FileMetaData) :
  forall st,
    match Get_files tc k level files st with
    | inl st' =>
        probed st' = probed st ++ map (fun f => (f, Z.of_nat level)) files
    | inr (_, st') =>
        exists m,
          probed st'
          = probed st
            ++ firstn m (map (fun f => (f, Z.of_nat level)) files)
    end.
Proof.
  induction files as [|f files IH]; intros st; simpl.
  - now rewrite app_nil_r.
  - pose proof (Get_probe_probed tc k level f st) as Hp.
    destruct (Get_probe tc k level f st) as [st1|[s st1]]; simpl in Hp.
    + specialize (IH st1).
      destruct (Get_files tc k level files st1) as [st2|[s st2]].
      * rewrite IH, Hp, <- app_assoc. reflexivity.
      * destruct IH as (m & IH). exists (S m).
        rewrite IH, Hp, <- app_assoc. reflexivity.
    + exists 1%nat. exact Hp.
Qed.

(** [Get] reads a prefix of its plan. *)
Lemma Get_levels_probed (tc : TableCache) (v : Version) (k : InternalKey)
    (levels : list nat) :
  forall st s st',
    Get_levels tc v k levels st = Some (s, st') ->
    exists m, probed st' = probed st ++ firstn m (Get_plan v k levels).
Proof.
  induction levels as [|level levels IH]; intros st s st' H; simpl in H.
  - injection H as _ <-. exists O. now rewrite app_nil_r.
  - simpl. destruct (Get_candidates v k level) as [fs|]; [|discriminate].
    pose proof (Get_files_probed tc k level fs st) as Hp.
    destruct (Get_files tc k level fs st) as [st1|[s1 st1]].
    + destruct (IH _ _ _ H) as (m & Hm).
      exists (length (map (fun f => (f, Z.of_nat level)) fs) + m)%nat.
      rewrite firstn_app_2, Hm, Hp, <- app_assoc. reflexivity.
    + injection H as _ <-. destruct Hp as (m & Hp).
      exists (Nat.min m (length (map (fun f => (f, Z.of_nat level)) fs))).
      rewrite Hp. f_equal. rewrite firstn_app.
      replace (Nat.min m (length (map (fun f => (f, Z.of_nat level)) fs))
               - length (map (fun f => (f, Z.of_nat level)) fs))%nat
        with O by lia.
      simpl. rewrite app_nil_r.
      destruct (Nat.le_ge_cases m
                  (length (map (fun f => (f, Z.of_nat level)) fs)))
        as [Hle|Hge].
      * now rewrite Nat.min_l.
      * rewrite Nat.min_r by exact Hge.
        rewrite firstn_all. now apply firstn_all2.
Qed.

Lemma firstn_incl {A} (n : nat) (l : list A) : incl (firstn n l) l.
Proof.
  intros x Hx. rewrite <- (firstn_skipn n l). apply in_or_app. now left.
Qed.

Lemma Get_plan_covering (v : Version) (k : InternalKey) (levels : list nat) :
  (forall level, In level levels ->
     Z.of_nat (length (files_ v level)) < 2 ^ 31) ->
  forall f l, In (f, l) (Get_plan v k levels) ->
    exists level, In level levels /\ l = Z.of_nat level
                  /\ In f (files_ v level) /\ covers (user_key k) f.
Proof.
  intros Hlen f l Hin. unfold Get_plan in Hin.
  apply in_flat_map in Hin as (level & Hlevel & Hin).
  destruct (Get_candidates v k level) as [fs|] eqn:Efs; [|destruct Hin].
  apply in_map_iff in Hin as (g & [= <- <-] & Hg).
  exists level. split; [exact Hlevel|]. split; [reflexivity|].
  eapply Get_candidates_covering; eauto.
Qed.

(** X5.  Every table that [Version::Get] reads is a file of the version,
    at the level recorded for it, whose user-key range contains the user
    key looked up; files that cannot hold the key are never read.  Each
    level holds fewer than 2^31 files. *)
Theorem Get_probes_covering_files (tc : TableCache) (v : Version)
    (k : InternalKey) (value0 : string) :
  (forall level, (level < kNumLevels)%nat ->
     Z.of_nat (length (files_ v level)) < 2 ^ 31) ->
  exists s st,
    Get tc v k value0 = Some (s, st)
    /\ forall f l, In (f, l) (probed st) ->
         exists level, (level < kNumLevels)%nat /\ l = Z.of_nat level
                       /\ In f (files_ v level) /\ covers (user_key k) f.
Proof.
  intros Hlen.
  assert (forall level, In level (seq 0 kNumLevels) ->
            Z.of_nat (length (files_ v level)) < 2 ^ 31) as Hlen'
    by (intros level Hl; apply Hlen; apply in_seq in Hl; lia).
  destruct (Get_levels_accounting tc v k (seq 0 kNumLevels) Hlen'
              (Get_init value0)) as (s & st & Hget & _).
  { unfold seek_accounting. simpl. auto. }
  exists s, st. split; [exact Hget|].
  destruct (Get_levels_probed _ _ _ _ _ _ _ Hget) as (m & Hm).
  simpl in Hm. intros f l Hin. rewrite Hm in Hin.
  apply firstn_incl in Hin.
  destruct (Get_plan_covering v k _ Hlen' f l Hin)
    as (level & Hl & H1 & H2 & H3).
  exists level. apply in_seq in Hl. split; [lia|]. auto.
Qed.

Lemma Get_levels_no_candidates (tc : TableCache) (v : Version)
    (k : InternalKey) (levels : list nat) (st : GetState) :
  (forall level, In level levels -> Get_candidates v k level = Some []) ->
  Get_levels tc v k levels st = Some (NotFound "", st).
Proof.
  induction levels as [|level levels IH]; intros H; simpl; [reflexivity|].
  rewrite (H level) by (now left). simpl. apply IH.
  intros l Hl. apply H. now right.
Qed.

(** X6.  When no file of the version has a user-key range containing the
    user key, [Version::Get] returns [NotFound] without reading any table:
    nothing is probed, nothing is charged to the statistics, and the
    caller's value is left as it was.  Each level holds fewer than 2^31
    files. *)
Theorem Get_no_covering_file_not_found (tc : TableCache) (v : Version)
    (k : InternalKey) (value0 : string) :
  (forall level, (level < kNumLevels)%nat ->
     Z.of_nat (length (files_ v level)) < 2 ^ 31) ->
  (forall level f, (level < kNumLevels)%nat -> In f (files_ v level) ->
     ~ covers (user_key k) f) ->
  Get tc v k value0 = Some (NotFound "", Get_init value0).
Proof.
  intros Hlen Hnone. unfold Get. apply Get_levels_no_candidates.
  intros level Hl. apply in_seq in Hl.
  assert (level < kNumLevels)%nat as Hl' by lia.
  destruct (Get_candidates_total v k level (Hlen level Hl')) as (fs & Hfs).
  rewrite Hfs. f_equal. destruct fs as [|f fs]; [reflexivity|].
  destruct (Get_candidates_covering v k level _ (Hlen level Hl') Hfs f)
    as [Hin Hc]; [now left|].
  destruct (Hnone level f Hl' Hin Hc).
Qed.

(** *** Version::Get: the order of the reads *)

(** [p] is read before [q]: at a shallower level, or both at level 0 and
    [q] not newer than [p]. *)
Definition probe_order (p q : FileMetaData * Z) : Prop :=
  snd p < snd q
  \/ (snd p = 0 /\ snd q = 0 /\ number (fst q) <= number (fst p)).

Definition not_newer (f g : FileMetaData) : Prop := number g <= number f.

Lemma StronglySorted_app {A} (R : A -> A -> Prop) (l1 l2 : list A) :
  StronglySorted R l1 -> StronglySorted R l2 ->
  (forall x y, In x l1 -> In y l2 -> R x y) ->
  StronglySorted R (l1 ++ l2).
Proof.
  induction 1 as [|a l1 Hs IH Ha]; intros H2 Hx; simpl; [exact H2|].
  constructor.
  - apply IH; auto. intros x y Hx1. apply Hx. now right.
  - apply Forall_app. split; [exact Ha|].
    apply Forall_forall. intros y Hy. apply Hx; auto. now left.
Qed.

Lemma StronglySorted_firstn {A} (R : A -> A -> Prop) (l : list A) (n : nat) :
  StronglySorted R l -> StronglySorted R (firstn n l).
Proof.
  intros H. revert n. induction H as [|a l Hs IH Ha]; intros [|n]; simpl;
    try constructor.
  - apply IH.
  - rewrite Forall_forall in *. intros x Hx. apply Ha.
    now apply (firstn_incl n l).
Qed.

Lemma sort_insert_NewestFirst (f : FileMetaData) (l : list FileMetaData) :
  StronglySorted not_newer l ->
  StronglySorted not_newer (sort_insert NewestFirst f l).
Proof.
  induction 1 as [|g l Hs IH Hg]; simpl.
  - constructor; constructor.
  - unfold NewestFirst at 1. destruct (number f <? number g) eqn:E.
    + apply Z.ltb_lt in E. constructor; [exact IH|].
      apply Forall_forall. intros x Hx.
      apply sort_insert_In in Hx as [->|Hx].
      * unfold not_newer. lia.
      * rewrite Forall_forall in Hg. now apply Hg.
    + apply Z.ltb_ge in E. constructor; [now constructor|].
      constructor; [exact E|].
      rewrite Forall_forall in *. intros x Hx. specialize (Hg x Hx).
      unfold not_newer in *. lia.
Qed.

Lemma std_sort_NewestFirst (l : list FileMetaData) :
  StronglySorted not_newer (std_sort NewestFirst l).
Proof.
  induction l as [|f l IH]; simpl; [constructor|].
  now apply sort_insert_NewestFirst.
Qed.

(** The candidates of level 0 come newest first; a level above 0 has one
    candidate at most. *)
Lemma Get_candidates_shape (v : Version) (k : InternalKey) (level : nat)
    (fs : list FileMetaData) :
  Get_candidates v k level = Some fs ->
  (level = O /\ StronglySorted not_newer fs) \/ (length fs <= 1)%nat.
Proof.
  unfold Get_candidates.
  destruct (Z.of_nat (length (files_ v level)) =? 0).
  { intros [= <-]. right. simpl. lia. }
  destruct (Nat.eqb level 0) eqn:El.
  { intros [= <-]. left. apply Nat.eqb_eq in El.
    split; [exact El|]. apply std_sort_NewestFirst. }
  destruct (FindFile (files_ v level) k) as [r|]; [|discriminate].
  destruct (uint32 r >=? Z.of_nat (length (files_ v level))).
  { intros [= <-]. right. simpl. lia. }
  destruct (nth_error (files_ v level) (Z.to_nat (uint32 r))) as [g|];
    [|discriminate].
  destruct (is_lt (Compare (user_key k) (user_key (smallest g))));
    intros [= <-]; right; simpl; lia.
Qed.

Lemma Get_plan_levels (v : Version) (k : InternalKey) (levels : list nat)
    (p : FileMetaData * Z) :
  In p (Get_plan v k levels) ->
  exists level, In level levels /\ snd p = Z.of_nat level.
Proof.
  intros Hin. unfold Get_plan in Hin.
  apply in_flat_map in Hin as (level & Hlevel & Hin).
  destruct (Get_candidates v k level) as [fs|]; [|destruct Hin].
  apply in_map_iff in Hin as (g & <- & Hg).
  exists level. now split.
Qed.

Lemma Get_plan_sorted (v : Version) (k : InternalKey) (n : nat) :
  forall a, StronglySorted probe_order (Get_plan v k (seq a n)).
Proof.
  induction n as [|n IH]; intros a; simpl; [constructor|].
  apply StronglySorted_app.
  - destruct (Get_candidates v k a) as [fs|] eqn:Efs; [|constructor].
    destruct (Get_candidates_shape v k a fs Efs) as [[-> Hs]|Hlen].
    + clear Efs. induction Hs as [|f fs Hs IHs Hf]; simpl; constructor.
      * exact IHs.
      * apply Forall_forall. intros q Hq.
        apply in_map_iff in Hq as (g & <- & Hg).
        rewrite Forall_forall in Hf. right. simpl.
        split; [reflexivity|]. split; [reflexivity|]. now apply Hf.
    + destruct fs as [|f [|g fs]]; simpl in *; try lia; repeat constructor.
  - apply IH.
  - intros x y Hx Hy. left.
    apply (Get_plan_levels v k (seq (S a) n)) in Hy as (ly & Hly & ->).
    apply in_seq in Hly.
    destruct (Get_candidates v k a) as [fs|]; [|destruct Hx].
    apply in_map_iff in Hx as (g & <- & Hg). simpl. lia.
Qed.

(** X7.  The tables that [Version::Get] reads are read in this order: of
    any two of them, the one read first is at a shallower level, or both
    are at level 0 and the one read first has the larger or equal file
    number.  So the levels are visited from 0 upwards, the files of
    level 0 newest first, and at most one file is read per level above 0.
    Each level holds fewer than 2^31 files. *)
Theorem Get_probe_order (tc : TableCache) (v : Version)
    (k : InternalKey) (value0 : string) :
  (forall level, (level < kNumLevels)%nat ->
     Z.of_nat (length (files_ v level)) < 2 ^ 31) ->
  exists s st,
    Get tc v k value0 = Some (s, st)
    /\ StronglySorted probe_order (probed st).
Proof.
  intros Hlen.
  destruct (Get_levels_accounting tc v k (seq 0 kNumLevels))
    with (st := Get_init value0) as (s & st & Hget & _).
  - intros level Hl. apply Hlen. apply in_seq in Hl. lia.
  - unfold seek_accounting. simpl. auto.
  - exists s, st. split; [exact Hget|].
    destruct (Get_levels_probed _ _ _ _ _ _ _ Hget) as (m & Hm).
    change (probed (Get_init value0)) with (@nil (FileMetaData * Z)) in Hm.
    rewrite Hm. change (StronglySorted probe_order
                          (firstn m (Get_plan v k (seq 0 kNumLevels)))).
    apply StronglySorted_firstn. apply Get_plan_sorted.
Qed.

(** *** Recover: what a failed recovery leaves, what a successful one installs *)

(** [vset'] differs from [vset] at most in the compaction pointers and in
    the next file number. *)
Definition installs_nothing (vset vset' : VersionSet) : Prop :=
  current_ vset' = current_ vset
  /\ manifest_file_number_ vset' = manifest_file_number_ vset
  /\ vs_last_sequence_ vset' = vs_last_sequence_ vset
  /\ vs_log_number_ vset' = vs_log_number_ vset
  /\ vs_prev_log_number_ vset' = vs_prev_log_number_ vset.

Lemma installs_nothing_refl vset : installs_nothing vset vset.
Proof. repeat split. Qed.

Lemma installs_nothing_trans a b c :
  installs_nothing a b -> installs_nothing b c -> installs_nothing a c.
Proof.
  unfold installs_nothing. intros (A1 & A2 & A3 & A4 & A5) (B1 & B2 & B3 & B4 & B5).
  repeat split; congruence.
Qed.

Lemma set_compact_pointers_nothing (ps : list (nat * InternalKey)) :
  forall vset,
    installs_nothing vset
      (fold_left (fun vs p => set_compact_pointer vs (fst p) (snd p)) ps vset).
Proof.
  induction ps as [|p ps IH]; intros vset; simpl.
  - apply installs_nothing_refl.
  - eapply installs_nothing_trans; [|apply IH]. repeat split.
Qed.

Lemma Apply_nothing (vb : VersionSet * Builder) (edit : VersionEdit) :
  installs_nothing (fst vb) (fst (Apply vb edit)).
Proof. destruct vb as [vset b]. simpl. apply set_compact_pointers_nothing. Qed.

Lemma MarkFileNumberUsed_nothing (vset : VersionSet) (number : Z) :
  installs_nothing vset (MarkFileNumberUsed vset number).
Proof.
  unfold MarkFileNumberUsed.
  destruct (vs_next_file_number_ vset <=? number); repeat split.
Qed.

Section RecoverReplay.

Variable DecodeFrom : Slice -> Status * VersionEdit.

Lemma Recover_record_nothing (st : RecoverState) (r : Slice) :
  installs_nothing (fst (rs_builder st))
    (fst (rs_builder (Recover_record DecodeFrom st r))).
Proof.
  unfold Recover_record. destruct (DecodeFrom r) as [s edit]. simpl.
  match goal with
  | |- context [if ok ?s' then _ else _] => destruct (ok s')
  end; [apply Apply_nothing|apply installs_nothing_refl].
Qed.

Lemma Recover_loop_nothing (rs : list LogRecord) (at_end : list Status) :
  forall st,
    installs_nothing (fst (rs_builder st))
      (fst (rs_builder (Recover_loop DecodeFrom rs at_end st))).
Proof.
  induction rs as [|r rs IH]; intros st; simpl.
  - apply installs_nothing_refl.
  - destruct (ok (fold_left LogReporter_Corruption (reported r)
                    (rs_status st))).
    + eapply installs_nothing_trans; [|apply IH].
      apply Recover_record_nothing.
    + apply installs_nothing_refl.
Qed.

(** X8.  Whatever the environment delivers, a call of [Recover] that
    returns a status other than OK installs nothing: the current version,
    the manifest file number, the last sequence number and the two log
    numbers of the version set are those it had before the call. *)
Theorem Recover_failure_installs_nothing (env : Env) (vset : VersionSet)
    (s : Status) (vset' : VersionSet) :
  Recover DecodeFrom env vset = Some (s, vset') ->
  ok s = false ->
  installs_nothing vset vset'.
Proof.
  unfold Recover.
  destruct (ReadFileToString_CURRENT env) as [s0 current].
  destruct (negb (ok s0)).
  { intros [= <- <-] _. apply installs_nothing_refl. }
  destruct (string_last current) as [c|].
  2:{ intros [= <- <-] _. apply installs_nothing_refl. }
  destruct (negb (Ascii.eqb c newline)).
  { intros [= <- <-] _. apply installs_nothing_refl. }
  destruct (NewSequentialFile env _) as [s1 file].
  destruct (negb (ok s1)).
  { intros [= <- <-] _. apply installs_nothing_refl. }
  match goal with
  | |- context [Recover_loop DecodeFrom (records file) ?e ?st0] =>
      pose proof (Recover_loop_nothing (records file) e st0) as Hloop;
      destruct (Recover_loop DecodeFrom (records file) e st0)
        as [s2 hl hp hn hs nf ls ln pl [vset1 b1]]
  end.
  simpl in Hloop. simpl.
  assert (forall n1 n2,
            installs_nothing vset
              (MarkFileNumberUsed (MarkFileNumberUsed vset1 n1) n2))
    as Hmark.
  { intros n1 n2.
    eapply installs_nothing_trans; [exact Hloop|].
    eapply installs_nothing_trans; apply MarkFileNumberUsed_nothing. }
  destruct (ok s2) eqn:Es2.
  - destruct (negb hn); simpl.
    { intros [= <- <-] _. apply Hmark. }
    destruct (negb hl); simpl.
    { intros [= <- <-] _. apply Hmark. }
    destruct (negb hs); simpl.
    { intros [= <- <-] _. apply Hmark. }
    rewrite Es2. destruct (SaveTo b1 new_Version); [|discriminate].
    intros [= <- <-] Hs. congruence.
  - rewrite Es2. intros [= <- <-] _. exact Hloop.
Qed.

(** The value of a counter after the edits: that of the last edit that
    carries it. *)
Definition last_field (has : VersionEdit -> bool) (get : VersionEdit -> Z)
    (edits : list VersionEdit) (init : Z) : Z :=
  fold_left (fun acc e => if has e then get e else acc) edits init.

Lemma last_field_none (has : VersionEdit -> bool) (get : VersionEdit -> Z)
    (edits : list VersionEdit) :
  forall init, existsb has edits = false -> last_field has get edits init = init.
Proof.
  induction edits as [|e edits IH]; intros init H; simpl in *; auto.
  apply orb_false_elim in H as [H1 H2]. unfold last_field in *. simpl.
  rewrite H1. now apply IH.
Qed.

Lemma Recover_loop_replays (rs : list LogRecord) :
  Forall (record_decodes DecodeFrom) rs ->
  forall st,
    rs_status st = OK ->
    let st' := Recover_loop DecodeFrom rs [] st in
    let edits := map (edit_of DecodeFrom) rs in
    rs_builder st' = fold_left Apply edits (rs_builder st)
    /\ next_file st'
       = last_field has_next_file_number_ next_file_number_ edits
           (next_file st)
    /\ rs_last_sequence st'
       = last_field has_last_sequence_ last_sequence_ edits
           (rs_last_sequence st)
    /\ rs_log_number st'
       = last_field has_log_number_ log_number_ edits (rs_log_number st)
    /\ rs_prev_log_number st'
       = last_field has_prev_log_number_ prev_log_number_ edits
           (rs_prev_log_number st)
    /\ have_prev_log_number st'
       = existsb has_prev_log_number_ edits || have_prev_log_number st.
Proof.
  induction 1 as [|r rs Hr Hrs IH]; intros st Hst; simpl.
  - repeat split; reflexivity.
  - destruct Hr as (Hrep & Hdec & Hcmp).
    rewrite Hrep. simpl. rewrite Hst. simpl.
    set (st1 := Recover_record DecodeFrom st (record r)).
    assert (rs_status st1 = OK
            /\ rs_builder st1 = Apply (rs_builder st) (edit_of DecodeFrom r)
            /\ next_file st1
               = (if has_next_file_number_ (edit_of DecodeFrom r)
                  then next_file_number_ (edit_of DecodeFrom r)
                  else next_file st)
            /\ rs_last_sequence st1
               = (if has_last_sequence_ (edit_of DecodeFrom r)
                  then last_sequence_ (edit_of DecodeFrom r)
                  else rs_last_sequence st)
            /\ rs_log_number st1
               = (if has_log_number_ (edit_of DecodeFrom r)
                  then log_number_ (edit_of DecodeFrom r)
                  else rs_log_number st)
            /\ rs_prev_log_number st1
               = (if has_prev_log_number_ (edit_of DecodeFrom r)
                  then prev_log_number_ (edit_of DecodeFrom r)
                  else rs_prev_log_number st)
            /\ have_prev_log_number st1
               = has_prev_log_number_ (edit_of DecodeFrom r)
                 || have_prev_log_number st)
      as (H1 & H2 & H3 & H4 & H5 & H6 & H7).
    { subst st1. unfold Recover_record, edit_of in *.
      destruct (DecodeFrom (record r)) as [s edit]. simpl in *. subst s.
      simpl. destruct (has_comparator_ edit); simpl.
      - rewrite (Hcmp eq_refl), String.eqb_refl. simpl.
        repeat split; reflexivity.
      - repeat split; reflexivity. }
    destruct (IH _ H1) as (I1 & I2 & I3 & I4 & I5 & I6).
    rewrite I1, I2, I3, I4, I5, I6, H2, H3, H4, H5, H6, H7.
    unfold last_field. simpl. rewrite orb_assoc.
    rewrite (orb_comm (existsb _ _) (has_prev_log_number_ _)).
    repeat split; reflexivity.
Qed.

Lemma existsb_edit_of (has : VersionEdit -> bool) (rs : list LogRecord) :
  existsb (fun r => has (edit_of DecodeFrom r)) rs
  = existsb has (map (edit_of DecodeFrom) rs).
Proof.
  induction rs as [|r rs IH]; simpl; [reflexivity|]. now rewrite IH.
Qed.

(** X9.  When the CURRENT file and the manifest it names can be read,
    every record of the manifest decodes, and some record carries a
    next-file number, some a log number and some a last sequence number,
    [Recover] replays the edits of the manifest in order on a builder over
    the current version and saves the result into a fresh version.  If no
    assertion of [SaveTo] fails it returns OK; the version installed is
    the saved version as finalized; the manifest file number is the last
    next-file number recorded and the next file number is one more; the
    last sequence number and the log numbers are those of the last records
    carrying them, the previous log number being 0 when no record carries
    one. *)
Theorem Recover_replays_manifest (env : Env) (vset : VersionSet)
    (current : string) (file : SequentialFile) :
  ReadFileToString_CURRENT env = (OK, current) ->
  string_last current = Some newline ->
  NewSequentialFile env
    (String.append (dbname_ vset)
       (String.append "/" (string_drop_last current))) = (OK, file) ->
  stream_decodes DecodeFrom file ->
  let edits := map (edit_of DecodeFrom) (records file) in
  existsb has_next_file_number_ edits = true ->
  existsb has_log_number_ edits = true ->
  existsb has_last_sequence_ edits = true ->
  let vb := fold_left Apply edits (vset, new_Builder (current_ vset)) in
  let nf := last_field has_next_file_number_ next_file_number_ edits 0 in
  match SaveTo (snd vb) new_Version with
  | None => Recover DecodeFrom env vset = None
  | Some v =>
      exists vset',
        Recover DecodeFrom env vset = Some (OK, vset')
        /\ current_ vset' = Finalize v
        /\ manifest_file_number_ vset' = nf
        /\ vs_next_file_number_ vset' = uint64 (nf + 1)
        /\ vs_last_sequence_ vset'
           = last_field has_last_sequence_ last_sequence_ edits 0
        /\ vs_log_number_ vset'
           = last_field has_log_number_ log_number_ edits 0
        /\ vs_prev_log_number_ vset'
           = last_field has_prev_log_number_ prev_log_number_ edits 0
        /\ compact_pointer_ vset' = compact_pointer_ (fst vb)
  end.
Proof.
  intros Hcur Hnl Hopen [Hrecs Hend] edits Hnf Hlog Hseq vb nf.
  unfold Recover. rewrite Hcur. simpl. rewrite Hnl.
  change (Ascii.eqb newline newline) with true. simpl.
  simpl in Hopen. rewrite Hopen. simpl. rewrite Hend.
  match goal with
  | |- context [Recover_loop DecodeFrom (records file) [] ?st0] =>
      destruct (Recover_loop_decodes DecodeFrom (records file) Hrecs st0
                  eq_refl) as (H1 & H2 & H3 & H4 & _);
      destruct (Recover_loop_replays (records file) Hrecs st0 eq_refl)
        as (R1 & R2 & R3 & R4 & R5 & R6);
      destruct (Recover_loop DecodeFrom (records file) [] st0)
        as [s hl hp hn hs nf' ls ln pl [vset1 b1]]
  end.
  simpl in *. subst s.
  rewrite orb_false_r in H2, H3, H4, R6.
  assert (forall (has : VersionEdit -> bool),
            existsb (fun r => has (edit_of DecodeFrom r)) (records file)
            = existsb has edits) as Hex
    by (intros has; apply existsb_edit_of).
  rewrite Hex in H2, H3, H4. rewrite Hnf in H2. rewrite Hlog in H3.
  rewrite Hseq in H4. subst hn hl hs. simpl.
  fold edits in R1, R2, R3, R4, R5, R6. fold vb in R1.
  rewrite <- R1. simpl.
  destruct (SaveTo b1 new_Version) as [v|]; [|reflexivity].
  eexists. split; [reflexivity|]. simpl.
  subst nf. rewrite <- R2, <- R3, <- R4.
  repeat split; try reflexivity.
  - destruct hp; simpl; [exact R5|].
    symmetry. now apply last_field_none.
  - unfold MarkFileNumberUsed.
    repeat match goal with
           | |- context [if ?c then _ else _] => destruct c
           end; reflexivity.
Qed.

Lemma LogReporter_keeps_first (reports : list Status) (status : Status) :
  ok status = false -> fold_left LogReporter_Corruption reports status = status.
Proof.
  induction reports as [|s reports IH]; intros H; simpl; [reflexivity|].
  unfold LogReporter_Corruption at 2. rewrite H. now apply IH.
Qed.

Lemma Recover_loop_stopped (rs : list LogRecord) (at_end : list Status)
    (st : RecoverState) :
  ok (rs_status st) = false ->
  rs_status (Recover_loop DecodeFrom rs at_end st) = rs_status st
  /\ rs_builder (Recover_loop DecodeFrom rs at_end st) = rs_builder st.
Proof.
  intros H. destruct rs as [|r rs]; simpl;
    rewrite LogReporter_keeps_first by exact H.
  - now split.
  - rewrite H. now split.
Qed.

Lemma Recover_loop_prefix (pre rest : list LogRecord)
    (at_end : list Status) :
  Forall (record_decodes DecodeFrom) pre ->
  forall st,
    rs_status st = OK ->
    exists st1,
      Recover_loop DecodeFrom (pre ++ rest) at_end st
      = Recover_loop DecodeFrom rest at_end st1
      /\ rs_status st1 = OK
      /\ installs_nothing (fst (rs_builder st)) (fst (rs_builder st1)).
Proof.
  induction 1 as [|r rs Hr Hrs IH]; intros st Hst; simpl.
  - exists st. split; [reflexivity|]. split; [exact Hst|].
    apply installs_nothing_refl.
  - destruct Hr as (Hrep & Hdec & Hcmp).
    rewrite Hrep. simpl. rewrite Hst. simpl.
    destruct (IH (Recover_record DecodeFrom st (record r)))
      as (st1 & H1 & H2 & H3).
    { unfold Recover_record, edit_of in *.
      destruct (DecodeFrom (record r)) as [s edit]. simpl in *. subst s.
      simpl. destruct (has_comparator_ edit); simpl; [|reflexivity].
      now rewrite (Hcmp eq_refl), String.eqb_refl. }
    exists st1. split; [exact H1|]. split; [exact H2|].
    eapply installs_nothing_trans; [|exact H3].
    apply Recover_record_nothing.
Qed.

(** X10.  When the CURRENT file and the manifest it names can be read and
    the records of the manifest decode up to one that names a comparator
    other than the one in use, [Recover] returns [InvalidArgument],
    whatever follows that record in the manifest, and installs nothing. *)
Theorem Recover_comparator_mismatch (env : Env) (vset : VersionSet)
    (current : string) (file : SequentialFile)
    (pre rest : list LogRecord) (r : LogRecord) :
  ReadFileToString_CURRENT env = (OK, current) ->
  string_last current = Some newline ->
  NewSequentialFile env
    (String.append (dbname_ vset)
       (String.append "/" (string_drop_last current))) = (OK, file) ->
  records file = pre ++ r :: rest ->
  Forall (record_decodes DecodeFrom) pre ->
  reported r = [] ->
  fst (DecodeFrom (record r)) = OK ->
  has_comparator_ (edit_of DecodeFrom r) = true ->
  comparator_ (edit_of DecodeFrom r) <> Name ->
  exists msg vset',
    Recover DecodeFrom env vset = Some (InvalidArgument msg, vset')
    /\ installs_nothing vset vset'.
Proof.
  intros Hcur Hnl Hopen Hrecs Hpre Hrep Hdec Hhas Hname.
  unfold Recover. rewrite Hcur. simpl. rewrite Hnl.
  change (Ascii.eqb newline newline) with true. simpl.
  simpl in Hopen. rewrite Hopen. simpl. rewrite Hrecs.
  match goal with
  | |- context [Recover_loop DecodeFrom _ ?e ?st0] =>
      destruct (Recover_loop_prefix pre (r :: rest) e Hpre st0 eq_refl)
        as (st1 & H1 & H2 & H3)
  end.
  rewrite H1. simpl in H3. simpl Recover_loop. rewrite Hrep. simpl.
  rewrite H2. simpl.
  set (st2 := Recover_record DecodeFrom st1 (record r)).
  assert (exists msg, rs_status st2 = InvalidArgument msg
                      /\ rs_builder st2 = rs_builder st1)
    as (msg & Hs2 & Hb2).
  { subst st2. unfold Recover_record, edit_of in *.
    destruct (DecodeFrom (record r)) as [s edit]. simpl in *. subst s.
    rewrite Hhas. simpl.
    apply String.eqb_neq in Hname. rewrite Hname. simpl.
    eexists. split; reflexivity. }
  destruct (Recover_loop_stopped rest (reported_at_end file) st2)
    as [Hs3 Hb3]; [now rewrite Hs2|].
  rewrite Hs2 in Hs3. rewrite Hb2 in Hb3.
  destruct (Recover_loop DecodeFrom rest (reported_at_end file) st2)
    as [s hl hp hn hs nf ls ln pl vb].
  simpl in Hs3, Hb3. subst s vb. simpl.
  destruct (rs_builder st1) as [vset1 b1]. simpl.
  exists msg, vset1. split; [reflexivity|exact H3].
Qed.

End RecoverReplay.

(** *** SaveTo: the files of the saved version, exactly *)

(** The merge that [SaveTo] runs over the added files and the files of
    the base: before each added file go the base files that it does not
    precede. *)
Fixpoint merge_added (added base_rest : list FileMetaData)
    : list FileMetaData :=
  match added with
  | [] => base_rest
  | a :: added' =>
      let '(smaller, rest) := upper_bound BySmallestKey a base_rest in
      smaller ++ a :: merge_added added' rest
  end.

(** [f] is not among the files deleted at [level]. *)
Definition kept (b : Builder) (level : nat) (f : FileMetaData) : bool :=
  negb (ZSet.mem (number f) (deleted_files (levels_ b level))).

Lemma merge_added_In (added : list FileMetaData) :
  forall base_rest g,
    In g (merge_added added base_rest) <-> In g added \/ In g base_rest.
Proof.
  induction added as [|a added IH]; intros base_rest g; simpl; [tauto|].
  pose proof (upper_bound_parts BySmallestKey a base_rest) as Hparts.
  destruct (upper_bound BySmallestKey a base_rest) as [smaller rest].
  simpl in Hparts. rewrite Hparts.
  rewrite !in_app_iff. simpl. rewrite IH. tauto.
Qed.

Lemma MaybeAddFile_exact (b : Builder) (v v' : Version) (level : nat)
    (f : FileMetaData) :
  MaybeAddFile b v level f = Some v' ->
  files_ v' level = files_ v level ++ filter (kept b level) [f].
Proof.
  unfold MaybeAddFile, kept. simpl.
  destruct (ZSet.mem (number f) (deleted_files (levels_ b level))); simpl.
  - intros [= <-]. now rewrite app_nil_r.
  - destruct (_ && _); [discriminate|].
    intros [= <-]. apply set_files_same.
Qed.

Lemma MaybeAddFiles_exact (b : Builder) (level : nat)
    (fs : list FileMetaData) :
  forall v v',
    MaybeAddFiles b v level fs = Some v' ->
    files_ v' level = files_ v level ++ filter (kept b level) fs.
Proof.
  induction fs as [|f fs IH]; intros v v' H; simpl in H.
  - injection H as <-. simpl. now rewrite app_nil_r.
  - destruct (MaybeAddFile b v level f) as [v1|] eqn:E; [|discriminate].
    rewrite (IH _ _ H), (MaybeAddFile_exact _ _ _ _ _ E), <- app_assoc.
    f_equal. simpl. now destruct (kept b level f).
Qed.

Lemma SaveTo_added_exact (b : Builder) (level : nat)
    (added : list FileMetaData) :
  forall base_rest v base_rest' v',
    SaveTo_added b level added base_rest v = Some (base_rest', v') ->
    files_ v' level ++ filter (kept b level) base_rest'
    = files_ v level ++ filter (kept b level) (merge_added added base_rest).
Proof.
  induction added as [|a added IH]; intros base_rest v base_rest' v' H;
    simpl in H.
  - injection H as <- <-. reflexivity.
  - simpl. destruct (upper_bound BySmallestKey a base_rest) as [smaller rest].
    destruct (MaybeAddFiles b v level smaller) as [v1|] eqn:E1;
      [|discriminate].
    destruct (MaybeAddFile b v1 level a) as [v2|] eqn:E2; [|discriminate].
    rewrite (IH _ _ _ _ H), (MaybeAddFile_exact _ _ _ _ _ E2),
      (MaybeAddFiles_exact _ _ _ _ _ E1).
    rewrite filter_app, <- !app_assoc. f_equal. f_equal.
    simpl. now destruct (kept b level a).
Qed.

Lemma SaveTo_level_exact (b : Builder) (v v' : Version) (level : nat) :
  SaveTo_level b v level = Some v' ->
  files_ v' level
  = files_ v level
    ++ filter (kept b level)
         (merge_added (added_files (levels_ b level))
            (files_ (base_ b) level)).
Proof.
  unfold SaveTo_level.
  destruct (SaveTo_added b level _ _ v) as [[base_rest v1]|] eqn:E1;
    [|discriminate].
  destruct (MaybeAddFiles b v1 level base_rest) as [v2|] eqn:E2;
    [|discriminate].
  destruct (_ && _); [discriminate|].
  intros [= <-].
  rewrite (MaybeAddFiles_exact _ _ _ _ _ E2).
  now apply SaveTo_added_exact.
Qed.

Lemma SaveTo_levels_exact (b : Builder) (levels : list nat) :
  NoDup levels ->
  forall v v' level,
    SaveTo_levels b levels v = Some v' -> In level levels ->
    files_ v' level
    = files_ v level
      ++ filter (kept b level)
           (merge_added (added_files (levels_ b level))
              (files_ (base_ b) level)).
Proof.
  induction 1 as [|l levels Hnotin Hnodup IH]; intros v v' level H Hin;
    [destruct Hin|].
  simpl in H.
  destruct (SaveTo_level b v l) as [v1|] eqn:E; [|discriminate].
  destruct Hin as [->|Hin].
  - rewrite (SaveTo_levels_other _ _ _ _ _ H Hnotin).
    now apply SaveTo_level_exact.
  - rewrite (IH _ _ _ H Hin).
    destruct (SaveTo_level_files _ _ _ _ E) as (A1 & _).
    rewrite A1; [reflexivity|]. intros ->. contradiction.
Qed.

Lemma SaveTo_exact (b : Builder) (v : Version) (level : nat) :
  SaveTo b new_Version = Some v -> (level < kNumLevels)%nat ->
  files_ v level
  = filter (kept b level)
      (merge_added (added_files (levels_ b level)) (files_ (base_ b) level)).
Proof.
  intros H Hl. unfold SaveTo in H.
  rewrite (SaveTo_levels_exact b _ (seq_NoDup _ _) _ _ level H);
    [reflexivity|].
  apply in_seq. lia.
Qed.

(** *** Apply: the deleted numbers and the added files of one edit *)

Lemma Apply_deletes_deleted (ds : list (nat * Z)) :
  forall b l n,
    ZSet.In n (deleted_files (levels_ (fold_left Apply_delete ds b) l))
    <-> ZSet.In n (deleted_files (levels_ b l)) \/ In (l, n) ds.
Proof.
  induction ds as [|[dl dn] ds IH]; intros b l n; cbn [fold_left].
  - simpl. tauto.
  - rewrite IH. simpl. destruct (Nat.eqb l dl) eqn:E; simpl.
    + apply Nat.eqb_eq in E. subst dl. rewrite ZSet.add_spec.
      split.
      * intros [[->|H]|H]; auto.
      * intros [H|[[= ->]|H]]; auto.
    + apply Nat.eqb_neq in E. split.
      * intros [H|H]; auto.
      * intros [H|[[= -> ->]|H]]; auto. congruence.
Qed.

Lemma Apply_adds_deleted (adds : list (nat * FileMetaData)) :
  forall b l n,
    ZSet.In n (deleted_files (levels_ (fold_left Apply_add adds b) l))
    <-> ZSet.In n (deleted_files (levels_ b l))
        /\ ~ (exists f0, In (l, f0) adds /\ number f0 = n).
Proof.
  induction adds as [|[al af] adds IH]; intros b l n; cbn [fold_left].
  - simpl. split; [intros H; split; auto; intros (f0 & [] & _)|tauto].
  - rewrite IH. simpl. destruct (Nat.eqb l al) eqn:E; simpl.
    + apply Nat.eqb_eq in E. subst al. rewrite ZSet.remove_spec.
      split.
      * intros [[H1 H2] H3]. split; [exact H1|].
        intros (f0 & [[= <-]|Hf0] & Hn); [congruence|].
        apply H3. eauto.
      * intros [H1 H2]. split; [split; [exact H1|]|].
        -- intros ->. apply H2. exists af. auto.
        -- intros (f0 & Hf0 & Hn). apply H2. eauto.
    + apply Nat.eqb_neq in E. split.
      * intros [H1 H2]. split; [exact H1|].
        intros (f0 & [[= -> _]|Hf0] & Hn); [congruence|].
        apply H2. eauto.
      * intros [H1 H2]. split; [exact H1|].
        intros (f0 & Hf0 & Hn). apply H2. eauto.
Qed.

(** Two files that [BySmallestKey] does not tell apart: the same smallest
    key and the same number. *)
Definition same_set_element (f g : FileMetaData) : Prop :=
  icmp_Compare (smallest f) (smallest g) = Eq /\ number f = number g.

Lemma BySmallestKey_neither (f g : FileMetaData) :
  BySmallestKey f g = false -> BySmallestKey g f = false ->
  same_set_element g f.
Proof.
  unfold BySmallestKey, same_set_element.
  rewrite (icmp_antisym (smallest f) (smallest g)).
  destruct (icmp_Compare (smallest f) (smallest g)); simpl;
    try discriminate.
  intros H1 H2. apply Z.ltb_ge in H1, H2. split; [reflexivity|lia].
Qed.

Lemma FileSet_insert_keeps (f g : FileMetaData) (s : list FileMetaData) :
  In g s -> In g (FileSet_insert f s).
Proof.
  induction s as [|h s IH]; simpl; [tauto|].
  destruct (BySmallestKey f h); [simpl; tauto|].
  destruct (BySmallestKey h f); simpl; [|tauto].
  intros [->|H]; auto.
Qed.

Lemma FileSet_insert_has (f : FileMetaData) (s : list FileMetaData) :
  exists g, In g (FileSet_insert f s) /\ same_set_element g f.
Proof.
  induction s as [|h s IH]; simpl.
  - exists f. split; [now left|]. split; [apply icmp_refl|reflexivity].
  - destruct (BySmallestKey f h) eqn:E1.
    + exists f. split; [now left|]. split; [apply icmp_refl|reflexivity].
    + destruct (BySmallestKey h f) eqn:E2.
      * destruct IH as (g & Hg & Hs). exists g. split; [now right|exact Hs].
      * exists h. split; [now left|]. now apply BySmallestKey_neither.
Qed.

Lemma same_set_element_trans f g h :
  same_set_element f g -> same_set_element g h -> same_set_element f h.
Proof.
  unfold same_set_element. intros [H1 H2] [H3 H4]. split; [|congruence].
  rewrite (icmp_eq_l _ _ _ H1). exact H3.
Qed.

Lemma Apply_adds_added (adds : list (nat * FileMetaData)) :
  forall b l,
    (forall g, In g (added_files (levels_ b l)) ->
       In g (added_files (levels_ (fold_left Apply_add adds b) l)))
    /\ (forall f0, In (l, f0) adds ->
          exists g,
            In g (added_files (levels_ (fold_left Apply_add adds b) l))
            /\ same_set_element g (Apply_new_FileMetaData f0)).
Proof.
  induction adds as [|[al af] adds IH]; intros b l; cbn [fold_left].
  - split; [auto|intros f0 []].
  - destruct (IH (Apply_add b (al, af)) l) as [H1 H2]. split.
    + intros g Hg. apply H1. simpl.
      destruct (Nat.eqb l al) eqn:E; [|exact Hg].
      apply Nat.eqb_eq in E. subst al. simpl.
      now apply FileSet_insert_keeps.
    + intros f0 [[= -> ->]|Hf0]; [|now apply H2].
      destruct (FileSet_insert_has (Apply_new_FileMetaData f0)
                  (added_files (levels_ b l))) as (g & Hg & Hs).
      exists g. split; [|exact Hs].
      apply H1. simpl. now rewrite Nat.eqb_refl.
Qed.

Lemma added_number_dec (adds : list (nat * FileMetaData)) (l : nat) (n : Z) :
  (exists f0, In (l, f0) adds /\ number f0 = n)
  \/ ~ (exists f0, In (l, f0) adds /\ number f0 = n).
Proof.
  induction adds as [|[al af] adds IH].
  - right. intros (f0 & [] & _).
  - destruct IH as [(f0 & Hf0 & Hn)|IH].
    + left. exists f0. simpl. auto.
    + destruct (Nat.eq_dec al l) as [->|Hl].
      * destruct (Z.eq_dec (number af) n) as [Hn|Hn].
        -- left. exists af. simpl. auto.
        -- right. intros (f0 & [[= <-]|Hf0] & Hf); [congruence|].
           apply IH. eauto.
      * right. intros (f0 & [[= -> _]|Hf0] & Hf); [congruence|].
        apply IH. eauto.
Qed.

(** The numbers deleted at a level of a builder that has taken one edit
    on top of a base: those the edit deletes there and does not add
    there. *)
Lemma Apply_one_deleted (vset : VersionSet) (base : Version)
    (edit : VersionEdit) (l : nat) (n : Z) :
  ZSet.mem n
    (deleted_files
       (levels_ (snd (Apply (vset, new_Builder base) edit)) l)) = true
  <-> In (l, n) (deleted_files_ edit)
      /\ ~ (exists f0, In (l, f0) (new_files_ edit) /\ number f0 = n).
Proof.
  rewrite ZSet.mem_spec. unfold Apply. simpl.
  rewrite Apply_adds_deleted, Apply_deletes_deleted. simpl.
  pose proof (ZSet.empty_spec) as He. unfold ZSet.Empty in He.
  specialize (He n). tauto.
Qed.

Lemma Apply_one_base (vset : VersionSet) (base : Version)
    (edit : VersionEdit) :
  base_ (snd (Apply (vset, new_Builder base) edit)) = base.
Proof.
  destruct (Apply_builder (vset, new_Builder base) edit O) as [_ H].
  exact H.
Qed.

(** X11.  Apply one edit to a builder on a base version and let [SaveTo]
    construct a version (it aborts instead when an assertion fails).
    Then, at every level: each file of the new version is a file of the
    base or the metadata built for a file that the edit adds at the
    level; each file of the base whose number the edit does not delete
    at the level is in the new version; and a file whose number the edit
    deletes at the level is in the new version only if the edit also adds
    a file of that number at the level. *)
Theorem SaveTo_applies_edit (vset : VersionSet) (base : Version)
    (edit : VersionEdit) (v : Version) (level : nat) :
  SaveTo (snd (Apply (vset, new_Builder base) edit)) new_Version = Some v ->
  (level < kNumLevels)%nat ->
  (forall g, In g (files_ v level) ->
     In g (files_ base level)
     \/ exists f0, In (level, f0) (new_files_ edit)
                   /\ g = Apply_new_FileMetaData f0)
  /\ (forall g, In g (files_ base level) ->
        ~ In (level, number g) (deleted_files_ edit) ->
        In g (files_ v level))
  /\ (forall g, In g (files_ v level) ->
        In (level, number g) (deleted_files_ edit) ->
        exists f0, In (level, f0) (new_files_ edit) /\ number f0 = number g).
Proof.
  intros Hsave Hlevel.
  rewrite (SaveTo_exact _ _ level Hsave Hlevel), Apply_one_base.
  split; [|split].
  - intros g Hg. apply filter_In in Hg as [Hg _].
    apply merge_added_In in Hg as [Hg|Hg]; [|now left].
    destruct (Apply_builder (vset, new_Builder base) edit level) as [H _].
    destruct (H g Hg) as [[]|H']. now right.
  - intros g Hg Hnd. apply filter_In. split.
    + apply merge_added_In. now right.
    + unfold kept. apply negb_true_iff.
      destruct (ZSet.mem _ _) eqn:E; [|reflexivity].
      apply Apply_one_deleted in E. tauto.
  - intros g Hg Hd. apply filter_In in Hg as [_ Hk].
    unfold kept in Hk. apply negb_true_iff in Hk.
    destruct (added_number_dec (new_files_ edit) level (number g))
      as [H|H]; [exact H|].
    assert (ZSet.mem (number g)
              (deleted_files
                 (levels_ (snd (Apply (vset, new_Builder base) edit)) level))
            = true) as E by (apply Apply_one_deleted; auto).
    congruence.
Qed.

(** X12.  A file that an edit adds at a level is in the version saved
    after the edit, also when the same edit deletes its number at that
    level: the new version holds, at that level, a file of that number
    whose smallest key equals that of the added file. *)
Theorem SaveTo_added_file_present (vset : VersionSet) (base : Version)
    (edit : VersionEdit) (v : Version) (level : nat) (f0 : FileMetaData) :
  SaveTo (snd (Apply (vset, new_Builder base) edit)) new_Version = Some v ->
  (level < kNumLevels)%nat ->
  In (level, f0) (new_files_ edit) ->
  exists g,
    In g (files_ v level)
    /\ number g = number f0
    /\ icmp_Compare (smallest g) (smallest f0) = Eq.
Proof.
  intros Hsave Hlevel Hin.
  rewrite (SaveTo_exact _ _ level Hsave Hlevel).
  unfold Apply at 1 2. simpl snd.
  destruct (Apply_adds_added (new_files_ edit)
              (fold_left Apply_delete (deleted_files_ edit) (new_Builder base))
              level) as [_ H].
  destruct (H f0 Hin) as (g & Hg & Hs & Hn).
  exists g. split; [|split; [exact Hn|exact Hs]].
  apply filter_In. split.
  - apply merge_added_In. now left.
  - unfold kept. apply negb_true_iff.
    destruct (ZSet.mem _ _) eqn:E; [|reflexivity].
    change (fold_left Apply_add (new_files_ edit)
              (fold_left Apply_delete (deleted_files_ edit)
                 (new_Builder base)))
      with (snd (Apply (vset, new_Builder base) edit)) in E.
    apply Apply_one_deleted in E. destruct E as [_ E].
    exfalso. apply E. exists f0. split; [exact Hin|].
    simpl in Hn. congruence.
Qed.

(** *** WriteSnapshot: the snapshot rebuilds the version *)

Definition set_order (f g : FileMetaData) : Prop := BySmallestKey f g = true.

Lemma BySmallestKey_asym (f g : FileMetaData) :
  BySmallestKey f g = true -> BySmallestKey g f = false.
Proof.
  unfold BySmallestKey.
  rewrite (icmp_antisym (smallest f) (smallest g)).
  destruct (icmp_Compare (smallest f) (smallest g)); simpl; try congruence.
  intros H. apply Z.ltb_lt in H. apply Z.ltb_ge. lia.
Qed.

Lemma BySmallestKey_trans (f g h : FileMetaData) :
  BySmallestKey f g = true -> BySmallestKey g h = true ->
  BySmallestKey f h = true.
Proof.
  unfold BySmallestKey.
  destruct (icmp_Compare (smallest f) (smallest g)) eqn:E1;
    try discriminate;
    destruct (icmp_Compare (smallest g) (smallest h)) eqn:E2;
    try discriminate; intros H1 H2.
  - rewrite (icmp_eq_l _ _ _ E1), E2.
    apply Z.ltb_lt in H1, H2. apply Z.ltb_lt. lia.
  - now rewrite (icmp_eq_l _ _ _ E1), E2.
  - assert (icmp_Compare (smallest f) (smallest h) = Lt) as ->;
      [|reflexivity].
    apply (icmp_lt_le_trans _ (smallest g)); [exact E1|]. congruence.
  - now rewrite (icmp_trans _ _ _ E1 E2).
Qed.

Lemma FileSet_insert_last (f : FileMetaData) (s : list FileMetaData) :
  (forall g, In g s -> BySmallestKey g f = true) ->
  FileSet_insert f s = s ++ [f].
Proof.
  induction s as [|h s IH]; intros H; simpl; [reflexivity|].
  assert (BySmallestKey h f = true) as Hh by (apply H; now left).
  rewrite (BySmallestKey_asym _ _ Hh), Hh. f_equal.
  apply IH. intros g Hg. apply H. now right.
Qed.

Lemma FileSet_insert_sorted (fs : list FileMetaData) :
  StronglySorted set_order fs ->
  forall s,
    (forall g f, In g s -> In f fs -> BySmallestKey g f = true) ->
    fold_left (fun s f => FileSet_insert f s) fs s = s ++ fs.
Proof.
  induction 1 as [|f fs Hs IH Hf]; intros s H; simpl.
  - now rewrite app_nil_r.
  - rewrite FileSet_insert_last by (intros g Hg; apply H; simpl; auto).
    rewrite IH, <- app_assoc; [reflexivity|].
    intros g h Hg Hh. apply in_app_or in Hg as [Hg|[<-|[]]].
    + apply H; simpl; auto.
    + rewrite Forall_forall in Hf. now apply Hf.
Qed.

(** The files that a list of additions adds at one level, in order. *)
Definition added_at (l : nat) (adds : list (nat * FileMetaData))
    : list FileMetaData :=
  map (fun a => Apply_new_FileMetaData (snd a))
      (filter (fun a => Nat.eqb (fst a) l) adds).

Lemma Apply_adds_fold (adds : list (nat * FileMetaData)) :
  forall b l,
    added_files (levels_ (fold_left Apply_add adds b) l)
    = fold_left (fun s f => FileSet_insert f s) (added_at l adds)
        (added_files (levels_ b l)).
Proof.
  induction adds as [|[al af] adds IH]; intros b l; cbn [fold_left];
    [reflexivity|].
  rewrite IH. unfold added_at. simpl.
  rewrite (Nat.eqb_sym al l).
  destruct (Nat.eqb l al) eqn:E; simpl; [|reflexivity].
  apply Nat.eqb_eq in E. now subst al.
Qed.

(** The metadata record that [WriteSnapshot] hands to [AddFile]. *)
Definition snapshot_file (f : FileMetaData) : FileMetaData :=
  {| allowed_seeks := 2 ^ 30; number := number f;
     file_size := file_size f;
     smallest := smallest f; largest := largest f |}.

Definition snapshot_files (v : Version) (levels : list nat)
    : list (nat * FileMetaData) :=
  flat_map (fun level => map (fun f => (level, snapshot_file f))
                             (files_ v level))
           levels.

Definition snapshot_pointers (vset : VersionSet) (levels : list nat)
    : list (nat * InternalKey) :=
  flat_map (fun level =>
              match compact_pointer_ vset level with
              | Some key => [(level, key)]
              | None => []
              end)
           levels.

Lemma AddFile_fold (level : nat) (fs : list FileMetaData) :
  forall e,
    let e' :=
      fold_left
        (fun e f =>
           AddFile e level (number f) (file_size f) (smallest f) (largest f))
        fs e in
    new_files_ e' = new_files_ e ++ map (fun f => (level, snapshot_file f)) fs
    /\ deleted_files_ e' = deleted_files_ e
    /\ compact_pointers_ e' = compact_pointers_ e.
Proof.
  induction fs as [|f fs IH]; intros e; simpl.
  - now rewrite app_nil_r.
  - destruct (IH (AddFile e level (number f) (file_size f) (smallest f)
                    (largest f))) as (H1 & H2 & H3).
    rewrite H1, H2, H3. simpl. now rewrite <- app_assoc.
Qed.

Lemma AddFile_levels_fold (v : Version) (levels : list nat) :
  forall e,
    let e' :=
      fold_left
        (fun e level =>
           fold_left
             (fun e f =>
                AddFile e level (number f) (file_size f) (smallest f)
                  (largest f))
             (files_ v level) e)
        levels e in
    new_files_ e' = new_files_ e ++ snapshot_files v levels
    /\ deleted_files_ e' = deleted_files_ e
    /\ compact_pointers_ e' = compact_pointers_ e.
Proof.
  induction levels as [|level levels IH]; intros e; simpl.
  - now rewrite app_nil_r.
  - destruct (AddFile_fold level (files_ v level) e) as (A1 & A2 & A3).
    match goal with
    | |- context [fold_left _ levels ?e1] =>
        destruct (IH e1) as (H1 & H2 & H3)
    end.
    rewrite H1, H2, H3, A1, A2, A3. now rewrite <- app_assoc.
Qed.

Lemma SetCompactPointer_fold (vset : VersionSet) (levels : list nat) :
  forall e,
    let e' :=
      fold_left
        (fun e level =>
           match compact_pointer_ vset level with
           | Some key => SetCompactPointer e level key
           | None => e
           end)
        levels e in
    new_files_ e' = new_files_ e
    /\ deleted_files_ e' = deleted_files_ e
    /\ compact_pointers_ e' = compact_pointers_ e ++ snapshot_pointers vset levels.
Proof.
  induction levels as [|level levels IH]; intros e; simpl.
  - now rewrite app_nil_r.
  - match goal with
    | |- context [fold_left _ levels ?e1] =>
        destruct (IH e1) as (H1 & H2 & H3)
    end.
    rewrite H1, H2, H3.
    destruct (compact_pointer_ vset level); simpl; auto.
    now rewrite <- app_assoc.
Qed.

(** What the snapshot edit holds. *)
Lemma WriteSnapshot_edit_fields (vset : VersionSet) :
  new_files_ (WriteSnapshot_edit vset)
  = snapshot_files (current_ vset) (seq 0 kNumLevels)
  /\ deleted_files_ (WriteSnapshot_edit vset) = []
  /\ compact_pointers_ (WriteSnapshot_edit vset)
     = snapshot_pointers vset (seq 0 kNumLevels)
  /\ has_comparator_ (WriteSnapshot_edit vset) = true
  /\ comparator_ (WriteSnapshot_edit vset) = Name.
Proof.
  unfold WriteSnapshot_edit.
  match goal with
  | |- context [fold_left _ (seq 0 kNumLevels) (fold_left ?f ?l ?e0)] =>
      destruct (SetCompactPointer_fold vset l e0) as (S1 & S2 & S3);
      destruct (AddFile_levels_fold (current_ vset) l (fold_left f l e0))
        as (A1 & A2 & A3)
  end.
  rewrite A1, A2, A3, S1, S2, S3. simpl new_files_. simpl deleted_files_.
  simpl compact_pointers_.
  split; [reflexivity|]. split; [reflexivity|]. split; [reflexivity|].
  clear. split.
  - set (l := seq 0 kNumLevels). generalize l. clear l.
    assert (forall v l (e : VersionEdit),
              has_comparator_
                (fold_left
                   (fun e level =>
                      fold_left
                        (fun e f =>
                           AddFile e level (number f) (file_size f)
                             (smallest f) (largest f))
                        (files_ v level) e) l e) = has_comparator_ e) as HA.
    { intros v l. induction l as [|x l IH]; intros e; simpl; [reflexivity|].
      rewrite IH. generalize (files_ v x). intros fs. revert e.
      induction fs as [|f fs IHf]; intros e; simpl; [reflexivity|].
      now rewrite IHf. }
    assert (forall l (e : VersionEdit),
              has_comparator_
                (fold_left
                   (fun e level =>
                      match compact_pointer_ vset level with
                      | Some key => SetCompactPointer e level key
                      | None => e
                      end) l e) = has_comparator_ e) as HS.
    { intros l. induction l as [|x l IH]; intros e; simpl; [reflexivity|].
      rewrite IH. now destruct (compact_pointer_ vset x). }
    intros l. now rewrite HA, HS.
  - set (l := seq 0 kNumLevels). generalize l. clear l.
    assert (forall v l (e : VersionEdit),
              comparator_
                (fold_left
                   (fun e level =>
                      fold_left
                        (fun e f =>
                           AddFile e level (number f) (file_size f)
                             (smallest f) (largest f))
                        (files_ v level) e) l e) = comparator_ e) as HA.
    { intros v l. induction l as [|x l IH]; intros e; simpl; [reflexivity|].
      rewrite IH. generalize (files_ v x). intros fs. revert e.
      induction fs as [|f fs IHf]; intros e; simpl; [reflexivity|].
      now rewrite IHf. }
    assert (forall l (e : VersionEdit),
              comparator_
                (fold_left
                   (fun e level =>
                      match compact_pointer_ vset level with
                      | Some key => SetCompactPointer e level key
                      | None => e
                      end) l e) = comparator_ e) as HS.
    { intros l. induction l as [|x l IH]; intros e; simpl; [reflexivity|].
      rewrite IH. now destruct (compact_pointer_ vset x). }
    intros l. now rewrite HA, HS.
Qed.

Lemma added_at_snapshot (v : Version) (l : nat) (levels : list nat) :
  NoDup levels -> In l levels ->
  added_at l (snapshot_files v levels)
  = map Apply_new_FileMetaData (files_ v l).
Proof.
  assert (forall x fs,
            added_at l (map (fun f => (x, snapshot_file f)) fs)
            = if Nat.eqb x l then map Apply_new_FileMetaData fs else [])
    as Hone.
  { intros x fs. unfold added_at.
    induction fs as [|f fs IH]; simpl; [now destruct (Nat.eqb x l)|].
    destruct (Nat.eqb x l); simpl; [|exact IH].
    now rewrite IH. }
  assert (forall a b, added_at l (a ++ b) = added_at l a ++ added_at l b)
    as Happ
    by (intros a b; unfold added_at; now rewrite filter_app, map_app).
  induction 1 as [|x levels Hnotin Hnodup IH]; intros Hin; [destruct Hin|].
  unfold snapshot_files. simpl. rewrite Happ, Hone.
  fold (snapshot_files v levels).
  destruct Hin as [->|Hin].
  - rewrite Nat.eqb_refl.
    assert (added_at l (snapshot_files v levels) = []) as ->;
      [|now rewrite app_nil_r].
    clear - Hnotin Hone Happ. induction levels as [|y levels IH];
      [reflexivity|].
    unfold snapshot_files. simpl. rewrite Happ, Hone.
    fold (snapshot_files v levels).
    destruct (Nat.eqb y l) eqn:E.
    + apply Nat.eqb_eq in E. subst y. exfalso. apply Hnotin. now left.
    + apply IH. intros Hc. apply Hnotin. now right.
  - destruct (Nat.eqb x l) eqn:E.
    + apply Nat.eqb_eq in E. subst x. contradiction.
    + now apply IH.
Qed.

Lemma SaveTo_added_empty_base (b : Builder) (level : nat)
    (added : list FileMetaData) :
  forall v,
    SaveTo_added b level added [] v
    = match MaybeAddFiles b v level added with
      | Some v' => Some ([], v')
      | None => None
      end.
Proof.
  induction added as [|a added IH]; intros v; simpl; [reflexivity|].
  destruct (MaybeAddFile b v level a) as [v1|]; [|reflexivity].
  apply IH.
Qed.

(** A builder over an empty base in which nothing is deleted saves its
    added files as they are, provided that those of each level above 0
    are disjoint and in order. *)
Lemma SaveTo_levels_adds_only (b : Builder) (levels : list nat) :
  (forall l, files_ (base_ b) l = []) ->
  (forall l n, ZSet.mem n (deleted_files (levels_ b l)) = false) ->
  (forall l, In l levels -> l <> O ->
     Sorted ends_before (added_files (levels_ b l))) ->
  NoDup levels ->
  forall v,
    (forall l, In l levels -> files_ v l = []) ->
    exists v',
      SaveTo_levels b levels v = Some v'
      /\ (forall l, In l levels -> files_ v' l = added_files (levels_ b l))
      /\ (forall l, ~ In l levels -> files_ v' l = files_ v l).
Proof.
  intros Hbase Hdel Hsorted Hnodup.
  induction Hnodup as [|level levels Hnotin Hnodup IH]; intros v Hv; simpl.
  - exists v. split; [reflexivity|]. split; [intros l []|auto].
  - unfold SaveTo_level. rewrite Hbase, SaveTo_added_empty_base.
    destruct (MaybeAddFiles_push b level (added_files (levels_ b level))
                (Hdel level) v) as (v1 & H1 & H2 & H3).
    { intros Hl. rewrite Hv by (simpl; auto). simpl.
      apply Hsorted; simpl; auto. }
    rewrite H1. simpl. rewrite Hv in H2 by (simpl; auto). simpl in H2.
    assert (negb (Nat.eqb level 0) && negb (no_overlap_check (files_ v1 level))
            = false) as Hcheck.
    { destruct (Nat.eqb level 0) eqn:E0; [reflexivity|].
      apply Nat.eqb_neq in E0. rewrite H2.
      rewrite Sorted_no_overlap_check; [reflexivity|].
      apply Hsorted; simpl; auto. }
    rewrite Hcheck.
    destruct (IH (fun l Hl => Hsorted l (or_intror Hl)) v1)
      as (v' & I1 & I2 & I3).
    { intros l Hl. rewrite H3; [apply Hv; simpl; auto|].
      intros ->. contradiction. }
    exists v'. split; [exact I1|]. split.
    + intros l [<-|Hl]; [|now apply I2].
      rewrite I3 by assumption. exact H2.
    + intros l Hl. rewrite I3 by (intros Hc; apply Hl; simpl; auto).
      apply H3. intros ->. apply Hl. simpl. auto.
Qed.

Lemma set_compact_pointers_app (ps qs : list (nat * InternalKey))
    (vset : VersionSet) :
  fold_left (fun vs p => set_compact_pointer vs (fst p) (snd p))
    (ps ++ qs) vset
  = fold_left (fun vs p => set_compact_pointer vs (fst p) (snd p)) qs
      (fold_left (fun vs p => set_compact_pointer vs (fst p) (snd p))
         ps vset).
Proof. apply fold_left_app. Qed.

Lemma snapshot_pointers_restored (vset : VersionSet) (levels : list nat)
    (l : nat) :
  forall vset0,
    compact_pointer_
      (fold_left (fun vs p => set_compact_pointer vs (fst p) (snd p))
         (snapshot_pointers vset levels) vset0) l
    = if existsb (Nat.eqb l) levels then
        match compact_pointer_ vset l with
        | Some key => Some key
        | None => compact_pointer_ vset0 l
        end
      else compact_pointer_ vset0 l.
Proof.
  induction levels as [|x levels IH]; intros vset0; [reflexivity|].
  unfold snapshot_pointers. simpl flat_map.
  fold (snapshot_pointers vset levels).
  rewrite set_compact_pointers_app, IH. simpl existsb.
  destruct (Nat.eqb l x) eqn:E.
  - apply Nat.eqb_eq in E. subst x. simpl.
    destruct (compact_pointer_ vset l) eqn:Ep; simpl.
    + rewrite Nat.eqb_refl. now destruct (existsb (Nat.eqb l) levels).
    + now destruct (existsb (Nat.eqb l) levels).
  - simpl. destruct (compact_pointer_ vset x); simpl; [rewrite E|];
      reflexivity.
Qed.

Lemma Sorted_map_Apply_new (R : FileMetaData -> FileMetaData -> Prop)
    (fs : list FileMetaData) :
  (forall f g, R f g ->
     R (Apply_new_FileMetaData f) (Apply_new_FileMetaData g)) ->
  Sorted R fs -> Sorted R (map Apply_new_FileMetaData fs).
Proof.
  intros HR. induction 1 as [|f fs Hs IH Hhd]; simpl; constructor; auto.
  destruct Hhd; simpl; constructor. now apply HR.
Qed.

(** X13.  Replaying the edit that [WriteSnapshot] writes on a builder
    over an empty version rebuilds the current version: [SaveTo] does not
    abort, every level of the saved version holds the files of that level
    of the current version, in the same order and with [allowed_seeks]
    derived anew from the file size, and every compaction pointer that
    was set is restored.  The levels above 0 of the current version are
    disjoint and in order, and the files of level 0 are strictly ordered
    by smallest key and file number. *)
Theorem WriteSnapshot_rebuilds_version (vset vset0 : VersionSet) :
  (forall l, (1 <= l < kNumLevels)%nat ->
     level_invariant (files_ (current_ vset) l)) ->
  Sorted set_order (files_ (current_ vset) O) ->
  let vb := Apply (vset0, new_Builder new_Version) (WriteSnapshot_edit vset) in
  exists v,
    SaveTo (snd vb) new_Version = Some v
    /\ (forall l, (l < kNumLevels)%nat ->
          files_ v l
          = map Apply_new_FileMetaData (files_ (current_ vset) l))
    /\ (forall l, (l < kNumLevels)%nat ->
          compact_pointer_ (fst vb) l
          = match compact_pointer_ vset l with
            | Some key => Some key
            | None => compact_pointer_ vset0 l
            end).
Proof.
  intros Hinv H0 vb.
  destruct (WriteSnapshot_edit_fields vset) as (Hnew & Hdel & Hptr & _).
  assert (forall l, (l < kNumLevels)%nat ->
            Sorted set_order (files_ (current_ vset) l)) as Hset.
  { intros [|l] Hl; [exact H0|].
    destruct (Hinv (S l)) as [Hlt _]; [lia|].
    clear - Hlt. induction Hlt as [|f fs Hs IH Hhd]; constructor; auto.
    destruct Hhd as [|g fs' Hfg]; constructor.
    unfold set_order, BySmallestKey, smallest_lt in *. now rewrite Hfg. }
  assert (forall l, (l < kNumLevels)%nat ->
            added_files (levels_ (snd vb) l)
            = map Apply_new_FileMetaData (files_ (current_ vset) l))
    as Hadded.
  { intros l Hl. subst vb. unfold Apply. simpl snd.
    rewrite Hdel, Hnew. simpl fold_left at 2.
    rewrite Apply_adds_fold.
    rewrite added_at_snapshot by (apply seq_NoDup || (apply in_seq; lia)).
    simpl added_files. rewrite FileSet_insert_sorted; [reflexivity| |].
    - apply Sorted_StronglySorted.
      + intros f g h. apply BySmallestKey_trans.
      + apply Sorted_map_Apply_new; [|now apply Hset].
        intros f g Hfg. exact Hfg.
    - intros g f []. }
  unfold SaveTo.
  destruct (SaveTo_levels_adds_only (snd vb) (seq 0 kNumLevels))
    with (v := new_Version) as (v & H1 & H2 & _).
  - intros l. subst vb. now rewrite Apply_one_base.
  - intros l n. destruct (ZSet.mem _ _) eqn:E; [|reflexivity].
    subst vb. apply Apply_one_deleted in E. rewrite Hdel in E.
    destruct E as [[] _].
  - intros l Hl Hne. apply in_seq in Hl.
    rewrite Hadded by lia.
    apply Sorted_map_Apply_new; [intros f g Hfg; exact Hfg|].
    destruct (Hinv l) as [_ He]; [lia|exact He].
  - apply seq_NoDup.
  - reflexivity.
  - exists v. split; [exact H1|]. split.
    + intros l Hl. rewrite H2 by (apply in_seq; lia). now apply Hadded.
    + intros l Hl. subst vb. unfold Apply. simpl fst.
      rewrite Hptr, snapshot_pointers_restored.
      assert (existsb (Nat.eqb l) (seq 0 kNumLevels) = true) as ->;
        [|reflexivity].
      apply existsb_exists. exists l. split; [apply in_seq; lia|].
      apply Nat.eqb_refl.
Qed.

(** *** GetRange *)

Lemma GetRange_fold (rest : list FileMetaData) :
  forall s l,
    let sl :=
      fold_left
        (fun (sl : InternalKey * InternalKey) (f : FileMetaData) =>
           let '(s, l) := sl in
           (if is_lt (icmp_Compare (smallest f) s) then smallest f else s,
            if is_gt (icmp_Compare (largest f) l) then largest f else l))
        rest (s, l) in
    icmp_Compare (fst sl) s <> Gt
    /\ icmp_Compare l (snd sl) <> Gt
    /\ (forall f, In f rest ->
          icmp_Compare (fst sl) (smallest f) <> Gt
          /\ icmp_Compare (largest f) (snd sl) <> Gt)
    /\ (fst sl = s \/ exists f, In f rest /\ fst sl = smallest f)
    /\ (snd sl = l \/ exists f, In f rest /\ snd sl = largest f).
Proof.
  induction rest as [|f rest IH]; intros s l; cbn [fold_left].
  - simpl. rewrite !icmp_refl. repeat split; auto; try discriminate.
  - set (s1 := if is_lt (icmp_Compare (smallest f) s) then smallest f else s).
    set (l1 := if is_gt (icmp_Compare (largest f) l) then largest f else l).
    destruct (IH s1 l1) as (H1 & H2 & H3 & H4 & H5).
    assert (icmp_Compare s1 s <> Gt /\ icmp_Compare s1 (smallest f) <> Gt)
      as [Hs1 Hs2].
    { subst s1. destruct (is_lt (icmp_Compare (smallest f) s)) eqn:E.
      - apply is_lt_true in E. rewrite icmp_refl, E. split; discriminate.
      - apply is_lt_false in E. rewrite icmp_refl. split; [discriminate|].
        rewrite icmp_gt_lt. exact E. }
    assert (icmp_Compare l l1 <> Gt /\ icmp_Compare (largest f) l1 <> Gt)
      as [Hl1 Hl2].
    { subst l1. destruct (is_gt (icmp_Compare (largest f) l)) eqn:E.
      - apply is_gt_true in E. rewrite icmp_refl. split; [|discriminate].
        apply icmp_gt_lt in E. rewrite E. discriminate.
      - apply is_gt_false in E. rewrite icmp_refl. split; [discriminate|].
        exact E. }
    split; [eapply icmp_le_trans; eauto|].
    split; [eapply icmp_le_trans; eauto|].
    split; [|split].
    + intros g [<-|Hg]; [|now apply H3].
      split; eapply icmp_le_trans; eauto.
    + destruct H4 as [H4|(g & Hg & H4)].
      * rewrite H4. subst s1.
        destruct (is_lt (icmp_Compare (smallest f) s));
          [right; exists f; split; [now left|reflexivity]|now left].
      * right. exists g. split; [now right|exact H4].
    + destruct H5 as [H5|(g & Hg & H5)].
      * rewrite H5. subst l1.
        destruct (is_gt (icmp_Compare (largest f) l));
          [right; exists f; split; [now left|reflexivity]|now left].
      * right. exists g. split; [now right|exact H5].
Qed.

Lemma GetRange_spec (inputs : list FileMetaData) :
  inputs <> [] ->
  exists s l,
    GetRange inputs = Some (s, l)
    /\ (forall f, In f inputs ->
          icmp_Compare s (smallest f) <> Gt
          /\ icmp_Compare (largest f) l <> Gt)
    /\ (exists f, In f inputs /\ s = smallest f)
    /\ (exists f, In f inputs /\ l = largest f).
Proof.
  destruct inputs as [|f0 rest]; [congruence|]. intros _. simpl.
  pose proof (GetRange_fold rest (smallest f0) (largest f0)) as H.
  simpl in H.
  destruct (fold_left _ rest (smallest f0, largest f0)) as [s l].
  simpl in H. destruct H as (H1 & H2 & H3 & H4 & H5).
  exists s, l. split; [reflexivity|]. split; [|split].
  - intros f [<-|Hf]; auto.
  - destruct H4 as [->|(g & Hg & ->)]; eauto.
  - destruct H5 as [->|(g & Hg & ->)]; eauto.
Qed.

(** X14.  On a vector that is not empty, [GetRange] returns the least of
    the smallest keys and the greatest of the largest keys of the files:
    the range covers every file, and each bound is the key of some file.
    On an empty vector the assertion aborts. *)
Theorem GetRange_least_and_greatest (inputs : list FileMetaData) :
  match GetRange inputs with
  | None => inputs = []
  | Some (s, l) =>
      (forall f, In f inputs ->
         icmp_Compare s (smallest f) <> Gt
         /\ icmp_Compare (largest f) l <> Gt)
      /\ (exists f, In f inputs /\ s = smallest f)
      /\ (exists f, In f inputs /\ l = largest f)
  end.
Proof.
  destruct inputs as [|f0 rest] eqn:E; [reflexivity|].
  destruct (GetRange_spec (f0 :: rest)) as (s & l & H & H1); [discriminate|].
  rewrite H. exact H1.
Qed.

(** *** SetupOtherInputs: what the compaction holds in the end *)

(** At every level, the scan returns every file of the level that meets
    the range asked for. *)
Lemma GetOverlappingInputs_contains (v : Version) (level : nat)
    (begin end_ : option InternalKey) (inputs : list FileMetaData)
    (f : FileMetaData) :
  GetOverlappingInputs v level begin end_ = Some inputs ->
  In f (files_ v level) -> overlaps_range begin end_ f = true ->
  In f inputs.
Proof.
  intros H Hf Ho. destruct (Nat.eq_dec level O) as [->|Hne].
  - destruct (GetOverlappingInputs_level0 v begin end_)
      as (ub' & ue' & H' & _ & Hb & He).
    rewrite H' in H. injection H as <-.
    apply filter_In. split; [exact Hf|].
    unfold overlaps_range, overlaps_window in *.
    apply andb_prop in Ho as [Ho1 Ho2].
    apply andb_true_intro; split.
    + destruct (isSome begin); simpl in *; auto.
      apply negb_true_iff in Ho1. apply negb_true_iff.
      apply is_lt_false in Ho1. apply is_lt_false. intros Hc.
      apply Ho1. eapply ucmp_lt_le_trans; eauto.
    + destruct (isSome end_); simpl in *; auto.
      apply negb_true_iff in Ho2. apply negb_true_iff.
      apply is_gt_false in Ho2. apply is_gt_false. intros Hc.
      apply ucmp_gt_lt in Hc. apply Ho2. apply ucmp_gt_lt.
      eapply ucmp_le_lt_trans; eauto.
  - rewrite GetOverlappingInputs_above_level0 in H by assumption.
    injection H as <-. apply filter_In. now split.
Qed.

(** A well-formed file that a range of internal keys covers meets that
    range by user keys. *)
Lemma covered_overlaps_range (s l : InternalKey) (f : FileMetaData) :
  wf_file f ->
  icmp_Compare s (smallest f) <> Gt -> icmp_Compare (largest f) l <> Gt ->
  overlaps_range (Some s) (Some l) f = true.
Proof.
  intros Hwf Hs Hl. apply wf_file_user in Hwf.
  apply icmp_user_le in Hs, Hl.
  unfold overlaps_range, overlaps_window. simpl.
  apply andb_true_intro. split; apply negb_true_iff.
  - apply is_lt_false. apply ucmp_not_lt_flip.
    eapply ucmp_le_trans; eauto.
  - apply is_gt_false. eapply ucmp_le_trans; eauto.
Qed.

(** The range of two vectors covers the files of both. *)
Lemma GetRange_least_bounds (inputs1 inputs2 : list FileMetaData)
    (s l : InternalKey) :
  GetRange2 inputs1 inputs2 = Some (s, l) ->
  forall f, In f (inputs1 ++ inputs2) ->
    icmp_Compare s (smallest f) <> Gt /\ icmp_Compare (largest f) l <> Gt.
Proof.
  unfold GetRange2. intros H f Hf.
  destruct (GetRange_spec (inputs1 ++ inputs2)) as (s' & l' & H' & Hb & _).
  { intros Hc. rewrite Hc in Hf. destruct Hf. }
  rewrite H in H'. injection H' as <- <-. now apply Hb.
Qed.

(** What [SetupOtherInputs] settles on: the inputs of the level, the
    inputs of the next level, the key stored as compaction pointer and
    the range handed to the scan of the grandparents. *)
Definition settled (current : Version) (level : nat)
    (inputs0 i0 i1 : list FileMetaData)
    (largest' all_start all_limit : InternalKey) : Prop :=
  (exists s', GetRange i0 = Some (s', largest')
              /\ GetOverlappingInputs current (level + 1)
                   (Some s') (Some largest') = Some i1)
  /\ GetRange2 i0 i1 = Some (all_start, all_limit)
  /\ (i0 = inputs0
      \/ exists a b,
           GetOverlappingInputs current level (Some a) (Some b) = Some i0
           /\ forall f, In f inputs0 ->
                icmp_Compare a (smallest f) <> Gt
                /\ icmp_Compare (largest f) b <> Gt).

Lemma SetupOtherInputs_expand_settled (current : Version) (level : nat)
    (inputs0 inputs1 : list FileMetaData)
    (s0 l0 all_start all_limit : InternalKey) :
  GetRange inputs0 = Some (s0, l0) ->
  GetOverlappingInputs current (level + 1) (Some s0) (Some l0)
  = Some inputs1 ->
  GetRange2 inputs0 inputs1 = Some (all_start, all_limit) ->
  exists i0 i1 largest' all_start' all_limit',
    SetupOtherInputs_expand current level inputs0 inputs1 l0
      all_start all_limit
    = Some (i0, i1, largest', all_start', all_limit')
    /\ settled current level inputs0 i0 i1 largest' all_start' all_limit'.
Proof.
  intros Hr0 H1 H2.
  assert (settled current level inputs0 inputs0 inputs1 l0
            all_start all_limit) as Hsame.
  { split; [eauto|]. split; [exact H2|now left]. }
  unfold SetupOtherInputs_expand.
  destruct (negb (Nat.eqb (length inputs1) 0)); [|eauto 10].
  destruct (GetOverlappingInputs_total current level
              (Some all_start) (Some all_limit)) as (expanded0 & He0 & _).
  rewrite He0.
  destruct ((length inputs0 <? length expanded0)%nat
            && (TotalFileSize inputs1 + TotalFileSize expanded0
                <? kExpandedCompactionByteSizeLimit)) eqn:Econd;
    [|eauto 10].
  apply andb_prop in Econd as [Elen _]. apply Nat.ltb_lt in Elen.
  destruct (GetRange_Some expanded0) as (ns & nl & Hnr).
  { intros ->. simpl in Elen. lia. }
  rewrite Hnr.
  destruct (GetOverlappingInputs_total current (level + 1)
              (Some ns) (Some nl)) as (expanded1 & He1 & _).
  rewrite He1.
  destruct (Nat.eqb (length expanded1) (length inputs1)); [|eauto 10].
  destruct (GetRange_Some (expanded0 ++ expanded1)) as (as' & al' & Hr2).
  { intros Hc. apply app_eq_nil in Hc as [-> _]. simpl in Elen. lia. }
  unfold GetRange2. rewrite Hr2.
  exists expanded0, expanded1, nl, as', al'. split; [reflexivity|].
  split; [eauto|]. split; [exact Hr2|].
  right. exists all_start, all_limit. split; [exact He0|].
  intros f Hf.
  pose proof (GetRange_least_bounds inputs0 inputs1 all_start all_limit H2)
    as Hb.
  apply Hb. apply in_or_app. now left.
Qed.

Lemma SetupOtherInputs_settled (vset : VersionSet) (c : Compaction) :
  inputs_0 c <> [] ->
  exists vset' c' largest' all_start all_limit,
    SetupOtherInputs vset c = Some (vset', c')
    /\ settled (current_ vset) (level_ c) (inputs_0 c)
         (inputs_0 c') (inputs_1 c') largest' all_start all_limit
    /\ vset' = set_compact_pointer vset (level_ c) largest'
    /\ edit_ c' = SetCompactPointer (edit_ c) (level_ c) largest'
    /\ (if (level_ c + 2 <? kNumLevels)%nat
        then GetOverlappingInputs (current_ vset) (level_ c + 2)
               (Some all_start) (Some all_limit) = Some (grandparents_ c')
        else grandparents_ c' = grandparents_ c)
    /\ level_ c' = level_ c
    /\ input_version_ c' = input_version_ c.
Proof.
  intros Hne. unfold SetupOtherInputs.
  destruct (GetRange_Some (inputs_0 c) Hne) as (s0 & l0 & Hr0).
  rewrite Hr0.
  destruct (GetOverlappingInputs_total (current_ vset) (level_ c + 1)
              (Some s0) (Some l0)) as (inputs1 & H1 & _).
  rewrite H1.
  destruct (GetRange_Some (inputs_0 c ++ inputs1)) as (as0 & al0 & Hr2).
  { intros Hc. apply app_eq_nil in Hc as [Hc _]. contradiction. }
  unfold GetRange2 at 1. rewrite Hr2.
  destruct (SetupOtherInputs_expand_settled (current_ vset) (level_ c)
              (inputs_0 c) inputs1 s0 l0 as0 al0 Hr0 H1 Hr2)
    as (i0 & i1 & largest' & as' & al' & He & Hs).
  rewrite He.
  destruct (level_ c + 2 <? kNumLevels)%nat eqn:Eg.
  - destruct (GetOverlappingInputs_total (current_ vset) (level_ c + 2)
                (Some as') (Some al')) as (gp & Hgp & _).
    rewrite Hgp. eexists _, _, largest', as', al'.
    split; [reflexivity|]. simpl. auto 10.
  - eexists _, _, largest', as', al'.
    split; [reflexivity|]. simpl. auto 10.
Qed.

(** X15.  Given a compaction with inputs at its level,
    [SetupOtherInputs] returns, and in the compaction it returns the
    inputs of level + 1 are exactly the files of that level that the scan
    finds overlapping the key range of the inputs of the level, as finally
    chosen; the compaction pointer of the level, in the version set and in
    the edit of the compaction, is the largest key of those inputs; and
    below the last two levels the grandparents are the files of
    level + 2 overlapping the range of all the inputs. *)
Theorem SetupOtherInputs_parents_cover (vset : VersionSet) (c : Compaction) :
  inputs_0 c <> [] ->
  exists vset' c' s l,
    SetupOtherInputs vset c = Some (vset', c')
    /\ GetRange (inputs_0 c') = Some (s, l)
    /\ GetOverlappingInputs (current_ vset) (level_ c + 1) (Some s) (Some l)
       = Some (inputs_1 c')
    /\ compact_pointer_ vset' (level_ c) = Some l
    /\ compact_pointers_ (edit_ c')
       = compact_pointers_ (edit_ c) ++ [(level_ c, l)]
    /\ ((level_ c + 2 < kNumLevels)%nat ->
        exists all_start all_limit,
          GetRange2 (inputs_0 c') (inputs_1 c') = Some (all_start, all_limit)
          /\ GetOverlappingInputs (current_ vset) (level_ c + 2)
               (Some all_start) (Some all_limit) = Some (grandparents_ c')).
Proof.
  intros Hne.
  destruct (SetupOtherInputs_settled vset c Hne)
    as (vset' & c' & l & as' & al' & H & Hs & Hv & He & Hg & _).
  destruct Hs as ((s & Hr & Ho) & Hr2 & _).
  exists vset', c', s, l. split; [exact H|]. split; [exact Hr|].
  split; [exact Ho|]. split; [|split].
  - subst vset'. simpl. now rewrite Nat.eqb_refl.
  - rewrite He. reflexivity.
  - intros Hl. apply Nat.ltb_lt in Hl. rewrite Hl in Hg.
    exists as', al'. now split.
Qed.

Lemma settled_incl (current : Version) (level : nat)
    (inputs0 i0 i1 : list FileMetaData) (l a b : InternalKey) :
  settled current level inputs0 i0 i1 l a b ->
  incl inputs0 (files_ current level) ->
  incl i0 (files_ current level)
  /\ (Forall wf_file inputs0 -> incl inputs0 i0).
Proof.
  intros (_ & _ & [->|(x & y & Ho & Hcov)]) Hincl.
  - split; [exact Hincl|]. intros _. apply incl_refl.
  - split.
    + destruct (GetOverlappingInputs_total current level (Some x) (Some y))
        as (r & Hr & Hi).
      rewrite Ho in Hr. injection Hr as <-. exact Hi.
    + intros Hwf f Hf. rewrite Forall_forall in Hwf.
      destruct (Hcov f Hf) as [Ha Hb].
      eapply GetOverlappingInputs_contains; eauto.
      apply covered_overlaps_range; auto.
Qed.

(** X16.  [SetupOtherInputs] only adds to the inputs of the level: when
    the inputs it is given are well-formed files of the level in the
    current version, each of them is among the inputs of the level of the
    compaction it returns, and all of those are files of the level. *)
Theorem SetupOtherInputs_keeps_inputs (vset : VersionSet) (c : Compaction)
    (vset' : VersionSet) (c' : Compaction) :
  Forall wf_file (inputs_0 c) ->
  incl (inputs_0 c) (files_ (current_ vset) (level_ c)) ->
  SetupOtherInputs vset c = Some (vset', c') ->
  incl (inputs_0 c) (inputs_0 c')
  /\ incl (inputs_0 c') (files_ (current_ vset) (level_ c)).
Proof.
  intros Hwf Hincl H.
  assert (inputs_0 c <> []) as Hne.
  { intros Hc. unfold SetupOtherInputs in H. rewrite Hc in H.
    discriminate. }
  destruct (SetupOtherInputs_settled vset c Hne)
    as (vset1 & c1 & l & as' & al' & H1 & Hs & _).
  rewrite H in H1. injection H1 as <- <-.
  destruct (settled_incl _ _ _ _ _ _ _ _ Hs Hincl) as [H1 H2].
  split; [now apply H2|exact H1].
Qed.

(** *** CompactRange: the compaction it returns *)

Lemma CompactRange_truncate_prefix (limit : Z) (inputs : list FileMetaData) :
  forall total,
    incl (CompactRange_truncate limit total inputs) inputs
    /\ (inputs <> [] -> CompactRange_truncate limit total inputs <> []).
Proof.
  induction inputs as [|f inputs IH]; intros total; simpl.
  - split; [apply incl_refl|congruence].
  - destruct (uint64 (total + file_size f) >=? limit).
    + split; [|discriminate]. intros g [<-|[]]. now left.
    + split; [|discriminate].
      destruct (IH (uint64 (total + file_size f))) as [Hi _].
      intros g [<-|Hg]; [now left|]. right. now apply Hi.
Qed.

(** X17.  [CompactRange] never aborts.  It returns [NULL] only when no
    file of the level in the current version meets the range, and then
    leaves the version set as it was; otherwise it returns a compaction of
    that level over the current version with at least one input at the
    level, its inputs being files of the level and of the next level. *)
Theorem CompactRange_result (vset : VersionSet) (level : nat)
    (begin end_ : option InternalKey) :
  exists vset' result,
    CompactRange vset level begin end_ = Some (vset', result)
    /\ match result with
       | None =>
           vset' = vset
           /\ forall f, In f (files_ (current_ vset) level) ->
                overlaps_range begin end_ f = false
       | Some c =>
           level_ c = level
           /\ input_version_ c = Some (current_ vset)
           /\ inputs_0 c <> []
           /\ incl (inputs_0 c) (files_ (current_ vset) level)
           /\ incl (inputs_1 c) (files_ (current_ vset) (level + 1))
       end.
Proof.
  unfold CompactRange, CompactRange_inputs.
  destruct (GetOverlappingInputs_total (current_ vset) level begin end_)
    as (inputs & Hin & Hincl).
  rewrite Hin. destruct (Nat.eqb (length inputs) 0) eqn:Elen.
  - exists vset, None. split; [reflexivity|]. split; [reflexivity|].
    apply Nat.eqb_eq in Elen. destruct inputs; [|discriminate].
    intros f Hf. destruct (overlaps_range begin end_ f) eqn:Eo; auto.
    destruct (GetOverlappingInputs_contains _ _ _ _ _ f Hin Hf Eo).
  - apply Nat.eqb_neq in Elen.
    assert (inputs <> []) as Hne by (intros ->; now apply Elen).
    destruct (CompactRange_truncate_prefix (MaxFileSizeForLevel level)
                inputs 0) as [Hti Htn].
    specialize (Htn Hne).
    match goal with
    | |- context [SetupOtherInputs vset ?c0] =>
        destruct (SetupOtherInputs_settled vset c0 Htn)
          as (vset' & c' & l & as' & al' & H & Hs & _ & _ & _ & Hl & Hv)
    end.
    rewrite H. exists vset', (Some c'). split; [reflexivity|].
    simpl in Hs, Hl, Hv.
    destruct Hs as ((s & Hr & Ho) & _ & H0).
    split; [exact Hl|]. split; [exact Hv|]. split; [|split].
    + intros Hc. rewrite Hc in Hr. discriminate.
    + destruct H0 as [->|(a & b & Hab & _)].
      * intros f Hf. apply Hincl. now apply Hti.
      * destruct (GetOverlappingInputs_total (current_ vset) level
                    (Some a) (Some b)) as (r & Hr' & Hi).
        rewrite Hab in Hr'. injection Hr' as <-. exact Hi.
    + destruct (GetOverlappingInputs_total (current_ vset) (level + 1)
                  (Some s) (Some l)) as (r & Hr' & Hi).
      rewrite Ho in Hr'. injection Hr' as <-. exact Hi.
Qed.

(** *** PickCompaction *)

(** [f] comes after the compaction pointer; every file does when the
    pointer is empty. *)
Definition after_pointer (p : option InternalKey) (f : FileMetaData) : Prop :=
  match p with
  | None => True
  | Some p => icmp_Compare (largest f) p = Gt
  end.

(** The file with which a size compaction of a level starts: the first
    file of the level that comes after the compaction pointer, and the
    first file of the level when there is none. *)
Definition round_robin (files : list FileMetaData)
    (p : option InternalKey) (f : FileMetaData) : Prop :=
  (exists before rest,
     files = before ++ f :: rest /\ after_pointer p f
     /\ forall g, In g before -> ~ after_pointer p g)
  \/ ((forall g, In g files -> ~ after_pointer p g)
      /\ hd_error files = Some f).

Lemma PickCompaction_first_spec (files : list FileMetaData)
    (p : option InternalKey) :
  match PickCompaction_first files p with
  | Some f =>
      exists before rest,
        files = before ++ f :: rest /\ after_pointer p f
        /\ forall g, In g before -> ~ after_pointer p g
  | None => forall g, In g files -> ~ after_pointer p g
  end.
Proof.
  induction files as [|f files IH]; simpl; [intros g []|].
  destruct p as [p|]; simpl.
  - destruct (is_gt (icmp_Compare (largest f) p)) eqn:E.
    + apply is_gt_true in E. exists [], files. simpl. auto.
    + apply is_gt_false in E.
      destruct (PickCompaction_first files (Some p)) as [g|].
      * destruct IH as (before & rest & -> & Hg & Hb).
        exists (f :: before), rest. split; [reflexivity|].
        split; [exact Hg|]. intros h [<-|Hh]; [exact E|now apply Hb].
      * intros g [<-|Hg]; [exact E|now apply IH].
  - exists [], files. simpl. auto.
Qed.

(** What [Finalize] leaves in the version: the initial values, or a
    level below the last one and the score of that level. *)
Lemma Finalize_loop_picks (v : Version) (levels : list nat) :
  forall bl bs,
    Finalize_loop v levels bl bs = (bl, bs)
    \/ exists level,
         In level levels
         /\ Finalize_loop v levels bl bs
            = (Z.of_nat level, Finalize_score v level).
Proof.
  induction levels as [|l levels IH]; intros bl bs; simpl; [now left|].
  destruct (double_gt (Finalize_score v l) bs).
  - destruct (IH (Z.of_nat l) (Finalize_score v l))
      as [H|(level & Hl & H)]; rewrite H; right; eauto.
  - destruct (IH bl bs) as [H|(level & Hl & H)]; rewrite H; [now left|].
    right. eauto.
Qed.

Lemma Finalize_level_and_score (v : Version) :
  (compaction_level_ (Finalize v) = -1
   /\ compaction_score_ (Finalize v) = double_of_Z (-1))
  \/ exists level,
       (level + 1 < kNumLevels)%nat
       /\ compaction_level_ (Finalize v) = Z.of_nat level
       /\ compaction_score_ (Finalize v) = Finalize_score v level.
Proof.
  unfold Finalize.
  destruct (Finalize_loop_picks v (seq 0 (kNumLevels - 1)) (-1)
              (double_of_Z (-1))) as [H|(level & Hl & H)]; rewrite H; simpl.
  - now left.
  - right. exists level. apply in_seq in Hl. simpl in Hl.
    split; [unfold kNumLevels; lia|]. now split.
Qed.

(** A level without files has a score below 1. *)
Lemma Finalize_score_empty (v : Version) (level : nat) :
  (level + 1 < kNumLevels)%nat -> files_ v level = [] ->
  double_ge (Finalize_score v level) (double_of_Z 1) = false.
Proof.
  intros Hl Hf. unfold Finalize_score. rewrite Hf.
  unfold kNumLevels in Hl.
  do 6 (destruct level as [|level]; [vm_compute; reflexivity|]).
  lia.
Qed.

Lemma Finalize_files (v : Version) : files_ (Finalize v) = files_ v.
Proof.
  unfold Finalize. now destruct (Finalize_loop _ _ _ _).
Qed.

(** From the level and the file picked to the compaction returned. *)
Lemma PickCompaction_from_pick (vset : VersionSet) (level : nat)
    (f : FileMetaData) :
  PickCompaction_pick vset = Some (Some (level, f)) ->
  In f (files_ (current_ vset) level) ->
  Forall wf_file (files_ (current_ vset) level) ->
  exists vset' c,
    PickCompaction vset = Some (vset', Some c)
    /\ level_ c = level
    /\ input_version_ c = Some (current_ vset)
    /\ In f (inputs_0 c)
    /\ incl (inputs_0 c) (files_ (current_ vset) level)
    /\ incl (inputs_1 c) (files_ (current_ vset) (level + 1)).
Proof.
  intros Hpick Hf Hwf. unfold PickCompaction. rewrite Hpick.
  pose proof Hwf as Hwf'. rewrite Forall_forall in Hwf'.
  assert (exists inputs,
            (if Nat.eqb level 0 then
               match GetRange [f] with
               | Some (smallest, largest) =>
                   match GetOverlappingInputs (current_ vset) 0
                           (Some smallest) (Some largest) with
                   | Some inputs =>
                       if Nat.eqb (length inputs) 0 then None
                       else Some inputs
                   | None => None
                   end
               | None => None
               end
             else Some [f]) = Some inputs
            /\ In f inputs
            /\ incl inputs (files_ (current_ vset) level))
    as (inputs & Hinputs & Hfin & Hincl).
  { destruct (Nat.eqb level 0) eqn:E0.
    - apply Nat.eqb_eq in E0. subst level. simpl GetRange.
      destruct (GetOverlappingInputs_total (current_ vset) 0
                  (Some (smallest f)) (Some (largest f)))
        as (inputs & Hin & Hincl).
      rewrite Hin.
      assert (In f inputs) as Hfin.
      { eapply GetOverlappingInputs_contains; eauto.
        apply covered_overlaps_range; auto; rewrite icmp_refl; discriminate. }
      exists inputs. destruct inputs as [|g inputs]; [destruct Hfin|].
      simpl. auto.
    - exists [f]. split; [reflexivity|]. split; [now left|].
      intros g [<-|[]]. exact Hf. }
  rewrite Hinputs.
  assert (inputs <> []) as Hne by (intros ->; destruct Hfin).
  match goal with
  | |- context [SetupOtherInputs vset ?c0] =>
      destruct (SetupOtherInputs_settled vset c0 Hne)
        as (vset' & c' & l & as' & al' & H & Hs & _ & _ & _ & Hl & Hv)
  end.
  rewrite H. exists vset', c'. split; [reflexivity|].
  simpl in Hs, Hl, Hv.
  destruct (settled_incl _ _ _ _ _ _ _ _ Hs Hincl) as [H1 H2].
  split; [exact Hl|]. split; [exact Hv|]. split; [|split; [exact H1|]].
  - apply H2; [|exact Hfin].
    apply Forall_forall. intros g Hg. apply Hwf'. now apply Hincl.
  - destruct Hs as ((s & Hr & Ho) & _).
    destruct (GetOverlappingInputs_total (current_ vset) (level + 1)
                (Some s) (Some l)) as (r & Hr' & Hi).
    rewrite Ho in Hr'. injection Hr' as <-. exact Hi.
Qed.

(** X18.  When the current version is one that [Finalize] has scored and
    its score is at least 1, [PickCompaction] does not abort, whether or
    not a file has used up its seeks: it returns a compaction of the
    level that [Finalize] recorded, which is not the last level, over the
    current version.  The inputs of the level are files of the level and
    contain the file chosen in turn: the first file of the level whose
    largest key is after the compaction pointer of the level, or the
    first file of the level when there is none or the pointer is empty.
    The files are tables with [smallest <= largest]. *)
Theorem PickCompaction_size_triggered (vset : VersionSet) (v : Version) :
  current_ vset = Finalize v ->
  double_ge (compaction_score_ (current_ vset)) (double_of_Z 1) = true ->
  (forall level, (level < kNumLevels)%nat -> Forall wf_file (files_ v level)) ->
  exists vset' c f,
    PickCompaction vset = Some (vset', Some c)
    /\ compaction_level_ (current_ vset) = Z.of_nat (level_ c)
    /\ (level_ c + 1 < kNumLevels)%nat
    /\ input_version_ c = Some (current_ vset)
    /\ round_robin (files_ v (level_ c)) (compact_pointer_ vset (level_ c)) f
    /\ In f (inputs_0 c)
    /\ incl (inputs_0 c) (files_ v (level_ c))
    /\ incl (inputs_1 c) (files_ v (level_ c + 1)).
Proof.
  intros Hcur Hscore Hwf.
  destruct (Finalize_level_and_score v) as [[_ Hs]|(level & Hl & Hlv & Hs)].
  { rewrite Hcur, Hs in Hscore. vm_compute in Hscore. discriminate. }
  assert (files_ v level <> []) as Hne.
  { intros Hc. rewrite Hcur, Hs in Hscore.
    rewrite Finalize_score_empty in Hscore by assumption. discriminate. }
  assert (exists f,
            PickCompaction_pick vset = Some (Some (level, f))
            /\ round_robin (files_ v level) (compact_pointer_ vset level) f)
    as (f & Hpick & Hrr).
  { unfold PickCompaction_pick. rewrite Hscore.
    rewrite Hcur, Hlv, Finalize_files.
    assert ((Z.of_nat level <? 0)
            || negb (Z.of_nat level + 1 <? Z.of_nat kNumLevels) = false)
      as ->.
    { apply orb_false_intro; [apply Z.ltb_ge; lia|].
      apply negb_false_iff. apply Z.ltb_lt. lia. }
    rewrite Nat2Z.id.
    pose proof (PickCompaction_first_spec (files_ v level)
                  (compact_pointer_ vset level)) as Hfirst.
    destruct (PickCompaction_first (files_ v level)
                (compact_pointer_ vset level)) as [f|].
    - exists f. split; [reflexivity|]. now left.
    - destruct (files_ v level) as [|f files] eqn:Ef; [congruence|].
      exists f. split; [reflexivity|]. right. now split. }
  assert (In f (files_ v level)) as Hf.
  { destruct Hrr as [(before & rest & -> & _)|[_ Hhd]].
    - apply in_or_app. right. now left.
    - destruct (files_ v level) as [|g files]; [discriminate|].
      injection Hhd as ->. now left. }
  destruct (PickCompaction_from_pick vset level f Hpick)
    as (vset' & c & H & H1 & H2 & H3 & H4 & H5).
  - now rewrite Hcur, Finalize_files.
  - rewrite Hcur, Finalize_files. apply Hwf. lia.
  - exists vset', c, f. rewrite Hcur, Finalize_files in H4, H5.
    rewrite H1. split; [exact H|].
    split; [now rewrite Hcur|]. split; [exact Hl|].
    repeat (split; [assumption|]). exact H5.
Qed.

(** X19.  When the score of the current version is below 1 and a file of
    the version has used up its seeks, [PickCompaction] returns a
    compaction of the level recorded for that file, over the current
    version, whose inputs of the level are files of the level and contain
    that file.  The files of the level are tables with
    [smallest <= largest]. *)
Theorem PickCompaction_seek_triggered (vset : VersionSet) (level : nat)
    (f : FileMetaData) :
  double_ge (compaction_score_ (current_ vset)) (double_of_Z 1) = false ->
  file_to_compact_ (current_ vset) = Some f ->
  file_to_compact_level_ (current_ vset) = Z.of_nat level ->
  In f (files_ (current_ vset) level) ->
  Forall wf_file (files_ (current_ vset) level) ->
  exists vset' c,
    PickCompaction vset = Some (vset', Some c)
    /\ level_ c = level
    /\ input_version_ c = Some (current_ vset)
    /\ In f (inputs_0 c)
    /\ incl (inputs_0 c) (files_ (current_ vset) level)
    /\ incl (inputs_1 c) (files_ (current_ vset) (level + 1)).
Proof.
  intros Hscore Hfile Hlevel Hf Hwf.
  apply PickCompaction_from_pick; auto.
  unfold PickCompaction_pick. rewrite Hscore, Hfile, Hlevel.
  assert ((Z.of_nat level <? 0) = false) as -> by (apply Z.ltb_ge; lia).
  now rewrite Nat2Z.id.
Qed.

(** X20.  When the current version is one that [Finalize] has scored, no
    level below the last one has a score of 1 or more, and no file has
    used up its seeks, [PickCompaction] returns [NULL] and leaves the
    version set as it was. *)
Theorem PickCompaction_nothing_to_do (vset : VersionSet) (v : Version) :
  current_ vset = Finalize v ->
  (forall level, (level + 1 < kNumLevels)%nat ->
     double_ge (Finalize_score v level) (double_of_Z 1) = false) ->
  file_to_compact_ v = None ->
  PickCompaction vset = Some (vset, None).
Proof.
  intros Hcur Hscores Hfile.
  unfold PickCompaction, PickCompaction_pick. rewrite Hcur.
  assert (double_ge (compaction_score_ (Finalize v)) (double_of_Z 1) = false)
    as ->.
  { destruct (Finalize_level_and_score v) as [[_ Hs]|(level & Hl & _ & Hs)];
      rewrite Hs; [vm_compute; reflexivity|now apply Hscores]. }
  assert (file_to_compact_ (Finalize v) = None) as ->; [|reflexivity].
  unfold Finalize. now destruct (Finalize_loop _ _ _ _).
Qed.

(** *** Compaction::IsBaseLevelForKey *)

(** Every file of the level before position [p] ends before [k]. *)
Definition behind (v : Version) (k : Slice) (lvl p : nat) : Prop :=
  forall j f, (j < p)%nat -> nth_error (files_ v lvl) j = Some f ->
    Compare (file_limit f) k = Lt.

Definition start_le (f g : FileMetaData) : Prop :=
  Compare (file_start f) (file_start g) <> Gt.

Lemma Sorted_smallest_le_start (files : list FileMetaData) :
  Sorted smallest_le files -> StronglySorted start_le files.
Proof.
  intros Hs.
  apply Sorted_StronglySorted in Hs;
    [|intros f g h; apply smallest_le_trans].
  induction Hs as [|f files Hs IH Hf]; constructor; auto.
  rewrite Forall_forall in *. intros g Hg.
  unfold start_le, file_start. apply icmp_user_le. now apply Hf.
Qed.

Lemma skipn_nth_error_cons {A} (l : list A) (n : nat) (x : A) (rest : list A) :
  skipn n l = x :: rest -> nth_error l n = Some x /\ skipn (S n) l = rest.
Proof.
  revert n. induction l as [|a l IH]; intros [|n] H; simpl in *;
    try discriminate.
  - injection H as -> ->. auto.
  - now apply IH.
Qed.

Lemma skipn_nil_length {A} (l : list A) (n : nat) :
  skipn n l = [] -> (length l <= n)%nat.
Proof.
  revert n. induction l as [|a l IH]; intros [|n] H; simpl in *;
    try discriminate; try lia.
  apply IH in H. lia.
Qed.

Lemma IsBaseLevelForKey_scan_spec (v : Version) (k : Slice) (lvl : nat) :
  StronglySorted start_le (files_ v lvl) ->
  forall rest ptr,
    skipn ptr (files_ v lvl) = rest ->
    behind v k lvl ptr ->
    let '(ptr', found) := IsBaseLevelForKey_scan k rest ptr in
    (forall k', Compare k k' <> Gt -> behind v k' lvl ptr')
    /\ (found = true -> exists f, In f (files_ v lvl) /\ covers k f)
    /\ (found = false -> forall f, In f (files_ v lvl) -> ~ covers k f).
Proof.
  intros Hsorted.
  assert (forall p k', behind v k lvl p -> Compare k k' <> Gt ->
            behind v k' lvl p) as Hmono.
  { intros p k' Hb Hk j f Hj Hf.
    eapply ucmp_lt_le_trans; eauto. }
  induction rest as [|f rest IH]; intros ptr Hskip Hbehind; simpl.
  - split; [intros k' Hk; now apply Hmono|]. split; [discriminate|].
    intros _ f Hf [_ Hc]. apply In_nth_error in Hf as (j & Hj).
    apply skipn_nil_length in Hskip.
    assert (j < length (files_ v lvl))%nat
      by (apply nth_error_Some; congruence).
    apply Hc. apply ucmp_gt_lt. apply (Hbehind j); auto. lia.
  - apply skipn_nth_error_cons in Hskip as [Hptr Hskip].
    destruct (is_gt (Compare k (user_key (largest f)))) eqn:E; simpl.
    + apply is_gt_true in E. apply IH; [exact Hskip|].
      intros j g Hj Hg. destruct (Nat.eq_dec j ptr) as [->|Hne].
      * rewrite Hptr in Hg. injection Hg as <-. now apply ucmp_gt_lt.
      * apply (Hbehind j); auto. lia.
    + apply is_gt_false in E.
      split; [intros k' Hk; now apply Hmono|]. split.
      * intros Hfound. apply negb_true_iff, is_lt_false in Hfound.
        exists f. split; [eapply nth_error_In; eauto|]. now split.
      * intros Hfound. apply negb_false_iff, is_lt_true in Hfound.
        intros g Hg [Hc1 Hc2]. apply In_nth_error in Hg as (j & Hj).
        destruct (Nat.lt_trichotomy j ptr) as [Hlt|[->|Hgt]].
        -- apply Hc2. apply ucmp_gt_lt. now apply (Hbehind j).
        -- rewrite Hptr in Hj. injection Hj as <-. contradiction.
        -- assert (start_le f g) as Hfg
             by (eapply (StronglySorted_nth_error _ _ Hsorted ptr j); eauto).
           apply Hc1. eapply ucmp_lt_le_trans; eauto.
Qed.

Lemma IsBaseLevelForKey_levels_spec (v : Version) (k : Slice)
    (lvls : list nat) :
  (forall lvl, In lvl lvls -> StronglySorted start_le (files_ v lvl)) ->
  forall ptrs,
    (forall lvl, behind v k lvl (ptrs lvl)) ->
    let '(ptrs', r) := IsBaseLevelForKey_levels v k lvls ptrs in
    (forall k', Compare k k' <> Gt -> forall lvl, behind v k' lvl (ptrs' lvl))
    /\ (r = true ->
        forall lvl f, In lvl lvls -> In f (files_ v lvl) -> ~ covers k f)
    /\ (r = false ->
        exists lvl f, In lvl lvls /\ In f (files_ v lvl) /\ covers k f).
Proof.
  assert (forall p k' lvl, behind v k lvl p -> Compare k k' <> Gt ->
            behind v k' lvl p) as Hmono.
  { intros p k' lvl Hb Hk j f Hj Hf.
    eapply ucmp_lt_le_trans; eauto. }
  induction lvls as [|lvl lvls IH]; intros Hsorted ptrs Hbehind; simpl.
  - split; [intros k' Hk l; now apply Hmono|].
    split; [intros _ l f []|discriminate].
  - pose proof (IsBaseLevelForKey_scan_spec v k lvl
                  (Hsorted lvl (or_introl eq_refl))
                  (skipn (ptrs lvl) (files_ v lvl)) (ptrs lvl) eq_refl
                  (Hbehind lvl)) as Hscan.
    destruct (IsBaseLevelForKey_scan k (skipn (ptrs lvl) (files_ v lvl))
                (ptrs lvl)) as [ptr found].
    destruct Hscan as (Hb & Ht & Hf).
    assert (forall l,
              behind v k l (if Nat.eqb l lvl then ptr else ptrs l)) as Hb'.
    { intros l. destruct (Nat.eqb l lvl) eqn:E; [|apply Hbehind].
      apply Nat.eqb_eq in E. subst l. apply Hb. rewrite ucmp_refl.
      discriminate. }
    destruct found.
    + split; [intros k' Hk l; eapply Hmono; eauto|].
      split; [discriminate|]. intros _.
      destruct (Ht eq_refl) as (f & Hfin & Hc).
      exists lvl, f. simpl. auto.
    + specialize (IH (fun l Hl => Hsorted l (or_intror Hl)) _ Hb').
      destruct (IsBaseLevelForKey_levels v k lvls _) as [ptrs' r].
      destruct IH as (I1 & I2 & I3).
      split; [exact I1|]. split.
      * intros Hr l f [<-|Hl] Hfin; [now apply Hf|now apply (I2 Hr l)].
      * intros Hr. destruct (I3 Hr) as (l & f & Hl & Hfin & Hc).
        exists l, f. simpl. auto.
Qed.

(** X21.  [IsBaseLevelForKey] on a compaction whose input version has
    the levels from [level + 2] on ordered by smallest key, called with a
    user key [k] such that every file before a level pointer ends before
    [k] (as is the case when the pointers are fresh, and when the earlier
    calls were made with keys not above [k]): it answers [true] exactly
    when no file of a level from [level + 2] on has a user-key range
    containing [k], and it leaves the pointers such that every file
    before a pointer ends before any key not below [k]. *)
Theorem IsBaseLevelForKey_correct (c : Compaction) (v : Version)
    (k : Slice) :
  input_version_ c = Some v ->
  (forall lvl, (level_ c + 2 <= lvl < kNumLevels)%nat ->
     Sorted smallest_le (files_ v lvl)) ->
  (forall lvl, behind v k lvl (level_ptrs_ c lvl)) ->
  exists c' r,
    IsBaseLevelForKey c k = Some (c', r)
    /\ (r = true <->
        forall lvl f, (level_ c + 2 <= lvl < kNumLevels)%nat ->
          In f (files_ v lvl) -> ~ covers k f)
    /\ (forall k', Compare k k' <> Gt ->
          forall lvl, behind v k' lvl (level_ptrs_ c' lvl)).
Proof.
  intros Hv Hsorted Hbehind. unfold IsBaseLevelForKey. rewrite Hv.
  pose proof (IsBaseLevelForKey_levels_spec v k
                (seq (level_ c + 2) (kNumLevels - (level_ c + 2)))) as H.
  assert (forall lvl,
            In lvl (seq (level_ c + 2) (kNumLevels - (level_ c + 2)))
            <-> (level_ c + 2 <= lvl < kNumLevels)%nat) as Hseq
    by (intros lvl; rewrite in_seq; lia).
  specialize (H (fun lvl Hl =>
                   Sorted_smallest_le_start _
                     (Hsorted lvl (proj1 (Hseq lvl) Hl)))
                (level_ptrs_ c) Hbehind).
  destruct (IsBaseLevelForKey_levels v k _ (level_ptrs_ c)) as [ptrs r].
  destruct H as (H1 & H2 & H3).
  eexists _, r. split; [reflexivity|]. split; [|exact H1].
  split.
  - intros Hr lvl f Hl. apply H2; [exact Hr|]. now apply Hseq.
  - intros Hnone. destruct r; [reflexivity|].
    destruct (H3 eq_refl) as (lvl & f & Hl & Hf & Hc).
    destruct (Hnone lvl f (proj1 (Hseq lvl) Hl) Hf Hc).
Qed.

(** *** Compaction::IsTrivialMove and Compaction::AddInputDeletions *)

Lemma filter_none {A} (p : A -> bool) (l : list A) :
  (forall x, In x l -> p x = false) -> filter p l = [].
Proof.
  induction l as [|x l IH]; intros H; simpl; [reflexivity|].
  rewrite (H x) by (now left). apply IH. intros y Hy. apply H. now right.
Qed.

(** X22.  A compaction set up from a single file of its level that no
    file of the next level overlaps is a trivial move, provided that the
    files of level + 2 overlapping the file hold no more than
    [kMaxGrandParentOverlapBytes] bytes: [SetupOtherInputs] leaves the
    file as the only input, finds no input at the next level, and
    [IsTrivialMove] answers [true]. *)
Theorem IsTrivialMove_single_file (vset : VersionSet) (c : Compaction)
    (f : FileMetaData) :
  inputs_0 c = [f] ->
  grandparents_ c = [] ->
  (forall g, In g (files_ (current_ vset) (level_ c + 1)) ->
     overlaps_range (Some (smallest f)) (Some (largest f)) g = false) ->
  TotalFileSize
    (filter (overlaps_range (Some (smallest f)) (Some (largest f)))
       (files_ (current_ vset) (level_ c + 2)))
  <= kMaxGrandParentOverlapBytes ->
  exists vset' c',
    SetupOtherInputs vset c = Some (vset', c')
    /\ inputs_0 c' = [f] /\ inputs_1 c' = []
    /\ IsTrivialMove c' = true.
Proof.
  intros Hin Hgp Hnone Hsize. unfold SetupOtherInputs.
  rewrite Hin. simpl GetRange. cbv beta iota.
  rewrite GetOverlappingInputs_above_level0 by lia.
  rewrite (filter_none _ _ Hnone).
  unfold GetRange2. simpl app. simpl GetRange. cbv beta iota.
  unfold SetupOtherInputs_expand. simpl length. simpl negb.
  cbv beta iota.
  destruct (level_ c + 2 <? kNumLevels)%nat.
  - rewrite GetOverlappingInputs_above_level0 by lia.
    eexists _, _. split; [reflexivity|]. simpl.
    split; [reflexivity|]. split; [reflexivity|].
    unfold IsTrivialMove. simpl. now apply Z.leb_le.
  - eexists _, _. split; [reflexivity|]. simpl.
    split; [reflexivity|]. split; [reflexivity|].
    unfold IsTrivialMove. simpl. rewrite Hgp. reflexivity.
Qed.

Lemma DeletedFileSet_insert_In (d x : nat * Z) (s : list (nat * Z)) :
  In x (DeletedFileSet_insert d s) <-> x = d \/ In x s.
Proof.
  induction s as [|y s IH]; simpl; [intuition congruence|].
  destruct ((fst d <? fst y)%nat
            || (Nat.eqb (fst d) (fst y) && (snd d <? snd y))) eqn:E1;
    [simpl; intuition congruence|].
  destruct ((fst y <? fst d)%nat
            || (Nat.eqb (fst y) (fst d) && (snd y <? snd d))) eqn:E2.
  - simpl. rewrite IH. intuition congruence.
  - assert (y = d) as ->.
    { apply orb_false_elim in E1 as [A1 A2].
      apply orb_false_elim in E2 as [B1 B2].
      apply Nat.ltb_ge in A1, B1.
      assert (fst d = fst y) as Hfst by lia.
      rewrite Hfst, Nat.eqb_refl in A2, B2. simpl in A2, B2.
      apply Z.ltb_ge in A2, B2.
      destruct d, y. simpl in *. f_equal; lia. }
    simpl. intuition congruence.
Qed.

Lemma DeleteFile_fold (level : nat) (fs : list FileMetaData) :
  forall e,
    let e' := fold_left (fun e f => DeleteFile e level (number f)) fs e in
    new_files_ e' = new_files_ e
    /\ forall x, In x (deleted_files_ e') <->
         In x (deleted_files_ e)
         \/ exists f, In f fs /\ x = (level, number f).
Proof.
  induction fs as [|f fs IH]; intros e; simpl.
  - split; [reflexivity|]. intros x. split; [auto|].
    intros [H|(f & [] & _)]. exact H.
  - destruct (IH (DeleteFile e level (number f))) as [H1 H2].
    split; [rewrite H1; reflexivity|].
    intros x. rewrite H2. simpl. rewrite DeletedFileSet_insert_In.
    split.
    + intros [[->|H]|(g & Hg & ->)]; eauto.
    + intros [H|(g & [<-|Hg] & ->)]; eauto.
Qed.

Lemma AddInputDeletions_fields (c : Compaction) (edit : VersionEdit) :
  new_files_ (AddInputDeletions c edit) = new_files_ edit
  /\ forall x, In x (deleted_files_ (AddInputDeletions c edit)) <->
       In x (deleted_files_ edit)
       \/ (exists f, In f (inputs_0 c) /\ x = (level_ c, number f))
       \/ (exists f, In f (inputs_1 c) /\ x = ((level_ c + 1)%nat, number f)).
Proof.
  unfold AddInputDeletions.
  destruct (DeleteFile_fold (level_ c + 0) (inputs_0 c) edit) as [A1 A2].
  match goal with
  | |- context [fold_left _ (inputs_1 c) ?e1] =>
      destruct (DeleteFile_fold (level_ c + 1) (inputs_1 c) e1) as [B1 B2]
  end.
  split; [now rewrite B1, A1|].
  intros x. rewrite B2, A2. rewrite Nat.add_0_r. tauto.
Qed.

(** X23.  Apply to a builder on a base version an edit to which
    [AddInputDeletions] has added the inputs of a compaction, and let
    [SaveTo] construct a version.  Then the new version holds, at the
    level of the compaction, no file with the number of an input of that
    level, and at the next level no file with the number of an input of
    the next level, unless the edit adds a file of that number at that
    level. *)
Theorem AddInputDeletions_removes_inputs (vset : VersionSet)
    (base : Version) (c : Compaction) (edit : VersionEdit) (v : Version) :
  SaveTo (snd (Apply (vset, new_Builder base) (AddInputDeletions c edit)))
    new_Version = Some v ->
  (level_ c + 1 < kNumLevels)%nat ->
  (forall f g,
     In f (inputs_0 c) -> In g (files_ v (level_ c)) ->
     number g = number f ->
     exists f0, In (level_ c, f0) (new_files_ edit) /\ number f0 = number f)
  /\ (forall f g,
        In f (inputs_1 c) -> In g (files_ v (level_ c + 1)%nat) ->
        number g = number f ->
        exists f0, In ((level_ c + 1)%nat, f0) (new_files_ edit)
                   /\ number f0 = number f).
Proof.
  intros Hsave Hlevel.
  destruct (AddInputDeletions_fields c edit) as [Hnew Hdel].
  assert (forall l n g,
            (l < kNumLevels)%nat ->
            In (l, n) (deleted_files_ (AddInputDeletions c edit)) ->
            In g (files_ v l) -> number g = n ->
            exists f0, In (l, f0) (new_files_ edit) /\ number f0 = n) as H.
  { intros l n g Hl Hd Hg Hn.
    rewrite (SaveTo_exact _ _ l Hsave Hl) in Hg.
    apply filter_In in Hg as [_ Hk].
    unfold kept in Hk. apply negb_true_iff in Hk.
    destruct (added_number_dec (new_files_ edit) l n) as [Hadd|Hadd];
      [exact Hadd|].
    assert (ZSet.mem (number g)
              (deleted_files
                 (levels_ (snd (Apply (vset, new_Builder base)
                                  (AddInputDeletions c edit))) l))
            = true) as E.
    { apply Apply_one_deleted. rewrite Hnew, Hn. auto. }
    congruence. }
  split.
  - intros f g Hf Hg Hn. apply (H (level_ c) (number f) g); auto; [lia|].
    apply Hdel. right. left. eauto.
  - intros f g Hf Hg Hn. apply (H (level_ c + 1)%nat (number f) g); auto.
    apply Hdel. right. right. eauto.
Qed.

(** *** SomeFileOverlapsRange and PickLevelForMemTableOutput *)

(** [f] meets the range of user keys from [s] to [l]; an absent bound
    leaves the range open on that side. *)
Definition meets (s l : option Slice) (f : FileMetaData) : Prop :=
  AfterFile s f = false /\ BeforeFile l f = false.

Section SeekKeyProperties.

Variable kMaxSequenceNumber : Z.
Variable kValueTypeForSeek : ValueType.
Variable kMaxMemCompactLevel : nat.

(** The 8-byte suffix of the keys that [seek_key] builds. *)
Definition seek_tag : Z :=
  PackSequenceAndType
    (seek_key kMaxSequenceNumber kValueTypeForSeek EmptyString).

(** No largest key of the files has a suffix above that of the seek
    keys: the sequence numbers are at most [kMaxSequenceNumber]. *)
Definition tags_in_range (files : list FileMetaData) : Prop :=
  Forall (fun f => PackSequenceAndType (largest f) <= seek_tag) files.

Lemma seek_key_below (f : FileMetaData) (k : Slice) :
  PackSequenceAndType (largest f) <= seek_tag ->
  (icmp_Compare (largest f)
     (seek_key kMaxSequenceNumber kValueTypeForSeek k) = Lt
   <-> Compare (file_limit f) k = Lt).
Proof.
  intros Htag. unfold icmp_Compare, file_limit.
  change (PackSequenceAndType
            (seek_key kMaxSequenceNumber kValueTypeForSeek k))
    with seek_tag.
  simpl user_key.
  destruct (Compare (user_key (largest f)) k); split; try congruence.
  rewrite Z.compare_lt_iff. lia.
Qed.

Lemma SomeFileOverlapsRange_scan (files : list FileMetaData)
    (s l : option Slice) :
  exists b,
    SomeFileOverlapsRange kMaxSequenceNumber kValueTypeForSeek false files s l
    = Some b
    /\ (b = true <-> exists f, In f files /\ meets s l f).
Proof.
  unfold SomeFileOverlapsRange. simpl. eexists. split; [reflexivity|].
  rewrite existsb_exists. unfold meets.
  split; intros (f & Hf & H); exists f; split; auto.
  - apply negb_true_iff, orb_false_elim in H. exact H.
  - apply negb_true_iff. destruct H as [-> ->]. reflexivity.
Qed.

Lemma SomeFileOverlapsRange_search (files : list FileMetaData)
    (s l : option Slice) :
  Z.of_nat (length files) < 2 ^ 31 ->
  Forall wf_file files ->
  Sorted smallest_le files ->
  ForallOrdPairs ranges_disjoint files ->
  tags_in_range files ->
  exists b,
    SomeFileOverlapsRange kMaxSequenceNumber kValueTypeForSeek true files s l
    = Some b
    /\ (b = true <-> exists f, In f files /\ meets s l f).
Proof.
  intros Hlen Hwf Hsorted Hdisj Htags.
  pose proof (sorted_disjoint_largest_lt files Hwf Hsorted Hdisj) as Hmono.
  pose proof (Sorted_smallest_le_start files Hsorted) as Hstart.
  unfold tags_in_range in Htags. rewrite Forall_forall in Htags.
  assert (exists i : nat,
            match s with
            | Some k =>
                option_map uint32
                  (FindFile files
                     (seek_key kMaxSequenceNumber kValueTypeForSeek k))
            | None => Some 0
            end = Some (Z.of_nat i)
            /\ (i <= length files)%nat
            /\ (forall j f, (j < i)%nat -> nth_error files j = Some f ->
                  AfterFile s f = true)
            /\ (forall f, nth_error files i = Some f ->
                  AfterFile s f = false)) as (i & Hi & Hile & Hbelow & Hat).
  { destruct s as [k|].
    - destruct (FindFile_correct files
                  (seek_key kMaxSequenceNumber kValueTypeForSeek k)
                  Hmono Hlen) as (i & Hi & Hile & Hbelow & Hat).
      exists i. rewrite Hi. simpl.
      change (2 ^ 31) with 2147483648 in Hlen.
      rewrite uint32_small by (change (2 ^ 32) with 4294967296; lia).
      split; [reflexivity|]. split; [exact Hile|]. split.
      + intros j f Hj Hf. apply is_gt_true. apply ucmp_gt_lt.
        apply seek_key_below.
        * apply Htags. eapply nth_error_In; eauto.
        * eapply Hbelow; eauto.
      + intros f Hf. apply is_gt_false. apply ucmp_not_lt_flip.
        intros Hc. apply (Hat f Hf). apply seek_key_below; auto.
        apply Htags. eapply nth_error_In; eauto.
    - exists O. split; [reflexivity|]. split; [lia|].
      split; [intros j f Hj; lia|reflexivity]. }
  unfold SomeFileOverlapsRange. simpl negb. cbv iota. rewrite Hi.
  destruct (Z.of_nat i >=? Z.of_nat (length files)) eqn:Ege.
  - exists false. split; [reflexivity|]. split; [discriminate|].
    intros (f & Hf & Ha & _). apply In_nth_error in Hf as (j & Hj).
    assert (j < length files)%nat by (apply nth_error_Some; congruence).
    rewrite Z.geb_leb in Ege. apply Z.leb_le in Ege.
    rewrite (Hbelow j f) in Ha by (auto; lia). discriminate.
  - rewrite Z.geb_leb in Ege. apply Z.leb_gt in Ege.
    rewrite Nat2Z.id.
    destruct (nth_error files i) as [fi|] eqn:Efi.
    2:{ apply nth_error_None in Efi. lia. }
    eexists. split; [reflexivity|].
    destruct (BeforeFile l fi) eqn:Eb; simpl.
    + split; [discriminate|].
      intros (f & Hf & Ha & Hb). apply In_nth_error in Hf as (j & Hj).
      destruct (Nat.lt_trichotomy j i) as [Hlt|[->|Hgt]].
      * rewrite (Hbelow j f) in Ha by auto. discriminate.
      * rewrite Efi in Hj. injection Hj as <-. congruence.
      * assert (start_le fi f) as Hle
          by (eapply (StronglySorted_nth_error _ _ Hstart i j); eauto).
        destruct l as [lk|]; [|discriminate]. simpl in Eb, Hb.
        apply is_lt_true in Eb. apply is_lt_false in Hb.
        exfalso. apply Hb. eapply ucmp_lt_le_trans; eauto.
    + split; [|reflexivity]. intros _. exists fi.
      split; [eapply nth_error_In; eauto|]. split; auto.
Qed.

(** X24.  On a vector of well-formed files that is sorted by smallest
    key and pairwise disjoint, with fewer than 2^31 files, none with a
    largest key above the seek keys of its user key,
    [SomeFileOverlapsRange] gives the same answer by binary search as by
    the scan of all the files: [true] exactly when some file meets the
    range of user keys; either bound may be absent. *)
Theorem SomeFileOverlapsRange_search_agrees (files : list FileMetaData)
    (s l : option Slice) :
  Z.of_nat (length files) < 2 ^ 31 ->
  Forall wf_file files ->
  Sorted smallest_le files ->
  ForallOrdPairs ranges_disjoint files ->
  tags_in_range files ->
  exists b,
    SomeFileOverlapsRange kMaxSequenceNumber kValueTypeForSeek true files s l
    = Some b
    /\ SomeFileOverlapsRange kMaxSequenceNumber kValueTypeForSeek false
         files s l = Some b
    /\ (b = true <-> exists f, In f files /\ meets s l f).
Proof.
  intros Hlen Hwf Hsorted Hdisj Htags.
  destruct (SomeFileOverlapsRange_search files s l Hlen Hwf Hsorted Hdisj
              Htags) as (b & Hb & Hiff).
  destruct (SomeFileOverlapsRange_scan files s l) as (b' & Hb' & Hiff').
  exists b. split; [exact Hb|]. split; [|exact Hiff].
  rewrite Hb'. f_equal. destruct b, b'; auto.
  - apply Hiff'. now apply Hiff.
  - symmetry. apply Hiff. now apply Hiff'.
Qed.

(** The levels that [PickLevelForMemTableOutput] searches by binary
    search are sorted, disjoint and within the bounds of the search. *)
Definition searchable (v : Version) (level : nat) : Prop :=
  Z.of_nat (length (files_ v level)) < 2 ^ 31
  /\ Forall wf_file (files_ v level)
  /\ Sorted smallest_le (files_ v level)
  /\ ForallOrdPairs ranges_disjoint (files_ v level)
  /\ tags_in_range (files_ v level).

Lemma OverlapInLevel_spec (v : Version) (level : nat) (s l : option Slice) :
  (level <> O -> searchable v level) ->
  exists b,
    OverlapInLevel kMaxSequenceNumber kValueTypeForSeek v level s l = Some b
    /\ (b = true <-> exists f, In f (files_ v level) /\ meets s l f).
Proof.
  intros H. unfold OverlapInLevel. destruct level as [|level].
  - apply SomeFileOverlapsRange_scan.
  - destruct H as (H1 & H2 & H3 & H4 & H5); [discriminate|].
    now apply SomeFileOverlapsRange_search.
Qed.

Lemma PickLevelForMemTableOutput_while_spec (v : Version) (s l : Slice)
    (start limit : InternalKey) (n : nat) :
  forall level,
    (forall lvl, (level < lvl <= level + n)%nat -> searchable v lvl) ->
    exists L,
      PickLevelForMemTableOutput_while kMaxSequenceNumber kValueTypeForSeek
        n v s l start limit level = Some L
      /\ (level <= L <= level + n)%nat
      /\ (forall lvl f, (level < lvl <= L)%nat -> In f (files_ v lvl) ->
            ~ meets (Some s) (Some l) f)
      /\ ((L < level + n)%nat ->
          (exists f, In f (files_ v (L + 1)) /\ meets (Some s) (Some l) f)
          \/ kMaxGrandParentOverlapBytes
             < TotalFileSize
                 (overlapping_range v (L + 2) (Some (start, limit)))).
Proof.
  induction n as [|n IH]; intros level Hs; simpl.
  - exists level. split; [reflexivity|]. split; [lia|].
    split; [intros; lia|intros; lia].
  - destruct (OverlapInLevel_spec v (level + 1) (Some s) (Some l))
      as (b & Hb & Hiff).
    { intros _. apply Hs. lia. }
    rewrite Hb. destruct b.
    + exists level. split; [reflexivity|]. split; [lia|].
      split; [intros; lia|]. intros _. left. now apply Hiff.
    + rewrite overlapping_range_eq.
      destruct (kMaxGrandParentOverlapBytes
                <? TotalFileSize
                     (overlapping_range v (level + 2) (Some (start, limit))))
        eqn:Esum.
      * exists level. split; [reflexivity|]. split; [lia|].
        split; [intros; lia|]. intros _. right. now apply Z.ltb_lt.
      * destruct (IH (level + 1)%nat) as (L & HL & Hb1 & Hnone & Hwhy).
        { intros lvl Hl. apply Hs. lia. }
        exists L. split; [exact HL|]. split; [lia|]. split.
        -- intros lvl f Hl Hf Hm.
           destruct (Nat.eq_dec lvl (level + 1)) as [->|Hne].
           ++ assert (false = true) by (apply Hiff; eauto). discriminate.
           ++ apply (Hnone lvl f); auto. lia.
        -- intros HLn. apply Hwhy. lia.
Qed.

(** X25.  [PickLevelForMemTableOutput], on a version whose levels from 1
    to [kMaxMemCompactLevel] are sorted, disjoint and within the bounds of
    the binary search, returns a level [L] that is at most
    [kMaxMemCompactLevel].  It is 0 when a file of level 0 meets the range
    of user keys; when it is above 0, no file of a level from 0 to [L]
    meets the range; and when it is below [kMaxMemCompactLevel], a file of
    level 0 or of level [L + 1] meets the range, or the files of level
    [L + 2] overlapping the range hold more than
    [kMaxGrandParentOverlapBytes] bytes. *)
Theorem PickLevelForMemTableOutput_level (v : Version) (s l : Slice) :
  (forall lvl, (1 <= lvl <= kMaxMemCompactLevel)%nat -> searchable v lvl) ->
  let start := seek_key kMaxSequenceNumber kValueTypeForSeek s in
  let limit := {| user_key := l; sequence := 0; type := kTypeDeletion |} in
  exists L,
    PickLevelForMemTableOutput kMaxSequenceNumber kValueTypeForSeek
      kMaxMemCompactLevel v s l = Some L
    /\ (L <= kMaxMemCompactLevel)%nat
    /\ ((exists f, In f (files_ v O) /\ meets (Some s) (Some l) f) ->
        L = O)
    /\ ((0 < L)%nat ->
        forall lvl f, (lvl <= L)%nat -> In f (files_ v lvl) ->
          ~ meets (Some s) (Some l) f)
    /\ ((L < kMaxMemCompactLevel)%nat ->
        (exists f, In f (files_ v O) /\ meets (Some s) (Some l) f)
        \/ (exists f, In f (files_ v (L + 1)) /\ meets (Some s) (Some l) f)
        \/ kMaxGrandParentOverlapBytes
           < TotalFileSize
               (overlapping_range v (L + 2) (Some (start, limit)))).
Proof.
  intros Hs start limit. unfold PickLevelForMemTableOutput.
  destruct (OverlapInLevel_spec v O (Some s) (Some l))
    as (b & Hb & Hiff); [congruence|].
  rewrite Hb. destruct b; simpl.
  - exists O. split; [reflexivity|]. split; [lia|].
    split; [reflexivity|]. split; [intros; lia|].
    intros _. left. now apply Hiff.
  - destruct (PickLevelForMemTableOutput_while_spec v s l start limit
                kMaxMemCompactLevel O) as (L & HL & Hb1 & Hnone & Hwhy).
    { intros lvl Hl. apply Hs. lia. }
    exists L. split; [exact HL|]. split; [lia|]. split; [|split].
    + intros H. apply Hiff in H. discriminate.
    + intros _ lvl f Hl Hf Hm. destruct lvl as [|lvl].
      * assert (false = true) by (apply Hiff; eauto). discriminate.
      * apply (Hnone (S lvl) f); auto. lia.
    + intros HLk. right. apply Hwhy. lia.
Qed.

End SeekKeyProperties.

(** *** Version::UpdateStats *)




(** *** LogAndApply: the version is installed exactly on success *)

Lemma set_compact_pointers_counters (ps : list (nat * InternalKey)) :
  forall vset,
    let vset' :=
      fold_left (fun vs p => set_compact_pointer vs (fst p) (snd p))
        ps vset in
    vs_next_file_number_ vset' = vs_next_file_number_ vset
    /\ vs_last_sequence_ vset' = vs_last_sequence_ vset.
Proof.
  induction ps as [|p ps IH]; intros vset; simpl; [auto|].
  destruct (IH (set_compact_pointer vset (fst p) (snd p))) as [A B].
  simpl in A, B. now rewrite A, B.
Qed.

Section LogAndApplyProperties.

Variable DescriptorFileName : string -> Z -> string.
Variable EncodeTo : VersionEdit -> string.

(** X27.  Whatever the outcomes of the writes to the manifest, a call of
    [LogAndApply] that returns a status other than OK installs nothing:
    the current version, the manifest file number, the last sequence
    number and the log numbers of the version set are those it had.  A
    call that returns OK makes current the finalized version that
    [SaveTo] constructs from the current version and the edit as
    completed by the call, and takes the log numbers from that edit; the
    log number of the completed edit is that of the edit as given, or
    that of the version set when the edit carried none. *)
Theorem LogAndApply_installs_on_ok (env : Env) (w : ManifestWrites)
    (vset : VersionSet) (descriptor_log_ : bool) (edit : VersionEdit)
    (s : Status) (vset' : VersionSet) (descriptor_log_' : bool)
    (edit' : VersionEdit) :
  LogAndApply DescriptorFileName EncodeTo env w vset descriptor_log_ edit
  = Some (s, vset', descriptor_log_', edit') ->
  (ok s = false -> installs_nothing vset vset')
  /\ (ok s = true ->
      exists v,
        SaveTo (snd (Apply (vset, new_Builder (current_ vset)) edit'))
          new_Version = Some v
        /\ current_ vset' = Finalize v
        /\ vs_log_number_ vset' = log_number_ edit'
        /\ vs_prev_log_number_ vset' = prev_log_number_ edit'
        /\ log_number_ edit'
           = (if has_log_number_ edit then log_number_ edit
              else vs_log_number_ vset)
        /\ prev_log_number_ edit'
           = (if has_prev_log_number_ edit then prev_log_number_ edit
              else vs_prev_log_number_ vset)
        /\ vs_next_file_number_ vset' = vs_next_file_number_ vset
        /\ vs_last_sequence_ vset' = vs_last_sequence_ vset).
Proof.
  unfold LogAndApply.
  set (edit1 := if has_log_number_ edit then _ else _).
  destruct edit1 as [e1|] eqn:E1; [|discriminate].
  assert (log_number_ e1
          = (if has_log_number_ edit then log_number_ edit
             else vs_log_number_ vset)
          /\ has_prev_log_number_ e1 = has_prev_log_number_ edit
          /\ prev_log_number_ e1 = prev_log_number_ edit
          /\ new_files_ e1 = new_files_ edit) as (L1 & L2 & L3 & L4).
  { subst edit1. destruct (has_log_number_ edit).
    - destruct (_ && _); [|discriminate]. injection E1 as <-. auto.
    - injection E1 as <-. auto. }
  set (e2 := if negb (has_prev_log_number_ e1) then _ else e1).
  assert (log_number_ e2 = log_number_ e1
          /\ prev_log_number_ e2
             = (if has_prev_log_number_ edit then prev_log_number_ edit
                else vs_prev_log_number_ vset)) as (M1 & M2).
  { subst e2. rewrite L2. destruct (has_prev_log_number_ edit); simpl; auto. }
  set (e3 := SetLastSequence (SetNextFile e2 (vs_next_file_number_ vset))
               (vs_last_sequence_ vset)).
  pose proof (Apply_nothing (vset, new_Builder (current_ vset)) e3) as Hnothing.
  assert (forall n,
            Apply (vset, new_Builder (current_ vset)) (SetNextFile e3 n)
            = Apply (vset, new_Builder (current_ vset)) e3) as Hsame
    by reflexivity.
  assert (vs_next_file_number_
            (fst (Apply (vset, new_Builder (current_ vset)) e3))
          = vs_next_file_number_ vset
          /\ vs_last_sequence_
               (fst (Apply (vset, new_Builder (current_ vset)) e3))
             = vs_last_sequence_ vset) as [N1 N2].
  { unfold Apply. simpl fst. apply set_compact_pointers_counters. }
  destruct (Apply (vset, new_Builder (current_ vset)) e3)
    as [vset1 builder] eqn:EA.
  simpl in Hnothing, N1, N2.
  destruct (SaveTo builder new_Version) as [v|] eqn:Esave; [|discriminate].
  set (e4 := if negb descriptor_log_ then _ else e3).
  assert (log_number_ e4 = log_number_ e1
          /\ prev_log_number_ e4 = prev_log_number_ e2
          /\ Apply (vset, new_Builder (current_ vset)) e4
             = (vset1, builder)) as (P1 & P2 & P3).
  { subst e4. destruct (negb descriptor_log_); simpl; auto. }
  match goal with
  | |- context [let '(_, _) := ?x in _] => destruct x as [s0 d0]
  end.
  match goal with
  | |- (if ok ?sf then _ else _) = _ -> _ =>
      destruct (ok sf) eqn:Eok
  end.
  - intros [= <- <- <- <-]. split; [congruence|]. intros _.
    exists v. rewrite P3. simpl. rewrite P1, P2, L1, M2.
    repeat split; auto.
  - intros [= <- <- <- <-]. split; [|congruence]. intros _. exact Hnothing.
Qed.

End LogAndApplyProperties.

(** *** ApproximateOffsetOf: the early exit *)

Section ApproximateOffsetOfProperties.

Variable Table_ApproximateOffsetOf : Z -> Z -> InternalKey -> option Z.

(** What one file adds to the offset of [ikey]: its size when it lies
    before the key, nothing when it lies after it, and the offset of the
    key within the table otherwise. *)
Definition offset_in (ikey : InternalKey) (f : FileMetaData) : Z :=
  if negb (is_gt (icmp_Compare (largest f) ikey)) then file_size f
  else if is_gt (icmp_Compare (smallest f) ikey) then 0
  else match Table_ApproximateOffsetOf (number f) (file_size f) ikey with
       | Some offset => offset
       | None => 0
       end.

Definition offset_in_files (ikey : InternalKey) (files : list FileMetaData)
    : Z :=
  fold_right (fun f sum => offset_in ikey f + sum) 0 files.

Lemma uint64_add_l (a b : Z) : uint64 (uint64 a + b) = uint64 (a + b).
Proof. unfold uint64. now rewrite Zplus_mod_idemp_l. Qed.

Lemma offset_in_after (ikey : InternalKey) (f g : FileMetaData) :
  wf_file g -> smallest_le f g ->
  icmp_Compare (smallest f) ikey = Gt ->
  offset_in ikey g = 0.
Proof.
  unfold wf_file, smallest_le. intros Hwf Hle Hgt.
  apply icmp_gt_lt in Hgt.
  assert (icmp_Compare ikey (smallest g) = Lt) as H1
    by (eapply icmp_lt_le_trans; eauto).
  assert (icmp_Compare ikey (largest g) = Lt) as H2
    by (eapply icmp_lt_le_trans; eauto).
  apply icmp_gt_lt in H1, H2. unfold offset_in. now rewrite H1, H2.
Qed.

Lemma ApproximateOffsetOf_files_sum (level : nat) (ikey : InternalKey)
    (files : list FileMetaData) :
  (level <> O -> Forall wf_file files /\ StronglySorted smallest_le files) ->
  forall acc,
    ApproximateOffsetOf_files Table_ApproximateOffsetOf level ikey files
      (uint64 acc)
    = uint64 (acc + offset_in_files ikey files).
Proof.
  induction files as [|f files IH]; intros Hlevel acc; simpl.
  - now rewrite Z.add_0_r.
  - assert (level <> O ->
            Forall wf_file files /\ StronglySorted smallest_le files) as Hrest.
    { intros Hl. destruct (Hlevel Hl) as [Hwf Hs].
      inversion Hwf; inversion Hs; subst. auto. }
    unfold offset_in at 1.
    destruct (negb (is_gt (icmp_Compare (largest f) ikey))).
    { rewrite uint64_add_l, IH by assumption. f_equal. lia. }
    destruct (is_gt (icmp_Compare (smallest f) ikey)) eqn:Egt.
    + destruct (0 <? level)%nat eqn:El.
      * apply Nat.ltb_lt in El.
        destruct Hlevel as [Hwf Hs]; [lia|].
        inversion Hwf as [|? ? _ Hwf']; inversion Hs as [|? ? _ Hfs]; subst.
        assert (offset_in_files ikey files = 0) as ->; [|f_equal; lia].
        apply is_gt_true in Egt. clear - Hwf' Hfs Egt.
        induction files as [|g files IHf]; [reflexivity|].
        inversion Hwf'; inversion Hfs; subst. simpl.
        rewrite (offset_in_after ikey f g), IHf; auto.
      * rewrite IH by assumption. f_equal.
    + destruct (Table_ApproximateOffsetOf (number f) (file_size f) ikey).
      * rewrite uint64_add_l, IH by assumption. f_equal. lia.
      * rewrite IH by assumption. f_equal.
Qed.

(** X28.  On a version whose levels above 0 hold well-formed files in
    the order of their smallest keys, [ApproximateOffsetOf] returns the
    sum, as a [uint64_t], of what every file of every level adds: leaving
    a level above 0 at the first file that starts after the key skips no
    file that adds anything. *)
Theorem ApproximateOffsetOf_sums_all_files (v : Version)
    (ikey : InternalKey) :
  (forall level, (1 <= level < kNumLevels)%nat ->
     Forall wf_file (files_ v level) /\ Sorted smallest_le (files_ v level)) ->
  ApproximateOffsetOf Table_ApproximateOffsetOf v ikey
  = uint64
      (fold_right
         (fun level sum => offset_in_files ikey (files_ v level) + sum)
         0 (seq 0 kNumLevels)).
Proof.
  intros Hlevels. unfold ApproximateOffsetOf.
  assert (forall levels acc,
            (forall level, In level levels -> (level < kNumLevels)%nat) ->
            fold_left
              (fun result level =>
                 ApproximateOffsetOf_files Table_ApproximateOffsetOf level
                   ikey (files_ v level) result)
              levels (uint64 acc)
            = uint64
                (acc + fold_right
                         (fun level sum =>
                            offset_in_files ikey (files_ v level) + sum)
                         0 levels)) as H.
  { induction levels as [|level levels IH]; intros acc Hin; simpl.
    - now rewrite Z.add_0_r.
    - rewrite ApproximateOffsetOf_files_sum.
      + rewrite IH by (intros l Hl; apply Hin; now right). f_equal. lia.
      + intros Hl. destruct (Hlevels level) as [Hwf Hs].
        { split; [lia|]. apply Hin. now left. }
        split; [exact Hwf|].
        apply Sorted_StronglySorted; [|exact Hs].
        intros f g h. apply smallest_le_trans. }
  change 0 with (uint64 0) at 1. rewrite H; [reflexivity|].
  intros level Hl. apply in_seq in Hl. lia.
Qed.

End ApproximateOffsetOfProperties.

(** *** SaveTo keeps every level in the order of the file sets *)

(** [BySmallestKey] as a three-way comparison. *)
Definition set_compare (f g : FileMetaData) : comparison :=
  lex icmp_Compare Z.compare (smallest f, number f) (smallest g, number g).

Ltac set_order_laws :=
  intros;
  first [ apply icmp_antisym
        | eapply icmp_trans; eassumption
        | apply icmp_eq_l; assumption
        | number_order_laws ].

Lemma set_compare_antisym f g : set_compare g f = CompOpp (set_compare f g).
Proof. apply lex_antisym; set_order_laws. Qed.

Lemma set_compare_trans f g h :
  set_compare f g = Lt -> set_compare g h = Lt -> set_compare f h = Lt.
Proof. apply lex_trans; set_order_laws. Qed.

Lemma set_compare_eq_l f g h :
  set_compare f g = Eq -> set_compare f h = set_compare g h.
Proof. apply lex_eq_l; set_order_laws. Qed.

Lemma BySmallestKey_set_compare f g :
  BySmallestKey f g = is_lt (set_compare f g).
Proof.
  unfold BySmallestKey, set_compare, lex. simpl.
  destruct (icmp_Compare (smallest f) (smallest g)); try reflexivity.
Qed.

(** [f] does not come after [g] in the order of the file sets. *)
Definition set_le (f g : FileMetaData) : Prop := BySmallestKey g f = false.

Lemma set_le_compare f g : set_le f g <-> set_compare f g <> Gt.
Proof.
  unfold set_le. rewrite BySmallestKey_set_compare, is_lt_false.
  rewrite (set_compare_antisym f g). destruct (set_compare f g); simpl;
    split; congruence.
Qed.

Lemma set_order_compare f g : set_order f g <-> set_compare f g = Lt.
Proof.
  unfold set_order. rewrite BySmallestKey_set_compare. apply is_lt_true.
Qed.

Lemma set_le_trans f g h : set_le f g -> set_le g h -> set_le f h.
Proof.
  rewrite !set_le_compare.
  apply (cmp_le_trans set_compare set_compare_antisym set_compare_trans
           set_compare_eq_l).
Qed.

Lemma set_order_le f g : set_order f g -> set_le f g.
Proof. apply BySmallestKey_asym. Qed.

Lemma set_order_le_trans f g h : set_order f g -> set_le g h -> set_order f h.
Proof.
  rewrite set_le_compare, !set_order_compare.
  apply (cmp_lt_le_trans set_compare set_compare_antisym set_compare_trans
           set_compare_eq_l).
Qed.

Lemma StronglySorted_app_inv {A} (R : A -> A -> Prop) (l1 l2 : list A) :
  StronglySorted R (l1 ++ l2) ->
  StronglySorted R l1 /\ StronglySorted R l2
  /\ forall x y, In x l1 -> In y l2 -> R x y.
Proof.
  induction l1 as [|a l1 IH]; simpl; intros H.
  - split; [constructor|]. split; [exact H|]. intros x y [].
  - inversion H as [|? ? Hs Ha]; subst.
    destruct (IH Hs) as (H1 & H2 & H3).
    rewrite Forall_forall in Ha. split; [|split; [exact H2|]].
    + constructor; [exact H1|]. apply Forall_forall. intros x Hx.
      apply Ha. apply in_or_app. now left.
    + intros x y [<-|Hx] Hy; [|now apply H3].
      apply Ha. apply in_or_app. now right.
Qed.

Lemma StronglySorted_filter {A} (R : A -> A -> Prop) (p : A -> bool)
    (l : list A) :
  StronglySorted R l -> StronglySorted R (filter p l).
Proof.
  induction 1 as [|a l Hs IH Ha]; simpl; [constructor|].
  destruct (p a); [|exact IH]. constructor; [exact IH|].
  rewrite Forall_forall in *. intros x Hx. apply Ha.
  apply filter_In in Hx. tauto.
Qed.

Lemma upper_bound_split (a : FileMetaData) (base : list FileMetaData) :
  StronglySorted set_le base ->
  let '(smaller, rest) := upper_bound BySmallestKey a base in
  (forall g, In g smaller -> set_le g a)
  /\ (forall g, In g rest -> set_order a g).
Proof.
  induction 1 as [|g base Hs IH Hg]; simpl.
  - split; intros g [].
  - destruct (BySmallestKey a g) eqn:E.
    + split; [intros h []|]. intros h [<-|Hh]; [exact E|].
      rewrite Forall_forall in Hg.
      eapply set_order_le_trans; [exact E|]. now apply Hg.
    + destruct (upper_bound BySmallestKey a base) as [smaller rest].
      destruct IH as [H1 H2]. split; [|exact H2].
      intros h [<-|Hh]; [exact E|now apply H1].
Qed.

Lemma merge_added_sorted (added : list FileMetaData) :
  StronglySorted set_order added ->
  forall base,
    StronglySorted set_le base ->
    StronglySorted set_le (merge_added added base).
Proof.
  induction 1 as [|a added Hs IH Ha]; intros base Hbase; simpl;
    [exact Hbase|].
  pose proof (upper_bound_parts BySmallestKey a base) as Hparts.
  pose proof (upper_bound_split a base Hbase) as Hsplit.
  destruct (upper_bound BySmallestKey a base) as [smaller rest].
  simpl in Hparts. destruct Hsplit as [H1 H2].
  rewrite Hparts in Hbase.
  apply StronglySorted_app_inv in Hbase as (Hsm & Hrest & _).
  rewrite Forall_forall in Ha.
  assert (forall x, In x (merge_added added rest) -> set_le a x) as Hax.
  { intros x Hx. apply set_order_le.
    apply merge_added_In in Hx as [Hx|Hx]; [now apply Ha|now apply H2]. }
  apply StronglySorted_app; [exact Hsm| |].
  - constructor; [now apply IH|]. now apply Forall_forall.
  - intros x y Hx [<-|Hy]; [now apply H1|].
    eapply set_le_trans; [apply H1; exact Hx|now apply Hax].
Qed.

Lemma FileSet_insert_keeps_order (f : FileMetaData) (s : list FileMetaData) :
  StronglySorted set_order s -> StronglySorted set_order (FileSet_insert f s).
Proof.
  induction 1 as [|g s Hs IH Hg]; simpl; [repeat constructor|].
  rewrite Forall_forall in Hg.
  destruct (BySmallestKey f g) eqn:E1.
  - constructor; [constructor; [exact Hs|now apply Forall_forall]|].
    constructor; [exact E1|]. apply Forall_forall. intros x Hx.
    eapply BySmallestKey_trans; [exact E1|now apply Hg].
  - destruct (BySmallestKey g f) eqn:E2.
    + constructor; [exact IH|]. apply Forall_forall. intros x Hx.
      apply FileSet_insert_In in Hx as [->|Hx]; [exact E2|now apply Hg].
    + constructor; [exact Hs|now apply Forall_forall].
Qed.

Lemma Apply_adds_keep_order (adds : list (nat * FileMetaData)) :
  forall b,
    (forall l, StronglySorted set_order (added_files (levels_ b l))) ->
    forall l,
      StronglySorted set_order
        (added_files (levels_ (fold_left Apply_add adds b) l)).
Proof.
  induction adds as [|[al af] adds IH]; intros b Hb l; cbn [fold_left];
    [apply Hb|].
  apply IH. intros l'. simpl. destruct (Nat.eqb l' al); [|apply Hb].
  simpl. apply FileSet_insert_keeps_order. apply Hb.
Qed.

Lemma Apply_edits_keep_order (edits : list VersionEdit) :
  forall vb,
    (forall l, StronglySorted set_order (added_files (levels_ (snd vb) l))) ->
    forall l,
      StronglySorted set_order
        (added_files (levels_ (snd (fold_left Apply edits vb)) l)).
Proof.
  induction edits as [|e edits IH]; intros vb Hvb l; simpl; [apply Hvb|].
  apply IH. intros l'. destruct vb as [vset b]. unfold Apply. simpl snd.
  apply Apply_adds_keep_order. intros l''.
  destruct (Apply_deletes_builder (deleted_files_ e) b l'') as [H _].
  rewrite H. apply Hvb.
Qed.

(** X29.  Take a base version, apply any edits to a builder on it, and
    let [SaveTo] construct a version.  Every level of the new version,
    level 0 included, whose files the base holds in the order of the
    file sets (by smallest key, then by file number) holds its files in
    that order. *)
Theorem SaveTo_keeps_set_order (vset : VersionSet) (base : Version)
    (edits : list VersionEdit) (v : Version) (level : nat) :
  Sorted set_le (files_ base level) ->
  SaveTo (snd (fold_left Apply edits (vset, new_Builder base))) new_Version
  = Some v ->
  (level < kNumLevels)%nat ->
  Sorted set_le (files_ v level).
Proof.
  intros Hbase Hsave Hlevel.
  rewrite (SaveTo_exact _ _ level Hsave Hlevel).
  apply StronglySorted_Sorted, StronglySorted_filter, merge_added_sorted.
  - apply Apply_edits_keep_order. intros l. simpl. constructor.
  - destruct (Apply_edits_builder edits level (vset, new_Builder base))
      as [_ Hb].
    rewrite Hb. simpl.
    apply Sorted_StronglySorted; [|exact Hbase].
    intros f g h. apply set_le_trans.
Qed.

End Properties.

(** * A concrete comparator and concrete versions *)

(** [BytewiseComparator]: the bytewise order of the slices. *)

Lemma Ascii_compare_trans a b c :
  Ascii.compare a b = Lt -> Ascii.compare b c = Lt -> Ascii.compare a c = Lt.
Proof.
  unfold Ascii.compare. rewrite !N.compare_lt_iff. lia.
Qed.

Lemma Ascii_compare_refl a : Ascii.compare a a = Eq.
Proof. unfold Ascii.compare. apply N.compare_refl. Qed.

Lemma String_compare_trans a :
  forall b c,
    String.compare a b = Lt -> String.compare b c = Lt ->
    String.compare a c = Lt.
Proof.
  induction a as [|x a IH]; intros [|y b] [|z c]; simpl;
    try discriminate; auto.
  destruct (Ascii.compare x y) eqn:Exy; try discriminate;
    destruct (Ascii.compare y z) eqn:Eyz; try discriminate; intros H1 H2.
  - apply Ascii.compare_eq_iff in Exy. apply Ascii.compare_eq_iff in Eyz.
    subst. rewrite Ascii_compare_refl. eauto.
  - apply Ascii.compare_eq_iff in Exy. subst. now rewrite Eyz.
  - apply Ascii.compare_eq_iff in Eyz. subst. now rewrite Exy.
  - now rewrite (Ascii_compare_trans _ _ _ Exy Eyz).
Qed.

Lemma String_compare_antisym a b :
  String.compare b a = CompOpp (String.compare a b).
Proof. apply String.compare_antisym. Qed.

Lemma String_compare_eq_l a b c :
  String.compare a b = Eq -> String.compare a c = String.compare b c.
Proof. intros H. apply String.compare_eq_iff in H. now subst. Qed.

Definition BytewiseComparator : Comparator :=
  {| Compare := String.compare;
     Name := "leveldb.BytewiseComparator";
     Compare_antisym := String_compare_antisym;
     Compare_trans := String_compare_trans;
     Compare_eq_l := String_compare_eq_l |}.

Definition key (u : string) (seq : Z) : InternalKey :=
  {| user_key := u; sequence := seq; type := kTypeValue |}.

Definition file (num size : Z) (s l : InternalKey) : FileMetaData :=
  {| allowed_seeks := 100; number := num; file_size := size;
     smallest := s; largest := l |}.

Definition version_of (files : nat -> list FileMetaData) : Version :=
  {| files_ := files;
     file_to_compact_ := None;
     file_to_compact_level_ := -1;
     compaction_score_ := double_of_Z (-1);
     compaction_level_ := -1 |}.

Definition version_set_of (v : Version) : VersionSet :=
  {| dbname_ := "db";
     vs_next_file_number_ := 2;
     manifest_file_number_ := 0;
     vs_last_sequence_ := 0;
     vs_log_number_ := 0;
     vs_prev_log_number_ := 0;
     current_ := v;
     compact_pointer_ := fun _ => None |}.

(** Three disjoint files in key order. *)
Definition files_abc : list FileMetaData :=
  [ file 11 1000 (key "a" 9) (key "c" 7);
    file 12 1000 (key "d" 6) (key "f" 5);
    file 13 1000 (key "g" 4) (key "k" 3) ].

Lemma FindFile_smallest_index_witness :
  exists i : nat,
    FindFile (ucmp := BytewiseComparator) files_abc (key "e" 100)
    = Some (Z.of_nat i)
    /\ (i <= length files_abc)%nat
    /\ (forall j f, (j < i)%nat -> nth_error files_abc j = Some f ->
          icmp_Compare (ucmp := BytewiseComparator) (largest f) (key "e" 100)
          = Lt)
    /\ (forall f, nth_error files_abc i = Some f ->
          icmp_Compare (ucmp := BytewiseComparator) (largest f) (key "e" 100)
          <> Lt).
Proof.
  apply (FindFile_smallest_index (ucmp := BytewiseComparator)).
  - reflexivity.
  - repeat constructor; vm_compute; discriminate.
  - repeat constructor; vm_compute; discriminate.
  - repeat constructor; vm_compute; auto.
Defined.

Example FindFile_files_abc :
  FindFile (ucmp := BytewiseComparator) files_abc (key "e" 100) = Some 1.
Proof. reflexivity. Qed.

(** A version without files at level 1 and a range: nothing to compact. *)
Lemma CompactRange_no_overlap_null_witness :
  CompactRange (ucmp := BytewiseComparator)
    (version_set_of (version_of (fun l => if Nat.eqb l 1 then files_abc else [])))
    1 (Some (key "m" 9)) (Some (key "z" 0))
  = Some (version_set_of
            (version_of (fun l => if Nat.eqb l 1 then files_abc else [])),
          None).
Proof.
  apply (CompactRange_no_overlap_null (ucmp := BytewiseComparator)).
  intros f Hf. simpl in Hf.
  destruct Hf as [<-|[<-|[<-|[]]]]; reflexivity.
Defined.

(** ** CompactRange on concrete versions *)

Definition MiB : Z := 1048576.

(** Two overlapping files of 2 MiB at level 0, nothing below. *)
Definition version_two_l0 : Version :=
  version_of (fun l =>
    if Nat.eqb l 0 then
      [ file 21 (2 * MiB) (key "a" 9) (key "c" 8);
        file 22 (2 * MiB) (key "b" 7) (key "d" 6) ]
    else []).

(** Two disjoint files of 1.5 MiB at level 1. *)
Definition version_big_l1 : Version :=
  version_of (fun l =>
    if Nat.eqb l 1 then
      [ file 31 (3 * MiB / 2) (key "a" 9) (key "c" 8);
        file 32 (3 * MiB / 2) (key "d" 7) (key "f" 6) ]
    else []).

Example CompactRange_level0_cut :
  option_map (fun r => option_map inputs_0 (snd r))
    (CompactRange (ucmp := BytewiseComparator)
       (version_set_of version_two_l0) 0 None None)
  = Some (Some [ file 21 (2 * MiB) (key "a" 9) (key "c" 8) ]).
Proof. reflexivity. Qed.

(** C2 as the specification words it does not hold of the code.
    At level 0 the second of two overlapping files is cut off although
    both overlap the range, and at level 1 two files of 1.5 MiB, 3 MiB
    together, are selected although the limit is 2 MiB. *)
Lemma CompactRange_selection_counterexample :
  ~ CompactRange_selection_as_specified (ucmp := BytewiseComparator)
      (version_set_of version_two_l0) 0 None None
  /\ ~ CompactRange_selection_as_specified (ucmp := BytewiseComparator)
         (version_set_of version_big_l1) 1 None None.
Proof.
  split; intros H.
  - destruct (H _ _ _ eq_refl ltac:(discriminate) eq_refl) as [H0 _].
    specialize (H0 eq_refl). vm_compute in H0. discriminate.
  - destruct (H _ _ _ eq_refl ltac:(discriminate) eq_refl) as [_ H1].
    specialize (H1 (le_n 1)). vm_compute in H1. apply H1. reflexivity.
Qed.

(** Three files of 1 MiB at level 1: the first two reach the limit. *)
Definition files_three_l1 : list FileMetaData :=
  [ file 41 MiB (key "a" 9) (key "c" 8);
    file 42 MiB (key "d" 7) (key "f" 6);
    file 43 MiB (key "g" 5) (key "k" 4) ].

Definition version_three_l1 : Version :=
  version_of (fun l => if Nat.eqb l 1 then files_three_l1 else []).

Lemma CompactRange_cut_at_limit_witness :
  exists sel rest,
    CompactRange_inputs (ucmp := BytewiseComparator)
      (version_set_of version_three_l1) 1 None None = Some (Some sel)
    /\ files_three_l1 = sel ++ rest
    /\ sel <> []
    /\ total_size (removelast sel) < MaxFileSizeForLevel 1
    /\ (rest <> [] -> MaxFileSizeForLevel 1 <= total_size sel).
Proof.
  apply (CompactRange_cut_at_limit (ucmp := BytewiseComparator)).
  - lia.
  - reflexivity.
  - discriminate.
  - repeat constructor; vm_compute; discriminate.
Defined.

Example CompactRange_three_l1 :
  CompactRange_inputs (ucmp := BytewiseComparator)
    (version_set_of version_three_l1) 1 None None
  = Some (Some (firstn 2 files_three_l1)).
Proof. reflexivity. Qed.

(** ** SetupOtherInputs on concrete versions *)

(** Level 1 holds two files that meet in the user key "c"; level 2 is
    empty.  A compaction of the first file finds no parents, so the
    expansion is not attempted, although the second file overlaps the
    range and would not drag in any parent. *)
Definition file_ac : FileMetaData := file 51 MiB (key "a" 9) (key "c" 5).
Definition file_ce : FileMetaData := file 52 MiB (key "c" 3) (key "e" 1).

Definition version_meeting_l1 : Version :=
  version_of (fun l => if Nat.eqb l 1 then [file_ac; file_ce] else []).

Definition compaction_of (level : nat) (v : Version)
    (inputs0 : list FileMetaData) : Compaction :=
  planned (new_Compaction level) (Some v) new_VersionEdit inputs0 [] [].

(** C5 as the specification words it does not hold of the code: here the
    three conditions hold and the expansion is not adopted. *)
Lemma SetupOtherInputs_expansion_counterexample :
  ~ expansion_as_specified (ucmp := BytewiseComparator)
      (version_set_of version_meeting_l1)
      (compaction_of 1 version_meeting_l1 [file_ac]).
Proof.
  intros H.
  destruct (H _ _ eq_refl) as [Hadopt _].
  assert (expansion_grows (ucmp := BytewiseComparator)
            (version_set_of version_meeting_l1)
            (compaction_of 1 version_meeting_l1 [file_ac])) as Hg.
  { vm_compute. repeat split; auto. }
  destruct (Hadopt Hg) as [H0 _]. vm_compute in H0. discriminate.
Qed.

(** Scenario S6: level 0 holds [b..d] and [e..f], level 1 holds [a..c]
    and [c..e].  Compacting [b..d] picks up both parents, and the
    expansion to both files of level 0 keeps the parents as they are. *)
Definition file_bd : FileMetaData := file 61 MiB (key "b" 20) (key "d" 19).
Definition file_ef : FileMetaData := file 62 MiB (key "e" 18) (key "f" 17).

Definition version_S6 : Version :=
  version_of (fun l =>
    if Nat.eqb l 0 then [file_bd; file_ef]
    else if Nat.eqb l 1 then [file_ac; file_ce]
    else []).

Lemma SetupOtherInputs_expansion_witness :
  exists vset' c',
    SetupOtherInputs (ucmp := BytewiseComparator)
      (version_set_of version_S6) (compaction_of 0 version_S6 [file_bd])
    = Some (vset', c')
    /\ (SetupOtherInputs_inputs1 (ucmp := BytewiseComparator)
          (version_set_of version_S6) (compaction_of 0 version_S6 [file_bd])
        <> []
        /\ expansion_grows (ucmp := BytewiseComparator)
             (version_set_of version_S6)
             (compaction_of 0 version_S6 [file_bd]) ->
        expansion_adopted (ucmp := BytewiseComparator)
          (version_set_of version_S6)
          (compaction_of 0 version_S6 [file_bd]) c')
    /\ (~ (SetupOtherInputs_inputs1 (ucmp := BytewiseComparator)
             (version_set_of version_S6)
             (compaction_of 0 version_S6 [file_bd])
           <> []
           /\ expansion_grows (ucmp := BytewiseComparator)
                (version_set_of version_S6)
                (compaction_of 0 version_S6 [file_bd])) ->
        expansion_declined (ucmp := BytewiseComparator)
          (version_set_of version_S6)
          (compaction_of 0 version_S6 [file_bd]) c').
Proof.
  apply (SetupOtherInputs_expansion (ucmp := BytewiseComparator)).
  discriminate.
Defined.

Example SetupOtherInputs_S6 :
  option_map (fun r => (inputs_0 (snd r), inputs_1 (snd r)))
    (SetupOtherInputs (ucmp := BytewiseComparator)
       (version_set_of version_S6) (compaction_of 0 version_S6 [file_bd]))
  = Some ([file_bd; file_ef], [file_ac; file_ce]).
Proof. reflexivity. Qed.

(** ** Get on a concrete version *)

(** A table cache whose tables hold no entry for the key looked up. *)
Definition empty_tables : TableCache :=
  {| TableCache_Get := fun _ _ _ => (OK, None);
     ParseInternalKey := fun _ => None |}.

(** Two files of level 0 and one of level 1 cover the user key "c". *)
Definition version_three_probes : Version :=
  version_of (fun l =>
    if Nat.eqb l 0 then
      [ file 21 MiB (key "a" 9) (key "c" 8);
        file 22 MiB (key "b" 7) (key "d" 6) ]
    else if Nat.eqb l 1 then [ file 11 MiB (key "a" 5) (key "k" 3) ]
    else []).

Lemma Get_charges_first_file_once_witness :
  exists s st,
    Get (ucmp := BytewiseComparator) empty_tables version_three_probes
      (key "c" 100) "" = Some (s, st)
    /\ ((length (probed st) <= 1)%nat ->
          seek_file (stats st) = None /\ seek_file_level (stats st) = -1
          /\ charged st = [])
    /\ ((2 <= length (probed st))%nat ->
          exists p, hd_error (probed st) = Some p
                    /\ seek_file (stats st) = Some (fst p)
                    /\ seek_file_level (stats st) = snd p
                    /\ charged st = [p]).
Proof.
  apply (Get_charges_first_file_once (ucmp := BytewiseComparator)).
  intros level Hlevel.
  do 7 (destruct level as [|level]; [reflexivity|]).
  unfold kNumLevels in Hlevel. lia.
Defined.

(** The newest file of level 0 is probed first and is the one charged. *)
Example Get_three_probes :
  option_map (fun r =>
      (fst r, map (fun p => number (fst p)) (probed (snd r)),
       option_map number (seek_file (stats (snd r))),
       seek_file_level (stats (snd r))))
    (Get (ucmp := BytewiseComparator) empty_tables version_three_probes
       (key "c" 100) "")
  = Some (NotFound "", [22; 21; 11], Some 22, 0).
Proof. reflexivity. Qed.

(** ** Recover on a concrete manifest *)

(** A manifest of two records; the edits they decode to carry a log
    number and a last sequence number, but no next-file number. *)
Definition edit_with_log_number : VersionEdit :=
  {| comparator_ := "leveldb.BytewiseComparator";
     log_number_ := 3; prev_log_number_ := 0;
     next_file_number_ := 0; last_sequence_ := 0;
     has_comparator_ := true; has_log_number_ := true;
     has_prev_log_number_ := false; has_next_file_number_ := false;
     has_last_sequence_ := false;
     compact_pointers_ := []; deleted_files_ := [];
     new_files_ := [(1%nat, file 11 MiB (key "a" 9) (key "c" 7))] |}.

Definition edit_with_last_sequence : VersionEdit :=
  {| comparator_ := "";
     log_number_ := 0; prev_log_number_ := 0;
     next_file_number_ := 0; last_sequence_ := 17;
     has_comparator_ := false; has_log_number_ := false;
     has_prev_log_number_ := false; has_next_file_number_ := false;
     has_last_sequence_ := true;
     compact_pointers_ := []; deleted_files_ := []; new_files_ := [] |}.

Definition decode_two (r : Slice) : Status * VersionEdit :=
  if String.eqb r "log" then (OK, edit_with_log_number)
  else if String.eqb r "seq" then (OK, edit_with_last_sequence)
  else (Corruption "VersionEdit", new_VersionEdit).

Definition manifest_two : SequentialFile :=
  {| records := [ {| reported := []; record := "log"%string |};
                  {| reported := []; record := "seq"%string |} ];
     reported_at_end := [] |}.

Definition CURRENT_contents : string :=
  String.append "MANIFEST-000002" (String newline EmptyString).

Definition env_two : Env :=
  {| ReadFileToString_CURRENT := (OK, CURRENT_contents);
     NewSequentialFile := fun name =>
       if String.eqb name "db/MANIFEST-000002" then (OK, manifest_two)
       else (NotFound name, {| records := []; reported_at_end := [] |}) |}.


Example Recover_manifest_two :
  option_map fst
    (Recover (ucmp := BytewiseComparator) decode_two env_two
       (version_set_of new_Version))
  = Some (Corruption "no meta-nextfile entry in descriptor").
Proof. reflexivity. Qed.

(** ** Finalize on concrete versions *)

(** Scenario S2: four overlapping files at level 0. *)
Definition version_S2 : Version :=
  version_of (fun l =>
    if Nat.eqb l 0 then
      [ file 5 1000 (key "a" 1) (key "d" 1);
        file 6 1000 (key "b" 2) (key "e" 2);
        file 7 1000 (key "c" 3) (key "f" 3);
        file 8 1000 (key "d" 4) (key "g" 4) ]
    else []).

Tactic Notation "each_level" ident(level) ident(H) :=
  unfold kNumLevels in H; simpl in H;
  (destruct level as [|level];
   [|destruct level as [|level];
     [|destruct level as [|level];
       [|destruct level as [|level];
         [|destruct level as [|level];
           [|destruct level as [|level];
             [|destruct level as [|level]; [|]]]]]]]);
  try lia.

Lemma Finalize_picks_max_score_witness :
  exists best : nat,
    compaction_level_ (Finalize version_S2) = Z.of_nat best
    /\ (best < kNumLevels - 1)%nat
    /\ compaction_score_ (Finalize version_S2) = level_score version_S2 best
    /\ (forall level, (level < kNumLevels - 1)%nat ->
          double_ge (level_score version_S2 best)
                    (level_score version_S2 level) = true)
    /\ (forall level, (level < best)%nat ->
          double_gt (level_score version_S2 best)
                    (level_score version_S2 level) = true).
Proof.
  apply Finalize_picks_max_score.
  intros level Hlevel.
  each_level level Hlevel;
    (split; [repeat constructor; vm_compute; discriminate
            |vm_compute; reflexivity]).
Defined.

(** S1 and S2: one file at level 0 scores 1/4, four files score 1. *)
Example Finalize_S1 :
  let v := Finalize (version_of (fun l =>
             if Nat.eqb l 0 then [ file 5 1000 (key "a" 1) (key "c" 1) ]
             else [])) in
  (compaction_level_ v, compaction_score_ v)
  = (0, double_div (double_of_Z 1) (double_of_Z 4)).
Proof. vm_compute. reflexivity. Qed.

Example Finalize_S2 :
  (compaction_level_ (Finalize version_S2),
   compaction_score_ (Finalize version_S2))
  = (0, double_of_Z 1).
Proof. vm_compute. reflexivity. Qed.

(** Levels 1 and 2 at the same score of 1/2: the lower level wins. *)
Example Finalize_tie :
  compaction_level_
    (Finalize (version_of (fun l =>
       if Nat.eqb l 1 then [ file 5 (5 * MiB) (key "a" 1) (key "c" 1) ]
       else if Nat.eqb l 2 then [ file 6 (50 * MiB) (key "a" 2) (key "c" 2) ]
       else [])))
  = 1.
Proof. vm_compute. reflexivity. Qed.

(** ** The builder on a concrete version *)

(** Level 1 of the base holds [a..c] and [g..k]; the edit adds [d..f]
    between them. *)
Definition base_two_l1 : Version :=
  version_of (fun l =>
    if Nat.eqb l 1 then
      [ file 11 1000 (key "a" 9) (key "c" 7);
        file 13 1000 (key "g" 4) (key "k" 3) ]
    else []).

Definition edit_add_df : VersionEdit :=
  {| comparator_ := ""; log_number_ := 0; prev_log_number_ := 0;
     next_file_number_ := 0; last_sequence_ := 0;
     has_comparator_ := false; has_log_number_ := false;
     has_prev_log_number_ := false; has_next_file_number_ := false;
     has_last_sequence_ := false;
     compact_pointers_ := []; deleted_files_ := [];
     new_files_ := [(1%nat, file 12 1000 (key "d" 6) (key "f" 5))] |}.

Definition saved (base : Version) (edits : list VersionEdit)
    : option Version :=
  SaveTo (ucmp := BytewiseComparator)
    (snd (fold_left (Apply (ucmp := BytewiseComparator)) edits
            (version_set_of base, new_Builder base)))
    new_Version.

Definition saved_two_l1 : Version :=
  match saved base_two_l1 [edit_add_df] with
  | Some v => v
  | None => new_Version
  end.


Example SaveTo_two_l1 :
  option_map (fun v => map number (files_ v 1))
    (saved base_two_l1 [edit_add_df])
  = Some [11; 12; 13].
Proof. reflexivity. Qed.

(** An edit that adds a file overlapping [a..c] makes [SaveTo] abort. *)
Example SaveTo_overlap_aborts :
  saved base_two_l1
    [ {| comparator_ := ""; log_number_ := 0; prev_log_number_ := 0;
         next_file_number_ := 0; last_sequence_ := 0;
         has_comparator_ := false; has_log_number_ := false;
         has_prev_log_number_ := false; has_next_file_number_ := false;
         has_last_sequence_ := false;
         compact_pointers_ := []; deleted_files_ := [];
         new_files_ := [(1%nat, file 14 1000 (key "b" 6) (key "e" 5))] |} ]
  = None.
Proof. reflexivity. Qed.

(** ** GetOverlappingInputs and ShouldStopBefore on concrete versions *)

(** Scenario S2: the range of the first file alone pulls in all four
    files of level 0, each overlapping the one before. *)
Example GetOverlappingInputs_S2 :
  option_map (map number)
    (GetOverlappingInputs (ucmp := BytewiseComparator) version_S2 0
       (Some (key "a" 1)) (Some (key "a" 1)))
  = Some [5; 6; 7; 8].
Proof. reflexivity. Qed.

(** Above level 0 the same range selects the overlapping files only. *)
Example GetOverlappingInputs_level1 :
  option_map (map number)
    (GetOverlappingInputs (ucmp := BytewiseComparator)
       (version_of (fun l => if Nat.eqb l 1 then files_abc else [])) 1
       (Some (key "e" 1)) None)
  = Some [12; 13].
Proof. reflexivity. Qed.

(** A compaction with 30 MiB of grandparents before the key: the first
    call does not stop, the second call, past the same files, does. *)
Definition compaction_with_grandparents : Compaction :=
  planned (new_Compaction 0) None new_VersionEdit [] []
    [ file 71 (15 * MiB) (key "a" 9) (key "c" 8);
      file 72 (15 * MiB) (key "d" 7) (key "f" 6);
      file 73 (15 * MiB) (key "g" 5) (key "k" 4) ].

Example ShouldStopBefore_first_then_second :
  let first :=
    ShouldStopBefore (ucmp := BytewiseComparator)
      compaction_with_grandparents (key "b" 1) in
  let second :=
    ShouldStopBefore (ucmp := BytewiseComparator) (fst first) (key "z" 1) in
  (snd first, snd second) = (false, true).
Proof. reflexivity. Qed.

(** ** Scans, searches and lookups on concrete versions *)

Definition version_abc_l1 : Version :=
  version_of (fun l => if Nat.eqb l 1 then files_abc else []).

Lemma GetOverlappingInputs_above_level0_exact_witness :
  exists inputs,
    GetOverlappingInputs (ucmp := BytewiseComparator) version_abc_l1 1
      (Some (key "e" 1)) None = Some inputs
    /\ inputs
       = filter (overlaps_range (ucmp := BytewiseComparator)
                   (Some (key "e" 1)) None)
           (files_ version_abc_l1 1)
    /\ (forall f, In f inputs <->
          In f (files_ version_abc_l1 1)
          /\ ~ (isSome (Some (key "e" 1)) = true
                /\ Compare (Comparator := BytewiseComparator)
                     (file_limit f) (user_key_or_empty (Some (key "e" 1)))
                   = Lt)
          /\ ~ (isSome (@None InternalKey) = true
                /\ Compare (Comparator := BytewiseComparator)
                     (file_start f) (user_key_or_empty None) = Gt)).
Proof.
  apply (GetOverlappingInputs_above_level0_exact (ucmp := BytewiseComparator)).
  discriminate.
Defined.

Lemma GetOverlappingInputs_level0_connected_witness :
  exists inputs,
    GetOverlappingInputs (ucmp := BytewiseComparator) version_S2 0
      (Some (key "a" 1)) (Some (key "a" 1)) = Some inputs
    /\ forall f, In f inputs ->
         reaches (ucmp := BytewiseComparator)
           (Some (key "a" 1)) (Some (key "a" 1)) (files_ version_S2 0) f.
Proof.
  apply (GetOverlappingInputs_level0_connected (ucmp := BytewiseComparator)).
  repeat constructor; vm_compute; discriminate.
Defined.

(** The chain that links the last file of level 0 to the range. *)
Example reaches_S2_last :
  reaches (ucmp := BytewiseComparator)
    (Some (key "a" 1)) (Some (key "a" 1)) (files_ version_S2 0)
    (file 8 1000 (key "d" 4) (key "g" 4)).
Proof.
  apply (reaches_file _ _ _ (file 5 1000 (key "a" 1) (key "d" 1))).
  - apply reaches_range; [simpl; auto|reflexivity].
  - simpl; auto.
  - split; vm_compute; discriminate.
Qed.

(** Three files out of order. *)
Definition files_kac : list FileMetaData :=
  [ file 13 1000 (key "g" 4) (key "k" 3);
    file 11 1000 (key "a" 9) (key "c" 7);
    file 12 1000 (key "d" 6) (key "f" 5) ].

Lemma FindFile_boundary_witness :
  exists i : nat,
    FindFile (ucmp := BytewiseComparator) files_kac (key "e" 100)
    = Some (Z.of_nat i)
    /\ (i <= length files_kac)%nat
    /\ (forall f, nth_error files_kac i = Some f ->
          icmp_Compare (ucmp := BytewiseComparator) (largest f) (key "e" 100)
          <> Lt)
    /\ (forall j f, i = S j -> nth_error files_kac j = Some f ->
          icmp_Compare (ucmp := BytewiseComparator) (largest f) (key "e" 100)
          = Lt).
Proof.
  apply (FindFile_boundary (ucmp := BytewiseComparator)).
  reflexivity.
Defined.

Example FindFile_files_kac :
  FindFile (ucmp := BytewiseComparator) files_kac (key "e" 100) = Some 2.
Proof. reflexivity. Qed.

Lemma Get_probes_covering_files_witness :
  exists s st,
    Get (ucmp := BytewiseComparator) empty_tables version_three_probes
      (key "c" 100) "" = Some (s, st)
    /\ forall f l, In (f, l) (probed st) ->
         exists level, (level < kNumLevels)%nat /\ l = Z.of_nat level
                       /\ In f (files_ version_three_probes level)
                       /\ covers (ucmp := BytewiseComparator)
                            (user_key (key "c" 100)) f.
Proof.
  apply (Get_probes_covering_files (ucmp := BytewiseComparator)).
  intros level Hlevel.
  do 7 (destruct level as [|level]; [reflexivity|]).
  unfold kNumLevels in Hlevel. lia.
Defined.

Lemma Get_no_covering_file_not_found_witness :
  Get (ucmp := BytewiseComparator) empty_tables version_three_probes
    (key "z" 100) "" = Some (NotFound "", Get_init "").
Proof.
  apply (Get_no_covering_file_not_found (ucmp := BytewiseComparator)).
  - intros level Hlevel.
    do 7 (destruct level as [|level]; [reflexivity|]).
    unfold kNumLevels in Hlevel. lia.
  - intros level f Hlevel Hf [_ Hc]. apply Hc.
    each_level level Hlevel; simpl in Hf;
      repeat (destruct Hf as [<-|Hf]; [reflexivity|]); destruct Hf.
Defined.

Lemma Get_probe_order_witness :
  exists s st,
    Get (ucmp := BytewiseComparator) empty_tables version_three_probes
      (key "c" 100) "" = Some (s, st)
    /\ StronglySorted probe_order (probed st).
Proof.
  apply (Get_probe_order (ucmp := BytewiseComparator)).
  intros level Hlevel.
  do 7 (destruct level as [|level]; [reflexivity|]).
  unfold kNumLevels in Hlevel. lia.
Defined.

Example Get_probe_order_three_probes :
  option_map (fun r => map (fun p => (number (fst p), snd p)) (probed (snd r)))
    (Get (ucmp := BytewiseComparator) empty_tables version_three_probes
       (key "c" 100) "")
  = Some [(22, 0); (21, 0); (11, 1)].
Proof. reflexivity. Qed.

(** ** Recover on concrete manifests *)

Lemma Recover_failure_installs_nothing_witness :
  exists s vset',
    Recover (ucmp := BytewiseComparator) decode_two env_two
      (version_set_of new_Version) = Some (s, vset')
    /\ installs_nothing (version_set_of new_Version) vset'.
Proof.
  eexists _, _. split; [reflexivity|].
  eapply (Recover_failure_installs_nothing (ucmp := BytewiseComparator)
            decode_two env_two (version_set_of new_Version)).
  - reflexivity.
  - reflexivity.
Defined.

(** A manifest of three records that carry, between them, a log number,
    a next-file number, twice, and a last sequence number. *)
Definition edit_with_next_file (n : Z) : VersionEdit :=
  {| comparator_ := "";
     log_number_ := 0; prev_log_number_ := 0;
     next_file_number_ := n; last_sequence_ := 0;
     has_comparator_ := false; has_log_number_ := false;
     has_prev_log_number_ := false; has_next_file_number_ := true;
     has_last_sequence_ := false;
     compact_pointers_ := []; deleted_files_ := []; new_files_ := [] |}.

Definition edit_with_sequence_and_next_file : VersionEdit :=
  {| comparator_ := "";
     log_number_ := 0; prev_log_number_ := 0;
     next_file_number_ := 9; last_sequence_ := 17;
     has_comparator_ := false; has_log_number_ := false;
     has_prev_log_number_ := false; has_next_file_number_ := true;
     has_last_sequence_ := true;
     compact_pointers_ := []; deleted_files_ := []; new_files_ := [] |}.

Definition decode_three (r : Slice) : Status * VersionEdit :=
  if String.eqb r "log" then (OK, edit_with_log_number)
  else if String.eqb r "next" then (OK, edit_with_next_file 5)
  else if String.eqb r "seq" then (OK, edit_with_sequence_and_next_file)
  else (Corruption "VersionEdit", new_VersionEdit).

Definition manifest_three : SequentialFile :=
  {| records := [ {| reported := []; record := "log"%string |};
                  {| reported := []; record := "next"%string |};
                  {| reported := []; record := "seq"%string |} ];
     reported_at_end := [] |}.

Definition env_three : Env :=
  {| ReadFileToString_CURRENT := (OK, CURRENT_contents);
     NewSequentialFile := fun name =>
       if String.eqb name "db/MANIFEST-000002" then (OK, manifest_three)
       else (NotFound name, {| records := []; reported_at_end := [] |}) |}.

Lemma Recover_replays_manifest_witness :
  exists vset',
    Recover (ucmp := BytewiseComparator) decode_three env_three
      (version_set_of new_Version) = Some (OK, vset')
    /\ map number (files_ (current_ vset') 1) = [11]
    /\ manifest_file_number_ vset' = 9
    /\ vs_next_file_number_ vset' = 10
    /\ vs_last_sequence_ vset' = 17
    /\ vs_log_number_ vset' = 3
    /\ vs_prev_log_number_ vset' = 0.
Proof.
  assert (stream_decodes (ucmp := BytewiseComparator) decode_three
            manifest_three) as Hs.
  { split; [|reflexivity]. repeat constructor; simpl; discriminate. }
  pose proof (Recover_replays_manifest (ucmp := BytewiseComparator)
                decode_three env_three (version_set_of new_Version)
                CURRENT_contents manifest_three
                eq_refl eq_refl eq_refl Hs eq_refl eq_refl eq_refl) as H.
  cbv zeta in H.
  destruct (SaveTo (ucmp := BytewiseComparator) _ new_Version) as [v|] eqn:E;
    [|vm_compute in E; discriminate].
  destruct H as (vset' & H & H1 & H2 & H3 & H4 & H5 & H6 & _).
  exists vset'. split; [exact H|].
  vm_compute in E. injection E as <-.
  rewrite H1, H2, H3, H4, H5, H6.
  repeat split; reflexivity.
Defined.

(** A manifest whose second record names another comparator. *)
Definition edit_other_comparator : VersionEdit :=
  {| comparator_ := "other.Comparator";
     log_number_ := 0; prev_log_number_ := 0;
     next_file_number_ := 0; last_sequence_ := 0;
     has_comparator_ := true; has_log_number_ := false;
     has_prev_log_number_ := false; has_next_file_number_ := false;
     has_last_sequence_ := false;
     compact_pointers_ := []; deleted_files_ := []; new_files_ := [] |}.

Definition decode_other (r : Slice) : Status * VersionEdit :=
  if String.eqb r "log" then (OK, edit_with_log_number)
  else if String.eqb r "other" then (OK, edit_other_comparator)
  else (OK, edit_with_sequence_and_next_file).

Definition manifest_other : SequentialFile :=
  {| records := [ {| reported := []; record := "log"%string |};
                  {| reported := []; record := "other"%string |};
                  {| reported := []; record := "seq"%string |} ];
     reported_at_end := [] |}.

Definition env_other : Env :=
  {| ReadFileToString_CURRENT := (OK, CURRENT_contents);
     NewSequentialFile := fun name =>
       if String.eqb name "db/MANIFEST-000002" then (OK, manifest_other)
       else (NotFound name, {| records := []; reported_at_end := [] |}) |}.

Lemma Recover_comparator_mismatch_witness :
  exists msg vset',
    Recover (ucmp := BytewiseComparator) decode_other env_other
      (version_set_of new_Version) = Some (InvalidArgument msg, vset')
    /\ installs_nothing (version_set_of new_Version) vset'.
Proof.
  apply (Recover_comparator_mismatch (ucmp := BytewiseComparator)
           decode_other env_other (version_set_of new_Version)
           CURRENT_contents manifest_other
           [ {| reported := []; record := "log"%string |} ]
           [ {| reported := []; record := "seq"%string |} ]
           {| reported := []; record := "other"%string |}).
  - reflexivity.
  - reflexivity.
  - reflexivity.
  - reflexivity.
  - repeat constructor.
  - reflexivity.
  - reflexivity.
  - reflexivity.
  - vm_compute. discriminate.
Defined.

(** ** The builder on concrete edits *)

(** An edit that replaces file 13 of level 1 by a file of the same
    number and deletes file 11. *)
Definition edit_replace_13 : VersionEdit :=
  {| comparator_ := ""; log_number_ := 0; prev_log_number_ := 0;
     next_file_number_ := 0; last_sequence_ := 0;
     has_comparator_ := false; has_log_number_ := false;
     has_prev_log_number_ := false; has_next_file_number_ := false;
     has_last_sequence_ := false;
     compact_pointers_ := [];
     deleted_files_ := [(1%nat, 11); (1%nat, 13)];
     new_files_ := [(1%nat, file 13 2000 (key "m" 2) (key "p" 1))] |}.

Example SaveTo_replace_13 :
  option_map (fun v => map number (files_ v 1))
    (saved base_two_l1 [edit_replace_13])
  = Some [13; 13].
Proof. reflexivity. Qed.

Lemma SaveTo_applies_edit_witness :
  exists v,
    saved base_two_l1 [edit_add_df] = Some v
    /\ (forall g, In g (files_ v 1) ->
          In g (files_ base_two_l1 1)
          \/ exists f0, In (1%nat, f0) (new_files_ edit_add_df)
                        /\ g = Apply_new_FileMetaData f0)
    /\ (forall g, In g (files_ base_two_l1 1) ->
          ~ In (1%nat, number g) (deleted_files_ edit_add_df) ->
          In g (files_ v 1))
    /\ (forall g, In g (files_ v 1) ->
          In (1%nat, number g) (deleted_files_ edit_add_df) ->
          exists f0, In (1%nat, f0) (new_files_ edit_add_df)
                     /\ number f0 = number g).
Proof.
  eexists. split; [reflexivity|].
  apply (SaveTo_applies_edit (ucmp := BytewiseComparator)
           (version_set_of base_two_l1) base_two_l1 edit_add_df).
  - reflexivity.
  - unfold kNumLevels. lia.
Defined.

Lemma SaveTo_added_file_present_witness :
  exists v g,
    saved base_two_l1 [edit_replace_13] = Some v
    /\ In g (files_ v 1)
    /\ number g = 13
    /\ icmp_Compare (ucmp := BytewiseComparator) (smallest g) (key "m" 2)
       = Eq.
Proof.
  destruct (SaveTo_added_file_present (ucmp := BytewiseComparator)
              (version_set_of base_two_l1) base_two_l1 edit_replace_13
              _ 1%nat (file 13 2000 (key "m" 2) (key "p" 1)) eq_refl)
    as (g & H1 & H2 & H3).
  - unfold kNumLevels. lia.
  - simpl. auto.
  - eexists _, g. split; [reflexivity|]. auto.
Defined.

Lemma SaveTo_keeps_set_order_witness :
  Sorted (set_le (ucmp := BytewiseComparator)) (files_ saved_two_l1 1).
Proof.
  apply (SaveTo_keeps_set_order (ucmp := BytewiseComparator)
           (version_set_of base_two_l1) base_two_l1 [edit_add_df]).
  - repeat constructor.
  - reflexivity.
  - unfold kNumLevels. lia.
Defined.

(** A version set over the two files of level 1, with a compaction
    pointer at that level. *)
Definition vset_two_l1 : VersionSet :=
  set_compact_pointer (version_set_of base_two_l1) 1 (key "c" 7).

Lemma WriteSnapshot_rebuilds_version_witness :
  exists v,
    SaveTo (ucmp := BytewiseComparator)
      (snd (Apply (ucmp := BytewiseComparator)
              (version_set_of new_Version, new_Builder new_Version)
              (WriteSnapshot_edit (ucmp := BytewiseComparator) vset_two_l1)))
      new_Version = Some v
    /\ (forall l, (l < kNumLevels)%nat ->
          files_ v l
          = map Apply_new_FileMetaData (files_ (current_ vset_two_l1) l))
    /\ (forall l, (l < kNumLevels)%nat ->
          compact_pointer_
            (fst (Apply (ucmp := BytewiseComparator)
                    (version_set_of new_Version, new_Builder new_Version)
                    (WriteSnapshot_edit (ucmp := BytewiseComparator)
                       vset_two_l1))) l
          = match compact_pointer_ vset_two_l1 l with
            | Some key => Some key
            | None => compact_pointer_ (version_set_of new_Version) l
            end).
Proof.
  apply (WriteSnapshot_rebuilds_version (ucmp := BytewiseComparator)
           vset_two_l1 (version_set_of new_Version)).
  - intros l [Hl1 Hl2]. each_level l Hl2; split; repeat constructor.
  - constructor.
Defined.

Example WriteSnapshot_edit_two_l1 :
  let edit := WriteSnapshot_edit (ucmp := BytewiseComparator) vset_two_l1 in
  (comparator_ edit, compact_pointers_ edit,
   map (fun a => (fst a, number (snd a))) (new_files_ edit))
  = ("leveldb.BytewiseComparator"%string, [(1%nat, key "c" 7)],
     [(1%nat, 11); (1%nat, 13)]).
Proof. reflexivity. Qed.

(** ** Compaction planning on concrete versions *)

Lemma SetupOtherInputs_parents_cover_witness :
  exists vset' c' s l,
    SetupOtherInputs (ucmp := BytewiseComparator)
      (version_set_of version_S6) (compaction_of 0 version_S6 [file_bd])
    = Some (vset', c')
    /\ GetRange (ucmp := BytewiseComparator) (inputs_0 c') = Some (s, l)
    /\ GetOverlappingInputs (ucmp := BytewiseComparator)
         (current_ (version_set_of version_S6))
         (level_ (compaction_of 0 version_S6 [file_bd]) + 1)
         (Some s) (Some l)
       = Some (inputs_1 c')
    /\ compact_pointer_ vset' (level_ (compaction_of 0 version_S6 [file_bd]))
       = Some l
    /\ compact_pointers_ (edit_ c')
       = compact_pointers_ (edit_ (compaction_of 0 version_S6 [file_bd]))
         ++ [(level_ (compaction_of 0 version_S6 [file_bd]), l)]
    /\ ((level_ (compaction_of 0 version_S6 [file_bd]) + 2 < kNumLevels)%nat ->
        exists all_start all_limit,
          GetRange2 (ucmp := BytewiseComparator) (inputs_0 c') (inputs_1 c')
          = Some (all_start, all_limit)
          /\ GetOverlappingInputs (ucmp := BytewiseComparator)
               (current_ (version_set_of version_S6))
               (level_ (compaction_of 0 version_S6 [file_bd]) + 2)
               (Some all_start) (Some all_limit)
             = Some (grandparents_ c')).
Proof.
  apply (SetupOtherInputs_parents_cover (ucmp := BytewiseComparator)).
  discriminate.
Defined.

Lemma SetupOtherInputs_keeps_inputs_witness :
  exists vset' c',
    SetupOtherInputs (ucmp := BytewiseComparator)
      (version_set_of version_S6) (compaction_of 0 version_S6 [file_bd])
    = Some (vset', c')
    /\ incl [file_bd] (inputs_0 c')
    /\ incl (inputs_0 c') (files_ version_S6 0).
Proof.
  eexists _, _. split; [reflexivity|].
  eapply (SetupOtherInputs_keeps_inputs (ucmp := BytewiseComparator)
            (version_set_of version_S6)
            (compaction_of 0 version_S6 [file_bd])).
  - repeat constructor; vm_compute; discriminate.
  - intros f [<-|[]]. simpl. auto.
  - reflexivity.
Defined.

(** Four overlapping files at level 0, scored. *)
Definition vset_S2 : VersionSet :=
  version_set_of (Finalize version_S2).

Lemma PickCompaction_size_triggered_witness :
  exists vset' c f,
    PickCompaction (ucmp := BytewiseComparator) vset_S2
    = Some (vset', Some c)
    /\ compaction_level_ (current_ vset_S2) = Z.of_nat (level_ c)
    /\ (level_ c + 1 < kNumLevels)%nat
    /\ input_version_ c = Some (current_ vset_S2)
    /\ round_robin (ucmp := BytewiseComparator) (files_ version_S2 (level_ c))
         (compact_pointer_ vset_S2 (level_ c)) f
    /\ In f (inputs_0 c)
    /\ incl (inputs_0 c) (files_ version_S2 (level_ c))
    /\ incl (inputs_1 c) (files_ version_S2 (level_ c + 1)).
Proof.
  apply (PickCompaction_size_triggered (ucmp := BytewiseComparator)).
  - reflexivity.
  - vm_compute. reflexivity.
  - intros level Hlevel.
    each_level level Hlevel; repeat constructor; vm_compute; discriminate.
Defined.

Example PickCompaction_S2 :
  option_map (fun r => option_map (fun c => map number (inputs_0 c)) (snd r))
    (PickCompaction (ucmp := BytewiseComparator) vset_S2)
  = Some (Some [5; 6; 7; 8]).
Proof. vm_compute. reflexivity. Qed.

(** A version whose only file, at level 1, has used up its seeks. *)
Definition file_mp : FileMetaData := file 7 MiB (key "m" 9) (key "p" 8).

Definition version_seek : Version :=
  {| files_ := fun l => if Nat.eqb l 1 then [file_mp] else [];
     file_to_compact_ := Some file_mp;
     file_to_compact_level_ := 1;
     compaction_score_ := double_of_Z (-1);
     compaction_level_ := -1 |}.

Lemma PickCompaction_seek_triggered_witness :
  exists vset' c,
    PickCompaction (ucmp := BytewiseComparator) (version_set_of version_seek)
    = Some (vset', Some c)
    /\ level_ c = 1%nat
    /\ input_version_ c = Some (current_ (version_set_of version_seek))
    /\ In file_mp (inputs_0 c)
    /\ incl (inputs_0 c) (files_ (current_ (version_set_of version_seek)) 1)
    /\ incl (inputs_1 c)
         (files_ (current_ (version_set_of version_seek)) (1 + 1)).
Proof.
  apply (PickCompaction_seek_triggered (ucmp := BytewiseComparator)).
  - vm_compute. reflexivity.
  - reflexivity.
  - reflexivity.
  - simpl. auto.
  - repeat constructor; vm_compute; discriminate.
Defined.

(** One file at level 0, scored: nothing to compact. *)
Definition version_S1 : Version :=
  version_of (fun l =>
    if Nat.eqb l 0 then [ file 5 1000 (key "a" 1) (key "c" 1) ] else []).

Lemma PickCompaction_nothing_to_do_witness :
  PickCompaction (ucmp := BytewiseComparator)
    (version_set_of (Finalize version_S1))
  = Some (version_set_of (Finalize version_S1),
          None).
Proof.
  apply (PickCompaction_nothing_to_do (ucmp := BytewiseComparator) _
           version_S1).
  - reflexivity.
  - intros level Hlevel.
    each_level level Hlevel; vm_compute; reflexivity.
  - reflexivity.
Defined.

(** The single file of level 1 moves to level 2 as it is. *)
Lemma IsTrivialMove_single_file_witness :
  exists vset' c',
    SetupOtherInputs (ucmp := BytewiseComparator)
      (version_set_of version_seek) (compaction_of 1 version_seek [file_mp])
    = Some (vset', c')
    /\ inputs_0 c' = [file_mp] /\ inputs_1 c' = []
    /\ IsTrivialMove c' = true.
Proof.
  apply (IsTrivialMove_single_file (ucmp := BytewiseComparator)).
  - reflexivity.
  - reflexivity.
  - intros g [].
  - vm_compute. discriminate.
Defined.

(** A compaction of level 0 over a version with three files at
    level 2. *)
Definition version_abc_l2 : Version :=
  version_of (fun l => if Nat.eqb l 2 then files_abc else []).

Lemma IsBaseLevelForKey_correct_witness :
  exists c' r,
    IsBaseLevelForKey (ucmp := BytewiseComparator)
      (compaction_of 0 version_abc_l2 []) "e"%string = Some (c', r)
    /\ (r = true <->
        forall lvl f,
          (level_ (compaction_of 0 version_abc_l2 []) + 2 <= lvl
           < kNumLevels)%nat ->
          In f (files_ version_abc_l2 lvl) ->
          ~ covers (ucmp := BytewiseComparator) "e"%string f)
    /\ (forall k', Compare (Comparator := BytewiseComparator) "e"%string k' <> Gt ->
          forall lvl,
            behind (ucmp := BytewiseComparator) version_abc_l2 k' lvl
              (level_ptrs_ c' lvl)).
Proof.
  apply (IsBaseLevelForKey_correct (ucmp := BytewiseComparator)).
  - reflexivity.
  - intros lvl [Hl1 Hl2].
    each_level lvl Hl2; repeat constructor; vm_compute; discriminate.
  - intros lvl j f Hj. simpl in Hj. lia.
Defined.

Example IsBaseLevelForKey_abc :
  (option_map snd
     (IsBaseLevelForKey (ucmp := BytewiseComparator)
        (compaction_of 0 version_abc_l2 []) "e"%string),
   option_map snd
     (IsBaseLevelForKey (ucmp := BytewiseComparator)
        (compaction_of 0 version_abc_l2 []) "ff"%string))
  = (Some false, Some true).
Proof. reflexivity. Qed.

(** The edit of a compaction of file 11 of level 1 into a file 14 of
    level 2. *)
Definition edit_output_14 : VersionEdit :=
  {| comparator_ := ""; log_number_ := 0; prev_log_number_ := 0;
     next_file_number_ := 0; last_sequence_ := 0;
     has_comparator_ := false; has_log_number_ := false;
     has_prev_log_number_ := false; has_next_file_number_ := false;
     has_last_sequence_ := false;
     compact_pointers_ := []; deleted_files_ := [];
     new_files_ := [(2%nat, file 14 1000 (key "a" 9) (key "c" 7))] |}.

Definition compaction_of_11 : Compaction :=
  compaction_of 1 base_two_l1 [file 11 1000 (key "a" 9) (key "c" 7)].

Lemma AddInputDeletions_removes_inputs_witness :
  exists v,
    saved base_two_l1 [AddInputDeletions compaction_of_11 edit_output_14]
    = Some v
    /\ (forall f g,
          In f (inputs_0 compaction_of_11) ->
          In g (files_ v (level_ compaction_of_11)) ->
          number g = number f ->
          exists f0,
            In (level_ compaction_of_11, f0) (new_files_ edit_output_14)
            /\ number f0 = number f)
    /\ (forall f g,
          In f (inputs_1 compaction_of_11) ->
          In g (files_ v (level_ compaction_of_11 + 1)) ->
          number g = number f ->
          exists f0,
            In ((level_ compaction_of_11 + 1)%nat, f0)
               (new_files_ edit_output_14)
            /\ number f0 = number f).
Proof.
  eexists. split; [reflexivity|].
  apply (AddInputDeletions_removes_inputs (ucmp := BytewiseComparator)
           (version_set_of base_two_l1) base_two_l1 compaction_of_11
           edit_output_14).
  - reflexivity.
  - unfold kNumLevels. simpl. lia.
Defined.

Example AddInputDeletions_moves_11 :
  option_map (fun v => (map number (files_ v 1), map number (files_ v 2)))
    (saved base_two_l1 [AddInputDeletions compaction_of_11 edit_output_14])
  = Some ([13], [14]).
Proof. reflexivity. Qed.

(** ** Overlap tests and the level of a flushed memtable *)

(** The constants as db/dbformat.h sets them. *)
Definition kMaxSequenceNumber : Z := 2 ^ 56 - 1.
Definition kValueTypeForSeek : ValueType := kTypeValue.
Definition kMaxMemCompactLevel : nat := 2.

Lemma SomeFileOverlapsRange_search_agrees_witness :
  exists b,
    SomeFileOverlapsRange (ucmp := BytewiseComparator)
      kMaxSequenceNumber kValueTypeForSeek true files_abc
      (Some "cc"%string) (Some "e"%string) = Some b
    /\ SomeFileOverlapsRange (ucmp := BytewiseComparator)
         kMaxSequenceNumber kValueTypeForSeek false files_abc
         (Some "cc"%string) (Some "e"%string) = Some b
    /\ (b = true <->
        exists f, In f files_abc
                  /\ meets (ucmp := BytewiseComparator)
                       (Some "cc"%string) (Some "e"%string) f).
Proof.
  apply (SomeFileOverlapsRange_search_agrees (ucmp := BytewiseComparator)).
  - reflexivity.
  - repeat constructor; vm_compute; discriminate.
  - repeat constructor; vm_compute; discriminate.
  - repeat constructor; vm_compute; auto.
  - repeat constructor; vm_compute; discriminate.
Defined.

Example SomeFileOverlapsRange_files_abc :
  (SomeFileOverlapsRange (ucmp := BytewiseComparator)
     kMaxSequenceNumber kValueTypeForSeek true files_abc
     (Some "cc"%string) (Some "e"%string),
   SomeFileOverlapsRange (ucmp := BytewiseComparator)
     kMaxSequenceNumber kValueTypeForSeek true files_abc
     (Some "cc"%string) (Some "cd"%string),
   SomeFileOverlapsRange (ucmp := BytewiseComparator)
     kMaxSequenceNumber kValueTypeForSeek true files_abc
     None (Some "0"%string))
  = (Some true, Some false, Some false).
Proof. reflexivity. Qed.

Lemma PickLevelForMemTableOutput_level_witness :
  exists L,
    PickLevelForMemTableOutput (ucmp := BytewiseComparator)
      kMaxSequenceNumber kValueTypeForSeek kMaxMemCompactLevel
      version_abc_l2 "l"%string "m"%string = Some L
    /\ (L <= kMaxMemCompactLevel)%nat
    /\ ((exists f, In f (files_ version_abc_l2 0)
                   /\ meets (ucmp := BytewiseComparator)
                        (Some "l"%string) (Some "m"%string) f) ->
        L = O)
    /\ ((0 < L)%nat ->
        forall lvl f, (lvl <= L)%nat -> In f (files_ version_abc_l2 lvl) ->
          ~ meets (ucmp := BytewiseComparator)
              (Some "l"%string) (Some "m"%string) f)
    /\ ((L < kMaxMemCompactLevel)%nat ->
        (exists f, In f (files_ version_abc_l2 0)
                   /\ meets (ucmp := BytewiseComparator)
                        (Some "l"%string) (Some "m"%string) f)
        \/ (exists f, In f (files_ version_abc_l2 (L + 1))
                      /\ meets (ucmp := BytewiseComparator)
                           (Some "l"%string) (Some "m"%string) f)
        \/ kMaxGrandParentOverlapBytes
           < TotalFileSize
               (overlapping_range (ucmp := BytewiseComparator)
                  version_abc_l2 (L + 2)
                  (Some (seek_key kMaxSequenceNumber kValueTypeForSeek
                           "l"%string,
                         {| user_key := "m"%string; sequence := 0;
                            type := kTypeDeletion |})))).
Proof.
  apply (PickLevelForMemTableOutput_level (ucmp := BytewiseComparator)).
  intros lvl [Hl1 Hl2]. unfold kMaxMemCompactLevel in Hl2.
  destruct lvl as [|[|[|lvl]]]; try lia;
    (split; [reflexivity|]);
    repeat split; repeat constructor; vm_compute; try discriminate; auto.
Defined.

Example PickLevelForMemTableOutput_abc :
  (PickLevelForMemTableOutput (ucmp := BytewiseComparator)
     kMaxSequenceNumber kValueTypeForSeek kMaxMemCompactLevel
     version_abc_l2 "l"%string "m"%string,
   PickLevelForMemTableOutput (ucmp := BytewiseComparator)
     kMaxSequenceNumber kValueTypeForSeek kMaxMemCompactLevel
     version_abc_l2 "e"%string "m"%string,
   PickLevelForMemTableOutput (ucmp := BytewiseComparator)
     kMaxSequenceNumber kValueTypeForSeek kMaxMemCompactLevel
     version_S2 "e"%string "m"%string)
  = (Some 2%nat, Some 1%nat, Some 0%nat).
Proof. reflexivity. Qed.

(** ** Seeks, manifest writes and offsets on concrete versions *)



Definition manifest_name (dbname : string) (number : Z) : string :=
  String.append dbname "/MANIFEST-000002".

Definition encoded (edit : VersionEdit) : string := "record"%string.

Definition writes_ok : ManifestWrites :=
  {| NewWritableFile_status := OK;
     WriteSnapshot_status := OK;
     AddRecord_status := OK;
     Sync_status := OK;
     SetCurrentFile_status := OK |}.

(** The sync fails and the manifest does not hold the record. *)
Definition writes_sync_fails : ManifestWrites :=
  {| NewWritableFile_status := OK;
     WriteSnapshot_status := OK;
     AddRecord_status := OK;
     Sync_status := IOError "sync";
     SetCurrentFile_status := OK |}.

Lemma LogAndApply_installs_on_ok_witness :
  exists s vset' descriptor_log_' edit',
    LogAndApply (ucmp := BytewiseComparator) manifest_name encoded
      env_two writes_sync_fails (version_set_of base_two_l1) true edit_add_df
    = Some (s, vset', descriptor_log_', edit')
    /\ (ok s = false ->
        installs_nothing (version_set_of base_two_l1) vset').
Proof.
  pose proof
    (fun s vset' d e H =>
       proj1 (LogAndApply_installs_on_ok (ucmp := BytewiseComparator)
                manifest_name encoded env_two writes_sync_fails
                (version_set_of base_two_l1) true edit_add_df
                s vset' d e H)) as Hfails.
  eexists _, _, _, _. split; [reflexivity|].
  eapply Hfails. reflexivity.
Defined.

Example LogAndApply_installs_edit :
  option_map
    (fun r => (fst (fst (fst r)),
               map number (files_ (current_ (snd (fst (fst r)))) 1)))
    (LogAndApply (ucmp := BytewiseComparator) manifest_name encoded
       env_two writes_ok (version_set_of base_two_l1) true edit_add_df)
  = Some (OK, [11; 12; 13]).
Proof. vm_compute. reflexivity. Qed.

Example LogAndApply_sync_fails :
  option_map
    (fun r => (fst (fst (fst r)),
               map number (files_ (current_ (snd (fst (fst r)))) 1)))
    (LogAndApply (ucmp := BytewiseComparator) manifest_name encoded
       env_two writes_sync_fails (version_set_of base_two_l1) true
       edit_add_df)
  = Some (IOError "sync", [11; 13]).
Proof. vm_compute. reflexivity. Qed.

(** Every table puts the key in its middle. *)
Definition offset_half (number file_size : Z) (ikey : InternalKey)
    : option Z :=
  Some (file_size / 2).

Lemma ApproximateOffsetOf_sums_all_files_witness :
  ApproximateOffsetOf (ucmp := BytewiseComparator) offset_half
    version_abc_l1 (key "e" 100)
  = uint64
      (fold_right
         (fun level sum =>
            offset_in_files (ucmp := BytewiseComparator) offset_half
              (key "e" 100) (files_ version_abc_l1 level) + sum)
         0 (seq 0 kNumLevels)).
Proof.
  apply (ApproximateOffsetOf_sums_all_files (ucmp := BytewiseComparator)).
  intros level [Hl1 Hl2].
  each_level level Hl2; split; repeat constructor; vm_compute; discriminate.
Defined.

Example ApproximateOffsetOf_abc :
  ApproximateOffsetOf (ucmp := BytewiseComparator) offset_half
    version_abc_l1 (key "e" 100) = 1500.
Proof. reflexivity. Qed.
